(** * Citizen deployment MCP server: routing cache, credential store,
      device flow and API gateway

    A shallow embedding of the TypeScript sources
    - [src/index.ts]            (class [CitizenMCPServer]),
    - [src/auth/device-flow.ts] (class [DeviceAuthFlow]),
    - [src/api/client.ts]       (class [CitizenAPIClient]),
    and the properties of the routing cache that the specification states.

    The program is untyped at run time: every remote payload is the result
    of [response.json()] and is used without a check.  The embedding
    therefore works on JavaScript values, with the language's truthiness,
    property access and iteration written out, and threads the object's
    fields and the outside world through a state-and-exception monad in
    which the state survives a [throw], as it does in JavaScript. *)

From Stdlib Require Import ZArith List String Ascii Bool Lia DecimalString.
Import ListNotations.
Local Open Scope list_scope.
Local Open Scope string_scope.

Set Implicit Arguments.
Set Warnings "-register-all".

(* ===================================================================== *)
(** ** JavaScript values *)
(* ===================================================================== *)

Module JS.

(** The values a JSON payload and the code built on it can hold.  Numbers
    are the integers (the payloads of this program carry counts, sizes and
    millisecond instants); [VNaN] is the result of arithmetic on something
    that is not a number. *)
Inductive value : Type :=
| VUndef
| VNull
| VBool (b : bool)
| VNum (n : Z)
| VNaN
| VStr (s : string)
| VArr (items : list value)
| VObj (fields : list (string * value)).

(** What a failed computation throws. *)
Inductive Error : Type :=
| ErrMsg (message : string)   (* [throw new Error(message)] *)
| ErrType                     (* TypeError of the runtime *)
| ErrSyntax                   (* SyntaxError of [JSON.parse] / [response.json()] *)
| ErrNet                      (* [fetch] rejected: no HTTP response *)
| ErrIO.                      (* a file-system or process call failed *)

Inductive Outcome (A : Type) : Type :=
| Ok (a : A)
| Throw (e : Error).
Arguments Ok {A} a.
Arguments Throw {A} e.

(** [if (v)], [!v], [a || b] *)
Definition truthy (v : value) : bool :=
  match v with
  | VUndef | VNull | VNaN => false
  | VBool b => b
  | VNum n => negb (n =? 0)%Z
  | VStr s => negb (s =? "")
  | VArr _ | VObj _ => true
  end.

Definition or_else (a b : value) : value := if truthy a then a else b.

(** The last binding of a key wins, as in [JSON.parse]. *)
Fixpoint field (k : string) (fs : list (string * value)) : option value :=
  match fs with
  | [] => None
  | (k', v) :: rest =>
      match field k rest with
      | Some w => Some w
      | None => if k' =? k then Some v else None
      end
  end.

(** [v.k] for the property names this program reads (none of them is an
    array index or a name inherited from a prototype, except [length]). *)
Definition getProp (v : value) (k : string) : Outcome value :=
  match v with
  | VUndef | VNull => Throw ErrType
  | VObj fs => Ok (match field k fs with Some w => w | None => VUndef end)
  | VArr l => Ok (if k =? "length" then VNum (Z.of_nat (List.length l)) else VUndef)
  | VStr s => Ok (if k =? "length" then VNum (Z.of_nat (String.length s)) else VUndef)
  | VBool _ | VNum _ | VNaN => Ok VUndef
  end.

(** [v === 0] and [v === 'text'] *)
Definition is_num (v : value) (n : Z) : bool :=
  match v with VNum m => (m =? n)%Z | _ => false end.

Definition is_str (v : value) (s : string) : bool :=
  match v with VStr t => t =? s | _ => false end.

(** [typeof v === 'string'], [typeof v === 'object'], [Array.isArray(v)] *)
Definition typeof_string (v : value) : bool :=
  match v with VStr _ => true | _ => false end.

Definition typeof_object (v : value) : bool :=
  match v with VNull | VArr _ | VObj _ => true | _ => false end.

Definition isArray (v : value) : bool :=
  match v with VArr _ => true | _ => false end.

(** The double-quote character. *)
Definition dquote : string := String (ascii_of_nat 34) EmptyString.

Definition string_of_Z (n : Z) : string := NilZero.string_of_int (Z.to_int n).

Fixpoint join (sep : string) (parts : list string) : string :=
  match parts with
  | [] => ""
  | [p] => p
  | p :: rest => p ++ sep ++ join sep rest
  end.

(** [`${v}`] and [String(v)], for the values that print.  The runtime
    throws a TypeError on an object that carries a [toString] of its own
    that is not a function (JSON can hold one), and prints a number beyond
    the exact integers with an exponent; a property that depends on a
    printed text is stated for printable values ([Spec.printable]). *)
Fixpoint toString (v : value) : string :=
  match v with
  | VUndef => "undefined"
  | VNull => "null"
  | VBool true => "true"
  | VBool false => "false"
  | VNum n => string_of_Z n
  | VNaN => "NaN"
  | VStr s => s
  | VArr l =>
      join "," (map (fun x => match x with
                              | VUndef | VNull => ""
                              | _ => toString x
                              end) l)
  | VObj _ => "[object Object]"
  end.

Fixpoint chars (s : string) : list value :=
  match s with
  | EmptyString => []
  | String c rest => VStr (String c EmptyString) :: chars rest
  end.

(** [for (const x of v)]: arrays and strings are iterable. *)
Definition iterate (v : value) : Outcome (list value) :=
  match v with
  | VArr l => Ok l
  | VStr s => Ok (chars s)
  | _ => Throw ErrType
  end.

(** [v.map(f)] exists on arrays only. *)
Definition array_items (v : value) : Outcome (list value) :=
  match v with
  | VArr l => Ok l
  | _ => Throw ErrType
  end.

(** [v[0]] *)
Definition first_item (v : value) : Outcome value :=
  match v with
  | VUndef | VNull => Throw ErrType
  | VArr l => Ok (match l with x :: _ => x | [] => VUndef end)
  | VStr s => Ok (match s with String c _ => VStr (String c EmptyString) | EmptyString => VUndef end)
  | VObj fs => Ok (match field "0" fs with Some w => w | None => VUndef end)
  | _ => Ok VUndef
  end.

(** ToNumber; [None] is NaN.  How the runtime reads a string as a number
    is taken from outside ([str2num]). *)
Definition toNumber (str2num : string -> option Z) (v : value) : option Z :=
  match v with
  | VUndef | VNaN => None
  | VNull => Some 0%Z
  | VBool b => Some (if b then 1 else 0)%Z
  | VNum n => Some n
  | VStr s => str2num s
  | VArr _ | VObj _ => str2num (toString v)
  end.

Definition of_number (n : option Z) : value :=
  match n with Some z => VNum z | None => VNaN end.

(** What [JSON.parse(JSON.stringify(v))] gives back: a property holding
    [undefined] is dropped, [undefined] and [NaN] inside an array become
    [null]. *)
Fixpoint jsonRoundTrip (v : value) : value :=
  match v with
  | VNaN => VNull
  | VArr l =>
      VArr (map (fun x => match x with
                          | VUndef => VNull
                          | _ => jsonRoundTrip x
                          end) l)
  | VObj fs =>
      VObj ((fix go (fs : list (string * value)) : list (string * value) :=
               match fs with
               | [] => []
               | (k, VUndef) :: rest => go rest
               | (k, x) :: rest => (k, jsonRoundTrip x) :: go rest
               end) fs)
  | _ => v
  end.

(** *** [Map]

    Keys are compared with SameValueZero.  Two objects are the same key
    only when they are the same object; every object this program uses as
    a key comes out of a fresh [response.json()] or a fresh request, so an
    object key is never found again. *)
Definition sameValueZero (a b : value) : bool :=
  match a, b with
  | VUndef, VUndef => true
  | VNull, VNull => true
  | VBool x, VBool y => Bool.eqb x y
  | VNum x, VNum y => (x =? y)%Z
  | VNaN, VNaN => true
  | VStr x, VStr y => x =? y
  | _, _ => false
  end.

Definition Map (V : Type) : Type := list (value * V).

Fixpoint map_get {V} (k : value) (m : Map V) : option V :=
  match m with
  | [] => None
  | (k', v) :: rest => if sameValueZero k' k then Some v else map_get k rest
  end.

Fixpoint map_set {V} (k : value) (v : V) (m : Map V) : Map V :=
  match m with
  | [] => [(k, v)]
  | (k', v') :: rest =>
      if sameValueZero k' k then (k', v) :: rest else (k', v') :: map_set k v rest
  end.

Definition map_clear {V} (m : Map V) : Map V := [].

End JS.
Import JS.

(* ===================================================================== *)
(** ** The outside world and the monad *)
(* ===================================================================== *)

Module World.

Inductive Body : Type :=
| NoBody
| JsonBody (payload : value)                      (* [JSON.stringify(payload)] *)
| FormBody (file : string) (filename : string).   (* multipart, field "file" *)

Record Request : Type := {
  method : string;
  url : string;
  headers : list (string * string);
  body : Body
}.

(** An HTTP response: [json] is what [response.json()] resolves to
    ([None]: the body is not JSON), [text] what [response.text()] does. *)
Record Response : Type := {
  status : Z;
  statusText : string;
  text : string;
  json : option value
}.

(** [response.ok] *)
Definition ok (r : Response) : bool :=
  ((200 <=? status r) && (status r <=? 299))%Z.

(** One line per [console.error] call. *)
Inductive LogLine : Type :=
| LogAuthRequired
| LogVisit (verification_url_complete : value)
| LogEnterCode (user_code : value)
| LogWaiting
| LogAuthorized
| LogAuthenticatedAs (name : value)
| LogOrganization (name role : value)
| LogTokenExpired
| LogLoadFailed (error : Error)
| LogAppsStatus (slug : value) (status : Z)   (* "Failed to fetch apps from ..." *)
| LogAppsError (slug : value) (error : Error) (* "Error fetching apps from ..." *)
| LogDebugRun (run : value).

(** Every other effect, in the order it happened. *)
Inductive IoEvent : Type :=
| IoNow
| IoSleep (seconds : value)
| IoWriteConfig (config : value)
| IoTar (directory : value)
| IoRead (path : string)
| IoUnlink (path : string)
| IoOpen (target : string).

(** The credential file [~/.citizen/mcp-config.json]. *)
Inductive ConfigFile : Type :=
| FAbsent
| FUnreadable
| FText (parsed : option value).   (* [None]: [JSON.parse] throws *)

(** What the program cannot decide: the network, the clock, the file
    system, the process environment.  The network answers the [n]-th call
    of the process, the others the [n]-th effect. *)
Record Env : Type := {
  net : nat -> Request -> option Response;   (* [None]: [fetch] rejects *)
  clock : nat -> Z;                          (* [Date.now()] *)
  str2num : string -> option Z;
  env_CITIZENAUTH_URL : option string;
  env_CITIZEN_API_URL : option string;
  write_ok : nat -> bool;                    (* [mkdirSync], [writeFileSync] *)
  write_truncates : nat -> bool;             (* a write that fails had opened the file *)
  tar : nat -> value -> option string;       (* [createTarGz]; [None]: rejected *)
  read : nat -> string -> option string;     (* [readFileSync]; [None]: throws *)
  unlink_ok : nat -> bool;
  open_ok : nat -> bool
}.

Record World : Type := {
  calls : list Request;
  console : list LogLine;
  io : list IoEvent;
  configFile : ConfigFile
}.

Definition add_call (r : Request) (w : World) : World :=
  {| calls := (calls w ++ [r])%list; console := console w; io := io w;
     configFile := configFile w |}.

Definition add_log (l : LogLine) (w : World) : World :=
  {| calls := calls w; console := (console w ++ [l])%list; io := io w;
     configFile := configFile w |}.

Definition add_io (e : IoEvent) (w : World) : World :=
  {| calls := calls w; console := console w; io := (io w ++ [e])%list;
     configFile := configFile w |}.

Definition set_configFile (f : ConfigFile) (w : World) : World :=
  {| calls := calls w; console := console w; io := io w; configFile := f |}.

(** A computation over a state [S] that returns or throws; the state is
    kept in both cases. *)
Definition M (S A : Type) : Type := S -> Outcome A * S.

Definition ret {S A} (a : A) : M S A := fun s => (Ok a, s).

Definition throw {S A} (e : Error) : M S A := fun s => (Throw e, s).

Definition bind {S A B} (m : M S A) (k : A -> M S B) : M S B :=
  fun s =>
    match m s with
    | (Ok a, s') => k a s'
    | (Throw e, s') => (Throw e, s')
    end.

Definition lift {S A} (o : Outcome A) : M S A := fun s => (o, s).

(** [try { m } catch (error) { h error }] *)
Definition try_catch {S A} (m : M S A) (h : Error -> M S A) : M S A :=
  fun s =>
    match m s with
    | (Ok a, s') => (Ok a, s')
    | (Throw e, s') => h e s'
    end.

(** [try { m } finally { f }] *)
Definition try_finally {S A} (m : M S A) (f : M S unit) : M S A :=
  fun s =>
    match m s with
    | (Ok a, s') =>
        match f s' with
        | (Ok _, s'') => (Ok a, s'')
        | (Throw e, s'') => (Throw e, s'')
        end
    | (Throw e, s') =>
        match f s' with
        | (Ok _, s'') => (Throw e, s'')
        | (Throw e', s'') => (Throw e', s'')
        end
    end.

Definition modify {S} (f : S -> S) : M S unit := fun s => (Ok tt, f s).

Definition gets {S A} (f : S -> A) : M S A := fun s => (Ok (f s), s).

Declare Scope js_scope.
Delimit Scope js_scope with js.
Notation "x <- c1 ;; c2" := (bind c1 (fun x => c2))
  (at level 61, c1 at next level, right associativity) : js_scope.
Notation "c1 ;; c2" := (bind c1 (fun _ => c2))
  (at level 61, right associativity) : js_scope.
Local Open Scope js_scope.

Section Effects.
Variable env : Env.

(** [await fetch(url, init)].  The runtime parses the URL first and
    rejects one that is not absolute before anything is sent; the network
    is asked whatever the URL, so a property of the requests is stated for
    absolute URLs with a plain host name ([Spec.http_url]). *)
Definition fetch (req : Request) : M World Response :=
  fun w =>
    match net env (List.length (calls w)) req with
    | Some r => (Ok r, add_call req w)
    | None => (Throw ErrNet, add_call req w)
    end.

(** [await response.json()] *)
Definition json_of (r : Response) : M World value :=
  lift (match json r with Some v => Ok v | None => Throw ErrSyntax end).

Definition log (l : LogLine) : M World unit := modify (add_log l).

(** [Date.now()] *)
Definition now : M World Z :=
  fun w => (Ok (clock env (List.length (io w))), add_io IoNow w).

(** [await new Promise(resolve => setTimeout(resolve, seconds * 1000))].
    The product is not computed: it throws on the objects that cannot be
    printed, and on no primitive. *)
Definition sleep (seconds : value) : M World unit := modify (add_io (IoSleep seconds)).

(** [process.env.X || fallback] *)
Definition env_or (x : option string) (fallback : string) : string :=
  match x with
  | Some s => if s =? "" then fallback else s
  | None => fallback
  end.
End Effects.

End World.
Import World.
Local Open Scope js_scope.

(* ===================================================================== *)
(** ** [src/auth/device-flow.ts] *)
(* ===================================================================== *)

Module DeviceAuthFlow.

Section Flow.
Variable env : Env.

(** The constructor argument [apiUrl]: [this.apiUrl = apiUrl ||
    process.env.CITIZENAUTH_URL || 'https://auth.ustun.tech']. *)
Definition make_apiUrl (apiUrl : option string) : string :=
  match apiUrl with
  | Some u => if u =? "" then env_or (env_CITIZENAUTH_URL env) "https://auth.ustun.tech" else u
  | None => env_or (env_CITIZENAUTH_URL env) "https://auth.ustun.tech"
  end.

Variable apiUrl : string.

Definition json_headers : list (string * string) :=
  [("Content-Type", "application/json")].

Definition initRequest : Request :=
  {| method := "POST";
     url := apiUrl ++ "/api/v1/auth/device/init";
     headers := json_headers;
     body := JsonBody (VObj [("device_name", VStr "Claude Desktop MCP");
                             ("client_type", VStr "mcp_server")]) |}.

(** [fetch(url)] without an init object *)
Definition statusRequest (device_code : value) : Request :=
  {| method := "GET";
     url := apiUrl ++ "/api/v1/auth/device/status?device_code=" ++ toString device_code;
     headers := [];
     body := NoBody |}.

Definition tokenRequest (device_code : value) : Request :=
  {| method := "POST";
     url := apiUrl ++ "/api/v1/auth/device/token";
     headers := json_headers;
     body := JsonBody (VObj [("device_code", device_code)]) |}.

Definition maxAttempts : nat := 180.

(** [saveConfig]: the directory is made if missing, the file is written;
    either call may throw.  [writeFileSync] opens the file with flag [w],
    which truncates it: when the failure comes after the file was opened,
    what the file held is lost and what is left does not parse. *)
Definition saveConfig (config : value) : M World unit :=
  fun w =>
    if write_ok env (List.length (io w))
    then (Ok tt, set_configFile (FText (Some (jsonRoundTrip config)))
                   (add_io (IoWriteConfig config) w))
    else if write_truncates env (List.length (io w))
         then (Throw ErrIO, set_configFile (FText None)
                              (add_io (IoWriteConfig config) w))
         else (Throw ErrIO, add_io (IoWriteConfig config) w).

(** The [while (attempts < maxAttempts)] loop; the result is [attempts]
    when the loop is left, by [break] or by its condition.  [fuel] bounds
    the unfolding only: see [poll_fuel]. *)
Fixpoint poll (fuel : nat) (device_code interval : value) (attempts : nat)
  : M World nat :=
  match fuel with
  | O => ret attempts
  | S fuel' =>
      if (attempts <? maxAttempts)%nat then
        sleep interval ;;
        statusResponse <- fetch env (statusRequest device_code) ;;
        if negb (ok statusResponse)
        then throw (ErrMsg "Failed to check authorization status")
        else
          statusData <- json_of statusResponse ;;
          data <- lift (getProp statusData "data") ;;
          st <- lift (getProp data "status") ;;
          if is_str st "authorized" then
            log LogAuthorized ;;
            ret attempts                                     (* break *)
          else if is_str st "expired" then
            throw (ErrMsg "Authorization expired. Please try again.")
          else if is_str st "denied" then
            throw (ErrMsg "Authorization denied by user.")
          else
            poll fuel' device_code interval (S attempts)     (* attempts++ *)
      else ret attempts
  end.

Definition authenticate : M World value :=
  (* 1. Initialize device flow *)
  initResponse <- fetch env initRequest ;;
  if negb (ok initResponse)
  then throw (ErrMsg ("Device init failed: " ++ statusText initResponse))
  else
    initData <- json_of initResponse ;;
    d <- lift (getProp initData "data") ;;
    device_code <- lift (getProp d "device_code") ;;
    user_code <- lift (getProp d "user_code") ;;
    verification_url_complete <- lift (getProp d "verification_url_complete") ;;
    interval <- lift (getProp d "interval") ;;
    (* 2. Display authorization URL *)
    log LogAuthRequired ;;
    log (LogVisit verification_url_complete) ;;
    log (LogEnterCode user_code) ;;
    log LogWaiting ;;
    (* 3. Poll for authorization *)
    attempts <- poll maxAttempts device_code interval 0 ;;
    if (maxAttempts <=? attempts)%nat
    then throw (ErrMsg "Authorization timeout")
    else
      (* 4. Exchange device code for access token *)
      tokenResponse <- fetch env (tokenRequest device_code) ;;
      if negb (ok tokenResponse)
      then throw (ErrMsg ("Token exchange failed: " ++ statusText tokenResponse))
      else
        tokenData <- json_of tokenResponse ;;
        td <- lift (getProp tokenData "data") ;;
        access_token <- lift (getProp td "access_token") ;;
        token_type <- lift (getProp td "token_type") ;;
        t <- now env ;;
        expires_in <- lift (getProp td "expires_in") ;;
        user <- lift (getProp td "user") ;;
        organization <- lift (getProp td "organization") ;;
        let expires_at :=
          of_number (match toNumber (str2num env) expires_in with
                     | Some n => Some (t + n * 1000)%Z
                     | None => None
                     end) in
        let config :=
          VObj [("access_token", access_token);
                ("token_type", token_type);
                ("expires_at", expires_at);
                ("user", user);
                ("organization", organization)] in
        (* 5. Save to ~/.citizen/mcp-config.json *)
        saveConfig config ;;
        user_name <- lift (getProp user "name") ;;
        log (LogAuthenticatedAs user_name) ;;
        org_name <- lift (getProp organization "name") ;;
        org_role <- lift (getProp organization "role") ;;
        log (LogOrganization org_name org_role) ;;
        ret config.

(** [Date.now() > v] *)
Definition later_than (t : Z) (v : value) : bool :=
  match toNumber (str2num env) v with
  | Some n => (n <? t)%Z
  | None => false
  end.

(** [loadConfig]; [null] is [VNull]. *)
Definition loadConfig : M World value :=
  file <- gets configFile ;;
  match file with
  | FAbsent => ret VNull                      (* [!existsSync(configPath)] *)
  | _ =>
      try_catch
        (config <- lift (match file with
                         | FText (Some v) => Ok v
                         | FText None => Throw ErrSyntax     (* [JSON.parse] *)
                         | _ => Throw ErrIO                  (* [readFileSync] *)
                         end) ;;
         (* Check expiration *)
         t <- now env ;;
         expires_at <- lift (getProp config "expires_at") ;;
         if later_than t expires_at then
           log LogTokenExpired ;;
           ret VNull
         else ret config)
        (fun error =>
           log (LogLoadFailed error) ;;
           ret VNull)
  end.

Definition ensureAuthenticated : M World value :=
  config <- loadConfig ;;
  if negb (truthy config) then authenticate else ret config.
End Flow.

End DeviceAuthFlow.

(* ===================================================================== *)
(** ** [src/api/client.ts] *)
(* ===================================================================== *)

Module CitizenAPIClient.

Record Client : Type := {
  baseUrl : string;
  config : value;
  serverUrl : option string     (* [string | null] *)
}.

Section Client.
Variable env : Env.

(** [constructor(config, baseUrl?)] *)
Definition make (cfg : value) (base : option string) : Client :=
  {| baseUrl := match base with
                | Some u => if u =? "" then env_or (env_CITIZEN_API_URL env) "" else u
                | None => env_or (env_CITIZEN_API_URL env) ""
                end;
     config := cfg;
     serverUrl := None |}.

Definition setServerUrl (u : string) (c : Client) : Client :=
  {| baseUrl := baseUrl c; config := config c; serverUrl := Some u |}.

Definition getServerUrl (c : Client) : option string := serverUrl c.

Definition getCitizenBaseUrl (c : Client) : Outcome string :=
  match serverUrl c with
  | Some u =>
      if negb (u =? "") then Ok u
      else if negb (baseUrl c =? "") then Ok (baseUrl c)
      else Throw (ErrMsg "No Citizen server URL configured. Please run list_apps first to discover server.")
  | None =>
      if negb (baseUrl c =? "") then Ok (baseUrl c)
      else Throw (ErrMsg "No Citizen server URL configured. Please run list_apps first to discover server.")
  end.

Definition getHeaders (c : Client) : Outcome (list (string * string)) :=
  match getProp (config c) "access_token" with
  | Ok token => Ok [("Authorization", "Bearer " ++ toString token);
                    ("Content-Type", "application/json")]
  | Throw e => Throw e
  end.

(** The common tail of [get], [post] and [delete]. *)
Definition unwrap (response : Response) : M World value :=
  if negb (ok response) then
    throw (ErrMsg ("API request failed: " ++ string_of_Z (status response)
                     ++ " " ++ text response))
  else
    data <- json_of response ;;
    inner <- lift (getProp data "data") ;;
    ret (or_else inner data).          (* [data.data || data] *)

Definition get (c : Client) (path : string) : M World value :=
  base <- lift (getCitizenBaseUrl c) ;;
  hs <- lift (getHeaders c) ;;
  response <- fetch env {| method := "GET"; url := base ++ path;
                           headers := hs; body := NoBody |} ;;
  unwrap response.

Definition post (c : Client) (path : string) (payload : value) : M World value :=
  base <- lift (getCitizenBaseUrl c) ;;
  hs <- lift (getHeaders c) ;;
  response <- fetch env {| method := "POST"; url := base ++ path;
                           headers := hs; body := JsonBody payload |} ;;
  unwrap response.
(** [uploadFile]: multipart form data under the field name "file"; only
    the Authorization header is set by hand. *)
Definition uploadFile (c : Client) (path : string) (file : string) (filename : string)
  : M World value :=
  base <- lift (getCitizenBaseUrl c) ;;
  token <- lift (getProp (config c) "access_token") ;;
  response <- fetch env {| method := "POST"; url := base ++ path;
                           headers := [("Authorization", "Bearer " ++ toString token)];
                           body := FormBody file filename |} ;;
  if negb (ok response) then
    throw (ErrMsg ("File upload failed: " ++ string_of_Z (status response)
                     ++ " " ++ text response))
  else
    data <- json_of response ;;
    inner <- lift (getProp data "data") ;;
    ret (or_else inner data).

(** [delete]: the URL is built from [this.baseUrl], not from
    [getCitizenBaseUrl()]. *)
Definition delete (c : Client) (path : string) : M World value :=
  hs <- lift (getHeaders c) ;;
  response <- fetch env {| method := "DELETE"; url := baseUrl c ++ path;
                           headers := hs; body := NoBody |} ;;
  unwrap response.
End Client.

End CitizenAPIClient.

(* ===================================================================== *)
(** ** [src/types.ts] *)
(* ===================================================================== *)

Module Types.

(** [AppWithServer]: the object [handleListApps] stores per application.
    [server_url] is always the string [`https://${server.domain}`]; the
    other three fields hold whatever the remote payload held. *)
Record AppWithServer : Type := {
  app_name : value;
  status : value;
  server_url : string;
  server_slug : value
}.

End Types.

(* ===================================================================== *)
(** ** [src/index.ts]: class [CitizenMCPServer] *)
(* ===================================================================== *)

Module CitizenMCPServer.

(** The fields of the object, and the world it runs in. *)
Record Server : Type := {
  config : value;                              (* [DeviceAuthConfig | null] *)
  servers : value;                             (* [CitizenServer[]] *)
  appServerMap : Map Types.AppWithServer;      (* app_name -> server info *)
  runServerMap : Map string;                   (* run_id -> server_url *)
  world : World
}.

Definition set_config (c : value) (s : Server) : Server :=
  {| config := c; servers := servers s; appServerMap := appServerMap s;
     runServerMap := runServerMap s; world := world s |}.

Definition set_servers (v : value) (s : Server) : Server :=
  {| config := config s; servers := v; appServerMap := appServerMap s;
     runServerMap := runServerMap s; world := world s |}.

Definition set_appServerMap (m : Map Types.AppWithServer) (s : Server) : Server :=
  {| config := config s; servers := servers s; appServerMap := m;
     runServerMap := runServerMap s; world := world s |}.

Definition set_runServerMap (m : Map string) (s : Server) : Server :=
  {| config := config s; servers := servers s; appServerMap := appServerMap s;
     runServerMap := m; world := world s |}.

Definition set_world (w : World) (s : Server) : Server :=
  {| config := config s; servers := servers s; appServerMap := appServerMap s;
     runServerMap := runServerMap s; world := w |}.

(** A computation on the world, run by the server object. *)
Definition inW {A} (m : M World A) : M Server A :=
  fun s => let (r, w) := m (world s) in (r, set_world w s).

(** [allApps]: one element per server that answered. *)
Record AppGroup : Type := {
  serverSlug : value;
  serverUrl : string;
  apps : list value
}.

(** What the text of a tool result is rendered from.  The text itself is
    not built: the template literals that build it throw a TypeError on a
    value that cannot be printed, after everything else the handler did. *)
Inductive ToolText : Type :=
| TInstructions (text : string)
| TAuthenticated (user_name org_name org_role : value)
| TNotAuthenticated
| TAuthStatus (user_name org_name org_role expires_at : value) (t : Z)
| TNoServersInOrg
| TServers (count : value) (lines : list (value * value))
| TNoServers
| TNoApps
| TApps (totalApps : nat) (nservers : nat) (groups : list AppGroup)
| TAppInfo (appName slug info : value)
| TDeployStarted (slug run_id run_status git_url git_branch : value)
| TLocalDeployStarted (slug filename size run_id run_status : value)
| TRun (run_id app run_status source : value) (steps : option (list (value * value)))
| TNoRuns
| TRuns (appName : value) (runs : list value)
| TNoDomain (appName : value)          (* returned with [isError: true] *)
| TOpened (target : string).

(** What [handleToolCall] returns: a result, or the caught error as
    [`Error: ${error.message}`] with [isError: true]. *)
Inductive CallResult : Type :=
| Content (t : ToolText)
| ErrorContent (error : Error).

Fixpoint mapM {S A B} (f : A -> M S B) (l : list A) : M S (list B) :=
  match l with
  | [] => ret []
  | x :: rest =>
      y <- f x ;;
      ys <- mapM f rest ;;
      ret (y :: ys)
  end.

Section Handlers.
Variable env : Env.

(** [process.env.CITIZENAUTH_URL || 'https://ustun.tech'] *)
Definition citizenAuthUrl : string :=
  env_or (env_CITIZENAUTH_URL env) "https://ustun.tech".

(** [new DeviceAuthFlow(this.citizenAuthUrl)] *)
Definition authFlow_apiUrl : string :=
  DeviceAuthFlow.make_apiUrl env (Some citizenAuthUrl).

Definition instructionsPath : string := "../instructions.json".

Definition readFileSync (path : string) : M Server string :=
  inW (fun w =>
         match read env (List.length (io w)) path with
         | Some data => (Ok data, add_io (IoRead path) w)
         | None => (Throw ErrIO, add_io (IoRead path) w)
         end).

Definition createTarGz (directory : value) : M Server string :=
  inW (fun w =>
         match tar env (List.length (io w)) directory with
         | Some path => (Ok path, add_io (IoTar directory) w)
         | None => (Throw ErrIO, add_io (IoTar directory) w)
         end).

Definition unlinkSync (path : string) : M Server unit :=
  inW (fun w =>
         if unlink_ok env (List.length (io w))
         then (Ok tt, add_io (IoUnlink path) w)
         else (Throw ErrIO, add_io (IoUnlink path) w)).

(** [await open(url)] *)
Definition open (target : string) : M Server unit :=
  inW (fun w =>
         if open_ok env (List.length (io w))
         then (Ok tt, add_io (IoOpen target) w)
         else (Throw ErrIO, add_io (IoOpen target) w)).

(** [{ 'Authorization': `Bearer ${this.config!.access_token}` }] *)
Definition authorization : M Server (list (string * string)) :=
  cfg <- gets config ;;
  token <- lift (getProp cfg "access_token") ;;
  ret [("Authorization", "Bearer " ++ toString token)].

Definition GET (u : string) : M Server Response :=
  hs <- authorization ;;
  inW (fetch env {| method := "GET"; url := u; headers := hs; body := NoBody |}).

Definition POST_json (u : string) (payload : M Server value) : M Server Response :=
  hs <- authorization ;;
  p <- payload ;;
  inW (fetch env {| method := "POST"; url := u;
                    headers := (hs ++ [("Content-Type", "application/json")])%list;
                    body := JsonBody p |}).

(** [data.data || data] *)
Definition unwrapped (data : value) : Outcome value :=
  match getProp data "data" with
  | Ok inner => Ok (or_else inner data)
  | Throw e => Throw e
  end.

(** [`https://${server.domain}`] *)
Definition serverUrlOf (server : value) : Outcome string :=
  match getProp server "domain" with
  | Ok domain => Ok ("https://" ++ toString domain)
  | Throw e => Throw e
  end.

Definition ensureAuth : M Server unit :=
  cfg <- gets config ;;
  if negb (truthy cfg) then
    loaded <- inW (DeviceAuthFlow.loadConfig env) ;;
    modify (set_config loaded) ;;
    if negb (truthy loaded)
    then throw (ErrMsg ("Not authenticated. Please run the " ++ dquote ++ "authenticate"
                          ++ dquote ++ " tool first."))
    else ret tt
  else ret tt.

(** *** Server discovery *)

(** Fetch servers from CitizenAuth *)
Definition fetchServers : M Server value :=
  cfg <- gets config ;;
  organization <- lift (getProp cfg "organization") ;;
  orgId <- lift (getProp organization "id") ;;
  response <- GET (citizenAuthUrl ++ "/api/v1/servers?org_id=" ++ toString orgId) ;;
  if negb (ok response)
  then throw (ErrMsg ("Failed to fetch servers: " ++ string_of_Z (World.status response)))
  else
    data <- inW (json_of response) ;;
    inner <- lift (getProp data "data") ;;
    ret (or_else inner (VArr [])).              (* [data.data || []] *)

(** [this.servers.length === 0] *)
Definition servers_empty : M Server bool :=
  ss <- gets servers ;;
  len <- lift (getProp ss "length") ;;
  ret (is_num len 0).

Definition handleListServers : M Server ToolText :=
  found <- fetchServers ;;
  modify (set_servers found) ;;
  empty <- servers_empty ;;
  if empty then ret TNoServersInOrg
  else
    ss <- gets servers ;;
    items <- lift (array_items ss) ;;           (* [this.servers.map] *)
    lines <- mapM (fun s =>
                     slug <- lift (getProp s "slug") ;;
                     domain <- lift (getProp s "domain") ;;
                     ret (slug, domain)) items ;;
    len <- lift (getProp ss "length") ;;
    ret (TServers len lines).

(** *** Application listing *)

(** [typeof app === 'string' ? app : (app.app_name || app.name)] *)
Definition appNameOf (app : value) : Outcome value :=
  if typeof_string app then Ok app
  else
    match getProp app "app_name" with
    | Ok n => if truthy n then Ok n else getProp app "name"
    | Throw e => Throw e
    end.

(** The loop [for (const app of appsList)]: map each app to its server. *)
Fixpoint mapApps (server : value) (serverUrl : string) (appsList : list value)
  : M Server unit :=
  match appsList with
  | [] => ret tt
  | app :: rest =>
      appName <- lift (appNameOf app) ;;
      (if truthy appName then
         st <- lift (if typeof_object app then getProp app "status" else Ok VUndef) ;;
         slug <- lift (getProp server "slug") ;;
         m <- gets appServerMap ;;
         modify (set_appServerMap
                   (map_set appName
                      {| Types.app_name := appName;
                         Types.status := st;
                         Types.server_url := serverUrl;
                         Types.server_slug := slug |} m))
       else ret tt) ;;
      mapApps server serverUrl rest
  end.

(** [const apps = data.data || data || []; Array.isArray(apps) ? apps : []] *)
Definition appsListOf (data : value) : Outcome (list value) :=
  match getProp data "data" with
  | Ok inner =>
      match or_else (or_else inner data) (VArr []) with
      | VArr l => Ok l
      | _ => Ok []
      end
  | Throw e => Throw e
  end.

(** The body of the [try] of one server; the result is [allApps]. *)
Definition listServerApps (server : value) (serverUrl : string)
           (allApps : list AppGroup) : M Server (list AppGroup) :=
  response <- GET (serverUrl ++ "/api/v1/citizen/apps") ;;
  if ok response then
    data <- inW (json_of response) ;;
    appsList <- lift (appsListOf data) ;;
    mapApps server serverUrl appsList ;;
    slug <- lift (getProp server "slug") ;;
    names <- mapM (fun a => lift (appNameOf a)) appsList ;;
    ret (allApps ++ [{| serverSlug := slug; serverUrl := serverUrl; apps := names |}])%list
  else
    slug <- lift (getProp server "slug") ;;
    inW (log (LogAppsStatus slug (World.status response))) ;;
    ret allApps.

(** The loop [for (const server of this.servers)]. *)
Fixpoint listAllApps (items : list value) (allApps : list AppGroup)
  : M Server (list AppGroup) :=
  match items with
  | [] => ret allApps
  | server :: rest =>
      serverUrl <- lift (serverUrlOf server) ;;
      allApps' <- try_catch (listServerApps server serverUrl allApps)
                    (fun error =>
                       slug <- lift (getProp server "slug") ;;
                       inW (log (LogAppsError slug error)) ;;
                       ret allApps) ;;
      listAllApps rest allApps'
  end.

(** [allApps.reduce((sum, s) => sum + s.apps.length, 0)] *)
Definition totalOf (allApps : list AppGroup) : nat :=
  fold_left (fun sum s => sum + List.length (apps s)) allApps 0.

Definition handleListApps : M Server ToolText :=
  (* First, discover servers if not already done *)
  empty <- servers_empty ;;
  (if empty then
     found <- fetchServers ;;
     modify (set_servers found)
   else ret tt) ;;
  empty' <- servers_empty ;;
  if empty' then ret TNoServers
  else
    (* Clear previous app-server mapping *)
    modify (fun s => set_appServerMap (map_clear (appServerMap s)) s) ;;
    (* Fetch apps from each server *)
    ss <- gets servers ;;
    items <- lift (iterate ss) ;;
    allApps <- listAllApps items [] ;;
    let totalApps := totalOf allApps in
    if (totalApps =? 0)%nat then ret TNoApps
    else ret (TApps totalApps (List.length allApps) allApps).

(** Get server URL for an app (from cache or by refreshing) *)
Definition getServerUrlForApp (appName : value) : M Server string :=
  (* Check cache first *)
  m <- gets appServerMap ;;
  match map_get appName m with
  | Some appInfo => ret (Types.server_url appInfo)
  | None =>
      (* If not cached, refresh the app list *)
      handleListApps ;;
      m' <- gets appServerMap ;;
      match map_get appName m' with
      | Some appInfo => ret (Types.server_url appInfo)
      | None =>
          throw (ErrMsg ("App '" ++ toString appName
                           ++ "' not found. Use list_apps to see available apps."))
      end
  end.

(** [this.appServerMap.get(appName)] *)
Definition lookupApp (appName : value) : M Server (option Types.AppWithServer) :=
  m <- gets appServerMap ;;
  ret (map_get appName m).

(** [appServerInfo?.server_slug || 'unknown'] *)
Definition slug_or_unknown (appServerInfo : option Types.AppWithServer) : value :=
  match appServerInfo with
  | Some appInfo => or_else (Types.server_slug appInfo) (VStr "unknown")
  | None => VStr "unknown"
  end.

Definition handleGetAppInfo (appName : value) : M Server ToolText :=
  serverUrl <- getServerUrlForApp appName ;;
  response <- GET (serverUrl ++ "/api/v1/citizen/apps/" ++ toString appName) ;;
  if negb (ok response)
  then throw (ErrMsg ("Failed to get app info: " ++ string_of_Z (World.status response)))
  else
    data <- inW (json_of response) ;;
    info <- lift (unwrapped data) ;;
    appServerInfo <- lookupApp appName ;;
    ret (TAppInfo appName (slug_or_unknown appServerInfo) info).

(** *** Authentication *)

Definition handleAuthenticate : M Server ToolText :=
  cfg <- inW (DeviceAuthFlow.authenticate env authFlow_apiUrl) ;;
  modify (set_config cfg) ;;
  (* Clear cached server/app data on new authentication *)
  modify (set_servers (VArr [])) ;;
  modify (fun s => set_appServerMap (map_clear (appServerMap s)) s) ;;
  modify (fun s => set_runServerMap (map_clear (runServerMap s)) s) ;;
  user <- lift (getProp cfg "user") ;;
  user_name <- lift (getProp user "name") ;;
  organization <- lift (getProp cfg "organization") ;;
  org_name <- lift (getProp organization "name") ;;
  org_role <- lift (getProp organization "role") ;;
  ret (TAuthenticated user_name org_name org_role).

Definition handleCheckAuthStatus : M Server ToolText :=
  loaded <- inW (DeviceAuthFlow.loadConfig env) ;;
  modify (set_config loaded) ;;
  if negb (truthy loaded) then ret TNotAuthenticated
  else
    expires_at <- lift (getProp loaded "expires_at") ;;
    t <- inW (now env) ;;
    user <- lift (getProp loaded "user") ;;
    user_name <- lift (getProp user "name") ;;
    organization <- lift (getProp loaded "organization") ;;
    org_name <- lift (getProp organization "name") ;;
    org_role <- lift (getProp organization "role") ;;
    ret (TAuthStatus user_name org_name org_role expires_at t).

Definition handleGetInstructions : M Server ToolText :=
  instructions <- readFileSync instructionsPath ;;
  ret (TInstructions instructions).

(** *** Deployment *)

(** [if (result.run_id) this.runServerMap.set(result.run_id, serverUrl)] *)
Definition rememberRun (run_id : value) (serverUrl : string) : M Server unit :=
  if truthy run_id
  then modify (fun s => set_runServerMap (map_set run_id serverUrl (runServerMap s)) s)
  else ret tt.

Definition handleDeployFromGit (args : value) : M Server ToolText :=
  appName <- lift (getProp args "app_name") ;;
  serverUrl <- getServerUrlForApp appName ;;
  appServerInfo <- lookupApp appName ;;
  response <- POST_json (serverUrl ++ "/api/v1/citizen/apps/" ++ toString appName ++ "/deploy")
                (git_url <- lift (getProp args "git_url") ;;
                 git_branch <- lift (getProp args "git_branch") ;;
                 builder <- lift (getProp args "builder") ;;
                 ret (VObj [("git_url", git_url);
                            ("git_branch", or_else git_branch (VStr "main"));
                            ("builder", or_else builder (VStr "auto"))])) ;;
  if negb (ok response)
  then throw (ErrMsg ("Deployment failed: " ++ string_of_Z (World.status response)
                        ++ " " ++ text response))
  else
    data <- inW (json_of response) ;;
    result <- lift (unwrapped data) ;;
    (* Cache run_id -> server_url mapping for status tracking *)
    run_id <- lift (getProp result "run_id") ;;
    rememberRun run_id serverUrl ;;
    run_status <- lift (getProp result "status") ;;
    git_url <- lift (getProp args "git_url") ;;
    git_branch <- lift (getProp args "git_branch") ;;
    ret (TDeployStarted (slug_or_unknown appServerInfo) run_id run_status
           git_url (or_else git_branch (VStr "main"))).

Definition handleDeployFromLocal (args : value) : M Server ToolText :=
  appName <- lift (getProp args "app_name") ;;
  serverUrl <- getServerUrlForApp appName ;;
  appServerInfo <- lookupApp appName ;;
  (* 1. Create tar.gz *)
  directory_path <- lift (getProp args "directory_path") ;;
  tarPath <- createTarGz directory_path ;;
  try_finally
    ((* 2. Upload *)
     fileBuffer <- readFileSync tarPath ;;
     t <- inW (now env) ;;
     let filename := toString appName ++ "-" ++ string_of_Z t ++ ".tar.gz" in
     hs <- authorization ;;
     uploadResponse <-
       inW (fetch env {| method := "POST";
                         url := serverUrl ++ "/api/v1/citizen/apps/" ++ toString appName
                                  ++ "/upload";
                         headers := hs;
                         body := FormBody fileBuffer filename |}) ;;
     if negb (ok uploadResponse)
     then throw (ErrMsg ("Upload failed: " ++ string_of_Z (World.status uploadResponse)
                           ++ " " ++ text uploadResponse))
     else
       uploadData <- inW (json_of uploadResponse) ;;
       uploadResult <- lift (unwrapped uploadData) ;;
       (* 3. Deploy *)
       deployResponse <-
         POST_json (serverUrl ++ "/api/v1/citizen/apps/" ++ toString appName
                      ++ "/deploy-local")
           (uploaded <- lift (getProp uploadResult "filename") ;;
            builder <- lift (getProp args "builder") ;;
            ret (VObj [("filename", uploaded);
                       ("builder", or_else builder (VStr "auto"))])) ;;
       if negb (ok deployResponse)
       then throw (ErrMsg ("Deploy failed: " ++ string_of_Z (World.status deployResponse)
                             ++ " " ++ text deployResponse))
       else
         deployData <- inW (json_of deployResponse) ;;
         deployResult <- lift (unwrapped deployData) ;;
         (* Cache run_id -> server_url mapping for status tracking *)
         run_id <- lift (getProp deployResult "run_id") ;;
         rememberRun run_id serverUrl ;;
         uploaded <- lift (getProp uploadResult "filename") ;;
         size <- lift (getProp uploadResult "size") ;;
         run_status <- lift (getProp deployResult "status") ;;
         ret (TLocalDeployStarted (slug_or_unknown appServerInfo) uploaded size
                run_id run_status))
    ((* Clean up *)
     unlinkSync tarPath).

(** *** Deployment runs *)

Definition runUrl (serverUrl : string) (runId : value) : string :=
  serverUrl ++ "/api/v1/citizen/runs/" ++ toString runId.

(** The loop [for (const server of this.servers)] of [getServerUrlForRun];
    [Some url] is its [return serverUrl], [None] its end. *)
Fixpoint probeServers (runId : value) (items : list value) : M Server (option string) :=
  match items with
  | [] => ret None
  | server :: rest =>
      serverUrl <- lift (serverUrlOf server) ;;
      found <- try_catch
                 (response <- GET (runUrl serverUrl runId) ;;
                  if ok response then
                    (* Found it - cache and return *)
                    modify (fun s => set_runServerMap
                                       (map_set runId serverUrl (runServerMap s)) s) ;;
                    ret true
                  else ret false)
                 (fun _ => ret false         (* Continue to next server *)) ;;
      if found : bool then ret (Some serverUrl) else probeServers runId rest
  end.

(** Get server URL for a run_id (from cache or by trying all servers) *)
Definition getServerUrlForRun (runId : value) : M Server string :=
  (* Check cache first *)
  m <- gets runServerMap ;;
  match map_get runId m with
  | Some (String c rest) => ret (String c rest)       (* [if (cachedUrl)] *)
  | _ =>
      (* If not cached, try each server until we find the run *)
      empty <- servers_empty ;;
      (if empty then
         found <- fetchServers ;;
         modify (set_servers found)
       else ret tt) ;;
      ss <- gets servers ;;
      items <- lift (iterate ss) ;;
      hit <- probeServers runId items ;;
      match hit with
      | Some serverUrl => ret serverUrl
      | None =>
          throw (ErrMsg ("Deployment run '" ++ toString runId
                           ++ "' not found on any server."))
      end
  end.

(** [a || b || c || d] *)
Definition first_truthy (candidates : list value) (fallback : value) : value :=
  fold_right or_else fallback candidates.

Definition stepLine (step : value) : Outcome (value * value) :=
  match getProp step "step_name", getProp step "name", getProp step "StepName",
        getProp step "status", getProp step "Status" with
  | Ok a, Ok b, Ok c, Ok d, Ok e =>
      Ok (first_truthy [a; b; c] (VStr "unknown"), first_truthy [d; e] (VStr "pending"))
  | _, _, _, _, _ => Throw ErrType
  end.

Definition handleGetDeploymentStatus (runId : value) : M Server ToolText :=
  serverUrl <- getServerUrlForRun runId ;;
  response <- GET (runUrl serverUrl runId) ;;
  if negb (ok response)
  then throw (ErrMsg ("Failed to get deployment status: "
                        ++ string_of_Z (World.status response)))
  else
    data <- inW (json_of response) ;;
    run <- lift (unwrapped data) ;;
    inW (log (LogDebugRun run)) ;;
    (* Handle steps - API returns step_name, not name *)
    steps <- lift (getProp run "steps") ;;
    lines <- match steps with
             | VArr (s :: more) =>
                 ls <- mapM (fun step => lift (stepLine step)) (s :: more) ;;
                 ret (Some ls)
             | _ => ret None                   (* 'No steps available' *)
             end ;;
    (* Get git_url or source *)
    git_url <- lift (getProp run "git_url") ;;
    src <- lift (getProp run "source") ;;
    GitURL <- lift (getProp run "GitURL") ;;
    run_id <- lift (getProp run "run_id") ;;
    id <- lift (getProp run "id") ;;
    app <- lift (getProp run "app_name") ;;
    run_status <- lift (getProp run "status") ;;
    ret (TRun (or_else run_id id) app run_status
           (first_truthy [git_url; src; GitURL] (VStr "local upload")) lines).

(** The loop [for (const run of runs)]: cache run_ids for this app's server. *)
Fixpoint rememberRuns (runs : list value) (serverUrl : string) : M Server unit :=
  match runs with
  | [] => ret tt
  | run :: rest =>
      run_id <- lift (getProp run "run_id") ;;
      rememberRun run_id serverUrl ;;
      rememberRuns rest serverUrl
  end.

Definition handleListDeploymentRuns (appName : value) : M Server ToolText :=
  serverUrl <- getServerUrlForApp appName ;;
  response <- GET (serverUrl ++ "/api/v1/citizen/apps/" ++ toString appName ++ "/runs") ;;
  if negb (ok response)
  then throw (ErrMsg ("Failed to list deployment runs: "
                        ++ string_of_Z (World.status response)))
  else
    data <- inW (json_of response) ;;
    inner <- lift (getProp data "data") ;;
    let runs := or_else (or_else inner data) (VArr []) in
    items <- lift (iterate runs) ;;
    rememberRuns items serverUrl ;;
    len <- lift (getProp runs "length") ;;
    if is_num len 0 then ret TNoRuns
    else
      shown <- lift (array_items runs) ;;       (* [runs.map] *)
      ret (TRuns appName shown).

Definition handleOpenAppUrl (appName : value) : M Server ToolText :=
  serverUrl <- getServerUrlForApp appName ;;
  (* Get app info to find the URL *)
  response <- GET (serverUrl ++ "/api/v1/citizen/apps/" ++ toString appName) ;;
  if negb (ok response)
  then throw (ErrMsg ("Failed to get app info: " ++ string_of_Z (World.status response)))
  else
    data <- inW (json_of response) ;;
    info <- lift (unwrapped data) ;;
    (* Get the first domain *)
    ds <- lift (getProp info "domains") ;;
    let domains := or_else ds (VArr []) in
    len <- lift (getProp domains "length") ;;
    if is_num len 0 then ret (TNoDomain appName)
    else
      d <- lift (first_item domains) ;;
      let target := "https://" ++ toString d in
      (* Open in system browser (like device authentication) *)
      open target ;;
      ret (TOpened target).

(** *** The dispatcher *)

Definition dispatch (name : string) (args : value) : M Server ToolText :=
  if name =? "get_instructions" then handleGetInstructions
  else if name =? "authenticate" then handleAuthenticate
  else if name =? "check_auth_status" then handleCheckAuthStatus
  else if name =? "list_servers" then ensureAuth ;; handleListServers
  else if name =? "list_apps" then ensureAuth ;; handleListApps
  else if name =? "get_app_info" then
    ensureAuth ;; appName <- lift (getProp args "app_name") ;; handleGetAppInfo appName
  else if name =? "deploy_from_git" then ensureAuth ;; handleDeployFromGit args
  else if name =? "deploy_from_local" then ensureAuth ;; handleDeployFromLocal args
  else if name =? "get_deployment_status" then
    ensureAuth ;; runId <- lift (getProp args "run_id") ;; handleGetDeploymentStatus runId
  else if name =? "list_deployment_runs" then
    ensureAuth ;; appName <- lift (getProp args "app_name") ;; handleListDeploymentRuns appName
  else if name =? "open_app_url" then
    ensureAuth ;; appName <- lift (getProp args "app_name") ;; handleOpenAppUrl appName
  else throw (ErrMsg ("Unknown tool: " ++ name)).

Definition handleToolCall (name : string) (args : value) : M Server CallResult :=
  try_catch
    (t <- dispatch name args ;; ret (Content t))
    (fun error => ret (ErrorContent error)).

End Handlers.

End CitizenMCPServer.


(* ===================================================================== *)
(** * The specification's vocabulary *)
(* ===================================================================== *)

Import CitizenMCPServer.

Module Spec.

(** The state a status poll reports, when the response carries one. *)
Definition polled_status (r : Response) : option value :=
  match json r with
  | Some body =>
      match getProp body "data" with
      | Ok data =>
          match getProp data "status" with
          | Ok st => Some st
          | Throw _ => None
          end
      | Throw _ => None
      end
  | None => None
  end.

(** A 2xx poll response whose state is neither authorized, expired nor
    denied. *)
Definition non_terminal (r : Response) : bool :=
  ok r &&
  match polled_status r with
  | Some st => negb (is_str st "authorized") && negb (is_str st "expired")
               && negb (is_str st "denied")
  | None => false
  end.

(** The server set is empty: [servers.length === 0]. *)
Definition no_servers (v : value) : bool :=
  match getProp v "length" with
  | Ok len => is_num len 0
  | Throw _ => false
  end.

(** A server descriptor or an application entry that is an object or a
    primitive, not [null]: reading a property of it does not throw. *)
Definition readable (v : value) : bool :=
  match v with
  | VUndef | VNull => false
  | _ => true
  end.

(** A key that [Map.get] finds again: a primitive. *)
Definition primitive (v : value) : bool := sameValueZero v v.

(** A value that a template literal prints, and prints as [toString]
    does: a primitive, a number being an integer that a double holds
    exactly.  An object or an array that comes out of [JSON.parse] may carry
    a [toString] of its own that is not a function, and [`${v}`] or
    [v * 1000] then throws a TypeError; a larger number is printed with an
    exponent. *)
Definition printable (v : value) : bool :=
  match v with
  | VArr _ | VObj _ => false
  | VNum n => (Z.abs n <? 2 ^ 53)%Z
  | _ => true
  end.

(** [s] without the prefix [p]. *)
Fixpoint after (p s : string) : option string :=
  match p, s with
  | EmptyString, _ => Some s
  | String a p', String b s' => if Ascii.eqb a b then after p' s' else None
  | String _ _, EmptyString => None
  end.

Definition is_lower (c : ascii) : bool :=
  let n := nat_of_ascii c in (97 <=? n)%nat && (n <=? 122)%nat.

Definition is_digit (c : ascii) : bool :=
  let n := nat_of_ascii c in (48 <=? n)%nat && (n <=? 57)%nat.

(** A plain host name, up to the end of [s] or to its first slash: labels
    of lower-case letters and digits separated by single dots, none of them
    empty, the last one starting with a letter (so that the host is not
    read as a number).  [fresh] says that a label starts here, [named] that
    the label being read started with a letter. *)
Fixpoint plain_host (fresh named : bool) (s : string) : bool :=
  match s with
  | EmptyString => negb fresh && named
  | String c rest =>
      if Ascii.eqb c "/" then negb fresh && named
      else if Ascii.eqb c "." then negb fresh && plain_host true false rest
      else if is_lower c then plain_host false (if fresh then true else named) rest
      else if is_digit c then plain_host false (if fresh then false else named) rest
      else false
  end.

(** An absolute http(s) URL with a plain host name.  [fetch] parses its URL
    before it sends anything, and rejects one that is relative or whose
    host it cannot read; a URL of this shape is always accepted. *)
Definition http_url (u : string) : bool :=
  match after "https://" u, after "http://" u with
  | Some rest, _ | None, Some rest => plain_host true false rest
  | None, None => false
  end.

(** [v.k] of a readable value. *)
Definition prop (v : value) (k : string) : value :=
  match getProp v k with
  | Ok x => x
  | Throw _ => VUndef
  end.

(** A server descriptor whose URL [`https://${server.domain}`] can be
    built and requested: not [null], with a printable domain that is a
    plain host name. *)
Definition addressable (server : value) : bool :=
  readable server && printable (prop server "domain")
  && http_url ("https://" ++ toString (prop server "domain")).

(** A server descriptor that can also be named on the console and in a
    result: its slug is printable too. *)
Definition described (server : value) : bool :=
  addressable server && printable (prop server "slug").

(** The fields of the init payload that the device flow prints ([user_code],
    [verification_url_complete], [device_code] in the status URL) or
    multiplies ([interval * 1000]) are printable. *)
Definition init_printable (d : value) : bool :=
  printable (prop d "device_code") && printable (prop d "user_code")
  && printable (prop d "verification_url_complete") && printable (prop d "interval").

(** The fields of the token payload that the device flow multiplies
    ([expires_in * 1000]) or prints ([user.name], [organization.name],
    [organization.role]) are printable. *)
Definition token_printable (td : value) : bool :=
  printable (prop td "expires_in")
  && printable (prop (prop td "user") "name")
  && printable (prop (prop td "organization") "name")
  && printable (prop (prop td "organization") "role").

(** The base URL of a server descriptor. *)
Definition url_of (server : value) : string :=
  "https://" ++ toString (prop server "domain").

(** *** One refresh of the application list, server by server *)

(** The name an application entry is listed under: the entry itself when
    it is a string, else its [app_name], else its [name]. *)
Definition name_of (app : value) : value :=
  if typeof_string app then app
  else if truthy (prop app "app_name") then prop app "app_name"
       else prop app "name".

(** The map entry of a listed application; an entry without a name leaves
    none. *)
Definition entry_of (server : value) (app : value)
  : list (value * Types.AppWithServer) :=
  if truthy (name_of app)
  then [(name_of app,
         {| Types.app_name := name_of app;
            Types.status := if typeof_object app then prop app "status" else VUndef;
            Types.server_url := url_of server;
            Types.server_slug := prop server "slug" |})]
  else [].

(** Writing entries into a map, in order; a later entry replaces an
    earlier one of the same name. *)
Definition install (es : list (value * Types.AppWithServer))
           (m : Map Types.AppWithServer) : Map Types.AppWithServer :=
  fold_left (fun acc e => map_set (fst e) (snd e) acc) es m.

(** The app-listing request a server receives. *)
Definition appsRequest (token : value) (server : value) : Request :=
  {| method := "GET";
     url := url_of server ++ "/api/v1/citizen/apps";
     headers := [("Authorization", "Bearer " ++ toString token)];
     body := NoBody |}.

(** How the app-listing call to one server ends: a network error, a
    response that is not 2xx, or a 2xx response that lists applications. *)
Inductive Answer : Type :=
| Unreachable
| Refuses (code : Z)
| Lists (apps : list value).

Definition failed (a : Answer) : bool :=
  match a with
  | Lists _ => false
  | _ => true
  end.

(** The [n]-th call of the process is the app-listing call to [server] and
    ends as [a].  The server is one the code can address and name, and the
    names of the applications it lists are ones the result can print. *)
Definition answers (env : Env) (token : value) (n : nat) (server : value)
           (a : Answer) : Prop :=
  described server = true /\
  match a with
  | Unreachable => net env n (appsRequest token server) = None
  | Refuses code =>
      exists r, net env n (appsRequest token server) = Some r
                /\ ok r = false /\ World.status r = code
  | Lists apps =>
      exists r data, net env n (appsRequest token server) = Some r
                     /\ ok r = true /\ json r = Some data
                     /\ appsListOf data = Ok apps
                     /\ forallb readable apps = true
                     /\ forallb (fun app => printable (name_of app)) apps = true
  end.

(** The servers of [items] are called in order, from call [n] on, and
    answer as [plan] says. *)
Fixpoint follows (env : Env) (token : value) (n : nat) (items : list value)
         (plan : list Answer) : Prop :=
  match items, plan with
  | [], [] => True
  | server :: items', a :: plan' =>
      answers env token n server a /\ follows env token (S n) items' plan'
  | _, _ => False
  end.

(** What the servers that answered contribute: their groups, their map
    entries, the number of applications they list; and the line logged for
    each server that did not. *)
Fixpoint groups_of (items : list value) (plan : list Answer) : list AppGroup :=
  match items, plan with
  | server :: items', Lists apps :: plan' =>
      {| serverSlug := prop server "slug"; serverUrl := url_of server;
         apps := map name_of apps |} :: groups_of items' plan'
  | _ :: items', _ :: plan' => groups_of items' plan'
  | _, _ => []
  end.

Fixpoint entries_of (items : list value) (plan : list Answer)
  : list (value * Types.AppWithServer) :=
  match items, plan with
  | server :: items', Lists apps :: plan' =>
      (flat_map (entry_of server) apps ++ entries_of items' plan')%list
  | _ :: items', _ :: plan' => entries_of items' plan'
  | _, _ => []
  end.

Fixpoint listed_total (plan : list Answer) : nat :=
  match plan with
  | [] => 0
  | Lists apps :: plan' => List.length apps + listed_total plan'
  | _ :: plan' => listed_total plan'
  end.

Fixpoint logged (items : list value) (plan : list Answer) : list LogLine :=
  match items, plan with
  | server :: items', Unreachable :: plan' =>
      LogAppsError (prop server "slug") ErrNet :: logged items' plan'
  | server :: items', Refuses code :: plan' =>
      LogAppsStatus (prop server "slug") code :: logged items' plan'
  | _ :: items', Lists _ :: plan' => logged items' plan'
  | _, _ => []
  end.

Definition failures (plan : list Answer) : nat :=
  List.length (filter failed plan).

(** *** Resolving a run *)

(** The run-status request a server is probed with. *)
Definition runRequest (token runId : value) (server : value) : Request :=
  {| method := "GET";
     url := runUrl (url_of server) runId;
     headers := [("Authorization", "Bearer " ++ toString token)];
     body := NoBody |}.

(** The [n]-th call of the process is the probe of [server] and does not
    find the run: a network error, or a response that is not 2xx. *)
Definition misses (env : Env) (token runId : value) (n : nat) (server : value) : Prop :=
  addressable server = true /\
  (net env n (runRequest token runId server) = None
   \/ exists r, net env n (runRequest token runId server) = Some r /\ ok r = false).

(** The [n]-th call of the process is the probe of [server] and is
    answered 2xx. *)
Definition finds (env : Env) (token runId : value) (n : nat) (server : value) : Prop :=
  addressable server = true /\
  exists r, net env n (runRequest token runId server) = Some r /\ ok r = true.

(** Every server of [items], probed in order from call [n] on, misses. *)
Fixpoint all_miss (env : Env) (token runId : value) (n : nat) (items : list value)
  : Prop :=
  match items with
  | [] => True
  | server :: rest => misses env token runId n server /\ all_miss env token runId (S n) rest
  end.

(** The server set is made ready before a probe: kept as it is when it is
    not empty, fetched from the discovery endpoint when it is. *)
Inductive populated (env : Env) (s : Server) : Server -> Prop :=
| populated_known :
    no_servers (servers s) = false ->
    populated env s s
| populated_fetched (found : value) (s1 : Server) :
    no_servers (servers s) = true ->
    fetchServers env s = (Ok found, s1) ->
    populated env s (set_servers found s1).

Definition run_not_found (runId : value) : Error :=
  ErrMsg ("Deployment run '" ++ toString runId ++ "' not found on any server.").

(** *** The credential file *)

(** A value that [JSON.stringify] writes in full: no [undefined] and no
    [NaN] anywhere in it. *)
Fixpoint json_clean (v : value) : bool :=
  match v with
  | VUndef | VNaN => false
  | VArr l => forallb json_clean l
  | VObj fs =>
      (fix all (fs : list (string * value)) : bool :=
         match fs with
         | [] => true
         | (_, x) :: rest => json_clean x && all rest
         end) fs
  | _ => true
  end.

(** The bundle [authenticate] builds from the token response. *)
Definition bundle_of (access_token token_type : value) (expires_at : Z)
           (user organization : value) : value :=
  VObj [("access_token", access_token);
        ("token_type", token_type);
        ("expires_at", VNum expires_at);
        ("user", user);
        ("organization", organization)].

(** *** The dispatcher *)

(** The tools of the catalog ([getTools]), by name. *)
Definition tool_names : list string :=
  ["get_instructions"; "authenticate"; "check_auth_status"; "list_servers";
   "list_apps"; "get_app_info"; "deploy_from_git"; "deploy_from_local";
   "get_deployment_status"; "list_deployment_runs"; "open_app_url"].

(** The tools that the dispatcher runs behind [ensureAuth]. *)
Definition gated_tools : list string :=
  ["list_servers"; "list_apps"; "get_app_info"; "deploy_from_git";
   "deploy_from_local"; "get_deployment_status"; "list_deployment_runs";
   "open_app_url"].

Definition not_authenticated : Error :=
  ErrMsg ("Not authenticated. Please run the " ++ dquote ++ "authenticate"
            ++ dquote ++ " tool first.").

(** The discovery request of [fetchServers]. *)
Definition discoveryRequest (env : Env) (token orgId : value) : Request :=
  {| method := "GET";
     url := citizenAuthUrl env ++ "/api/v1/servers?org_id=" ++ toString orgId;
     headers := [("Authorization", "Bearer " ++ toString token)];
     body := NoBody |}.

(** The app-info request a server receives. *)
Definition appRequest (token appName : value) (serverUrl : string) : Request :=
  {| method := "GET";
     url := serverUrl ++ "/api/v1/citizen/apps/" ++ toString appName;
     headers := [("Authorization", "Bearer " ++ toString token)];
     body := NoBody |}.

(** The caches are the same. *)
Definition same_caches (s s' : Server) : Prop :=
  servers s' = servers s /\ appServerMap s' = appServerMap s
  /\ runServerMap s' = runServerMap s.

End Spec.

(* ===================================================================== *)
(** * Frames: what a computation leaves alone *)
(* ===================================================================== *)

Module Frame.

(** [keeps R m]: whatever [m] returns or throws, the state after it is
    related by [R] to the state before. *)
Definition keeps {A} (R : Server -> Server -> Prop) (m : M Server A) : Prop :=
  forall s, R s (snd (m s)).

(** The relations used as frames: preorders that do not look at the world. *)
Class FrameRel (R : Server -> Server -> Prop) : Prop := {
  frame_refl : forall s, R s s;
  frame_trans : forall s1 s2 s3, R s1 s2 -> R s2 s3 -> R s1 s3;
  frame_world : forall s w, R s (set_world w s)
}.

(** Frames that allow the session, the server set and the application map
    to change. *)
Class CacheFrame (R : Server -> Server -> Prop) : Prop := {
  cache_frame :: FrameRel R;
  frame_config : forall s c, R s (set_config c s);
  frame_servers : forall s v, R s (set_servers v s);
  frame_apps : forall s m, R s (set_appServerMap m s)
}.

(** Frames that also allow a run id to be stored. *)
Class RunFrame (R : Server -> Server -> Prop) : Prop := {
  run_frame :: CacheFrame R;
  frame_run_set :
    forall s k u, R s (set_runServerMap (map_set k u (runServerMap s)) s)
}.

(** Only the world changed. *)
Definition only_world (s s' : Server) : Prop :=
  config s' = config s /\ servers s' = servers s
  /\ appServerMap s' = appServerMap s /\ runServerMap s' = runServerMap s.

(** The run-to-server map is the same. *)
Definition same_runs (s s' : Server) : Prop := runServerMap s' = runServerMap s.

(** The two maps are the same. *)
Definition same_maps (s s' : Server) : Prop :=
  appServerMap s' = appServerMap s /\ runServerMap s' = runServerMap s.

(** Every run id of the map is still a run id of the map. *)
Definition keeps_runs (s s' : Server) : Prop :=
  forall (k : value) (u : string),
    map_get k (runServerMap s) = Some u ->
    exists u', map_get k (runServerMap s') = Some u'.

(** Every run id of the map with a usable URL still has that URL. *)
Definition keeps_urls (s s' : Server) : Prop :=
  forall (k : value) (u : string),
    map_get k (runServerMap s) = Some u -> u <> "" ->
    map_get k (runServerMap s') = Some u.

(** Every entry but that of [runId] is as it was, an absent one included. *)
Definition only_run (runId : value) (s s' : Server) : Prop :=
  forall k : value,
    sameValueZero runId k = false ->
    map_get k (runServerMap s') = map_get k (runServerMap s).

(** Relations that may look at the world: preorders. *)
Class StepRel (R : Server -> Server -> Prop) : Prop := {
  step_refl : forall s, R s s;
  step_trans : forall s1 s2 s3, R s1 s2 -> R s2 s3 -> R s1 s3
}.

(** No call was made. *)
Definition same_calls (s s' : Server) : Prop :=
  calls (world s') = calls (world s).

(** Nothing changed but the console and the log of effects. *)
Definition same_state (s s' : Server) : Prop :=
  config s' = config s /\ servers s' = servers s
  /\ appServerMap s' = appServerMap s /\ runServerMap s' = runServerMap s
  /\ calls (world s') = calls (world s)
  /\ configFile (world s') = configFile (world s).

(** Nothing was done to the file system, the clock or the browser. *)
Definition same_io (s s' : Server) : Prop := io (world s') = io (world s).

(** The session is the same, in memory and on disk. *)
Definition same_session (s s' : Server) : Prop :=
  config s' = config s /\ configFile (world s') = configFile (world s).

End Frame.

Module Count.

(** [adds k m]: [m] issues at most [k] network calls. *)
Definition adds {A} (k : nat) (m : M World A) : Prop :=
  forall w, (List.length (calls (snd (m w))) <= List.length (calls w) + k)%nat.

(** [quiet m]: [m] leaves the credential file as it is. *)
Definition quiet {A} (m : M World A) : Prop :=
  forall w, configFile (snd (m w)) = configFile w.

(** [spares m]: when [m] fails with anything but a TypeError or a failed
    file-system call, the credential file is as it was. *)
Definition spares {A} (m : M World A) : Prop :=
  forall w e, fst (m w) = Throw e -> e <> ErrType -> e <> ErrIO ->
              configFile (snd (m w)) = configFile w.

(** [only_type m]: the only thing [m] throws is a TypeError. *)
Definition only_type {A} (m : M World A) : Prop :=
  forall w e, fst (m w) = Throw e -> e = ErrType.

End Count.

(* ===================================================================== *)
(** * Example worlds *)
(* ===================================================================== *)

Module Examples.

(** A network, a clock that shows [t], a file system that works. *)
Definition env_at (t : Z) (network : nat -> Request -> option Response) : Env :=
  {| net := network;
     clock := fun _ => t;
     str2num := fun _ => None;
     env_CITIZENAUTH_URL := None;
     env_CITIZEN_API_URL := None;
     write_ok := fun _ => true;
     write_truncates := fun _ => false;
     tar := fun _ _ => Some "/tmp/deploy-0.tar.gz";
     read := fun _ _ => Some "bytes";
     unlink_ok := fun _ => true;
     open_ok := fun _ => true |}.

Definition offline : nat -> Request -> option Response := fun _ _ => None.

Definition respond (code : Z) (payload : value) : Response :=
  {| World.status := code; statusText := "";
     text := ""; json := Some payload |}.

(** A credential bundle that expires at [e]. *)
Definition bundle (e : Z) : value :=
  VObj [("access_token", VStr "tok");
        ("token_type", VStr "Bearer");
        ("expires_at", VNum e);
        ("user", VObj [("id", VStr "u1"); ("email", VStr "ada@example.com");
                       ("name", VStr "Ada")]);
        ("organization", VObj [("id", VStr "o1"); ("name", VStr "Org");
                               ("role", VStr "member")])].

Definition world_with (file : ConfigFile) : World :=
  {| calls := []; console := []; io := []; configFile := file |}.

Definition server_with (cfg servers : value) (appMap : Map Types.AppWithServer)
           (runMap : Map string) : Server :=
  {| config := cfg; servers := servers; appServerMap := appMap;
     runServerMap := runMap; world := world_with FAbsent |}.

Definition server_entry (slug domain : string) : value :=
  VObj [("id", VStr slug); ("slug", VStr slug); ("domain", VStr domain)].

Definition app_on (name slug domain : string) : value * Types.AppWithServer :=
  (VStr name,
   {| Types.app_name := VStr name; Types.status := VUndef;
      Types.server_url := "https://" ++ domain; Types.server_slug := VStr slug |}).

(** A client of the gateway pointed at one server. *)
Definition client : CitizenAPIClient.Client :=
  CitizenAPIClient.setServerUrl "https://s1.example.com"
    (CitizenAPIClient.make (env_at 0 offline) (bundle 1000) None).

(** A client with a base URL of its own, pointed at one server. *)
Definition based_client : CitizenAPIClient.Client :=
  CitizenAPIClient.setServerUrl "https://s1.example.com"
    (CitizenAPIClient.make (env_at 0 offline) (bundle 1000)
       (Some "https://old.example.com")).

(** The identity provider during a device flow that starts at call 0: the
    init call, then status polls that report [state] until poll number
    [authorized_at] reports authorized, then the token exchange. *)
Definition init_payload : value :=
  VObj [("data", VObj [("device_code", VStr "dc-1");
                       ("user_code", VStr "ABCD");
                       ("verification_url_complete",
                        VStr "https://ustun.tech/device?code=ABCD");
                       ("interval", VNum 5)])].

Definition status_payload (state : string) : value :=
  VObj [("data", VObj [("status", VStr state)])].

Definition token_payload : value :=
  VObj [("data", VObj [("access_token", VStr "tok");
                       ("token_type", VStr "Bearer");
                       ("expires_in", VNum 3600);
                       ("user", VObj [("id", VStr "u1"); ("name", VStr "Ada")]);
                       ("organization", VObj [("id", VStr "o1"); ("name", VStr "Org");
                                              ("role", VStr "member")])])].

Definition provider (state : string) (authorized_at : nat)
  : nat -> Request -> option Response :=
  fun n _ =>
    match n with
    | O => Some (respond 200 init_payload)
    | S k =>
        if (k <? authorized_at)%nat then Some (respond 200 (status_payload state))
        else if (k =? authorized_at)%nat then Some (respond 200 (status_payload "authorized"))
        else Some (respond 200 token_payload)
    end.

(** A provider whose user never answers: every poll reports pending. *)
Definition never_answered : nat -> Request -> option Response :=
  fun n _ =>
    match n with
    | O => Some (respond 200 init_payload)
    | S _ => Some (respond 200 (status_payload "pending"))
    end.

(** A server object with a session, two known servers, one cached
    application and one cached run. *)
Definition busy_server : Server :=
  server_with (bundle 1000)
    (VArr [server_entry "s1" "s1.example.com"; server_entry "s2" "s2.example.com"])
    [app_on "blog" "s1" "s1.example.com"]
    [(VStr "r1", "https://s1.example.com")].

(** A 2xx app listing. *)
Definition listing (apps : list value) : Response :=
  respond 200 (VObj [("data", VArr apps)]).

Definition three_servers : list value :=
  [server_entry "s1" "s1.example.com";
   server_entry "s2" "s2.example.com";
   server_entry "s3" "s3.example.com"].

(** The second of three servers is down. *)
Definition second_down : nat -> Request -> option Response :=
  fun n _ =>
    match n with
    | 0%nat => Some (listing [VStr "blog";
                              VObj [("app_name", VStr "api"); ("status", VStr "running")]])
    | 1%nat => Some (respond 500 VNull)
    | _ => Some (listing [VObj [("name", VStr "web")]])
    end.

Definition second_down_plan : list Spec.Answer :=
  [Spec.Lists [VStr "blog"; VObj [("app_name", VStr "api"); ("status", VStr "running")]];
   Spec.Refuses 500;
   Spec.Lists [VObj [("name", VStr "web")]]].

Definition stale_server : Server :=
  server_with (bundle 1000) (VArr three_servers)
    [app_on "old" "s3" "s3.example.com"] [].

(** One server that lists blog, then shop. *)
Definition blog_then_shop : nat -> Request -> option Response :=
  fun n _ =>
    match n with
    | 0%nat => Some (listing [VStr "blog"])
    | _ => Some (listing [VStr "shop"])
    end.

Definition fresh_server : Server :=
  server_with (bundle 1000) (VArr [server_entry "s1" "s1.example.com"]) [] [].

(** Of three servers only the second knows the run. *)
Definition second_knows : nat -> Request -> option Response :=
  fun n _ =>
    match n with
    | 0%nat => Some (respond 404 VNull)
    | 1%nat => Some (respond 200 (VObj [("data", VObj [("run_id", VStr "r7")])]))
    | _ => None
    end.

Definition idle_server : Server :=
  server_with (bundle 1000) (VArr three_servers) [] [].

(** The application blog lives on s2; the run r1 was recorded on s1. *)
Definition moved_server : Server :=
  server_with (bundle 1000)
    (VArr [server_entry "s1" "s1.example.com"; server_entry "s2" "s2.example.com"])
    [app_on "blog" "s2" "s2.example.com"]
    [(VStr "r1", "https://s1.example.com")].

(** A deployment that the server files under the run id r1. *)
Definition deploy_as_r1 : nat -> Request -> option Response :=
  fun _ _ =>
    Some (respond 200 (VObj [("data", VObj [("run_id", VStr "r1");
                                            ("status", VStr "queued")])])).

Definition deploy_blog : value :=
  VObj [("app_name", VStr "blog");
        ("git_url", VStr "https://github.com/user/repo.git")].

(** No bundle in memory, an expired one on disk (it expires at 1000). *)
Definition signed_out_server : Server :=
  set_world (world_with (FText (Some (bundle 1000))))
    (server_with VNull (VArr [server_entry "s1" "s1.example.com"])
       [app_on "blog" "s1" "s1.example.com"] []).

(** A deployment of the directory /src/blog. *)
Definition deploy_local_blog : value :=
  VObj [("app_name", VStr "blog"); ("directory_path", VStr "/src/blog")].

(** A server that reports the run r1 with two steps, the second of which
    has neither a status nor a source. *)
Definition run_report : nat -> Request -> option Response :=
  fun _ _ =>
    Some (respond 200
            (VObj [("data",
                    VObj [("run_id", VStr "r1"); ("app_name", VStr "blog");
                          ("status", VStr "running");
                          ("steps", VArr [VObj [("step_name", VStr "build");
                                                ("status", VStr "done")];
                                          VObj [("name", VStr "release")]])])])).

(** A server that lists two runs. *)
Definition listed_runs : list value :=
  [VObj [("run_id", VStr "r7"); ("status", VStr "done")];
   VObj [("run_id", VStr "r8"); ("status", VStr "queued")]].

Definition two_runs : nat -> Request -> option Response :=
  fun _ _ => Some (respond 200 (VObj [("data", VArr listed_runs)])).

(** Every server lists the application blog. *)
Definition all_list_blog : nat -> Request -> option Response :=
  fun _ _ => Some (listing [VStr "blog"]).

End Examples.
(* ===================================================================== *)
(** * Properties *)
(* ===================================================================== *)

Unset Implicit Arguments.

(** Unfold the monad at the head of a goal. *)
Ltac monad :=
  unfold bind, ret, gets, modify, lift, throw, try_catch, inW, json_of, log in *;
  simpl in *.

(** ** The credential store *)

Section LoadConfig.
Variable env : Env.

(** With a readable bundle whose expiry is a number, [loadConfig] tests
    [Date.now() > expires_at] and nothing else. *)
Lemma loadConfig_bundle (w : World) (cfg : value) (e : Z) :
  configFile w = FText (Some cfg) ->
  getProp cfg "expires_at" = Ok (VNum e) ->
  fst (DeviceAuthFlow.loadConfig env w)
  = Ok (if (e <? clock env (List.length (io w)))%Z then VNull else cfg).
Proof.
  intros Hfile Hexp.
  unfold DeviceAuthFlow.loadConfig, now. monad.
  rewrite Hfile. simpl. rewrite Hexp. simpl.
  unfold DeviceAuthFlow.later_than. simpl.
  destruct (e <? _)%Z; reflexivity.
Qed.
End LoadConfig.

(** C6, as the code has it: a readable bundle is returned when the clock at
    load is not later than its expiry instant ([now <= expires_at]), and is
    treated as absent ([null]) when the expiry instant is strictly in the
    past ([now > expires_at]). *)
Theorem C6_loadConfig_expiry (env : Env) (w : World) (cfg : value) (e : Z) :
  configFile w = FText (Some cfg) ->
  getProp cfg "expires_at" = Ok (VNum e) ->
  ((clock env (List.length (io w)) <= e)%Z ->
     fst (DeviceAuthFlow.loadConfig env w) = Ok cfg)
  /\ ((e < clock env (List.length (io w)))%Z ->
     fst (DeviceAuthFlow.loadConfig env w) = Ok VNull).
Proof.
  intros Hfile Hexp.
  rewrite (loadConfig_bundle env w cfg e Hfile Hexp).
  split; intros Ht.
  - destruct (Z.ltb_spec e (clock env (List.length (io w)))); [lia | reflexivity].
  - destruct (Z.ltb_spec e (clock env (List.length (io w)))); [reflexivity | lia].
Qed.

Lemma C6_loadConfig_expiry_witness :
  fst (DeviceAuthFlow.loadConfig (Examples.env_at 999 Examples.offline)
         (Examples.world_with (FText (Some (Examples.bundle 1000)))))
  = Ok (Examples.bundle 1000)
  /\ fst (DeviceAuthFlow.loadConfig (Examples.env_at 1001 Examples.offline)
         (Examples.world_with (FText (Some (Examples.bundle 1000)))))
  = Ok VNull.
Proof.
  split.
  - apply (C6_loadConfig_expiry (Examples.env_at 999 Examples.offline)
             (Examples.world_with (FText (Some (Examples.bundle 1000))))
             (Examples.bundle 1000) 1000%Z); simpl; [reflexivity | reflexivity | lia].
  - apply (C6_loadConfig_expiry (Examples.env_at 1001 Examples.offline)
             (Examples.world_with (FText (Some (Examples.bundle 1000))))
             (Examples.bundle 1000) 1000%Z); simpl; [reflexivity | reflexivity | lia].
Defined.

(** C6 as stated fails at the expiry instant itself: the clock shows 1000,
    the bundle expires at 1000, the time is not strictly less than the
    expiry, and the bundle is returned. *)
Lemma C6_counterexample :
  let env := Examples.env_at 1000 Examples.offline in
  let w := Examples.world_with (FText (Some (Examples.bundle 1000))) in
  getProp (Examples.bundle 1000) "expires_at" = Ok (VNum 1000)
  /\ ~ (clock env (List.length (io w)) < 1000)%Z
  /\ fst (DeviceAuthFlow.loadConfig env w) = Ok (Examples.bundle 1000).
Proof.
  simpl. split; [reflexivity | split; [lia | reflexivity]].
Qed.

(** ** The API gateway *)

(** What [get] and [post] do with the answer to their one request. *)
Lemma unwrap_ok (r : Response) (b d : value) (w : World) :
  ok r = true ->
  json r = Some b ->
  getProp b "data" = Ok d ->
  CitizenAPIClient.unwrap r w = (Ok (if truthy d then d else b), w).
Proof.
  intros Hok Hjson Hdata.
  unfold CitizenAPIClient.unwrap. rewrite Hok. monad.
  rewrite Hjson, Hdata. reflexivity.
Qed.

(** C8, as the code has it: on a 2xx response with JSON body [b], [get] and
    [post] return [b.data] when that value is truthy, and the raw body [b]
    otherwise, that is when [b] has no [data] field or holds a falsy one
    ([null], [false], [0], the empty string). *)
Theorem C8_gateway_unwraps (env : Env) (c : CitizenAPIClient.Client)
        (path base : string) (hs : list (string * string))
        (payload : value) (w : World) (r : Response) (b d : value) :
  CitizenAPIClient.getCitizenBaseUrl c = Ok base ->
  CitizenAPIClient.getHeaders c = Ok hs ->
  (forall req, net env (List.length (calls w)) req = Some r) ->
  ok r = true ->
  json r = Some b ->
  getProp b "data" = Ok d ->
  fst (CitizenAPIClient.get env c path w) = Ok (if truthy d then d else b)
  /\ fst (CitizenAPIClient.post env c path payload w) = Ok (if truthy d then d else b).
Proof.
  intros Hbase Hhs Hnet Hok Hjson Hdata.
  unfold CitizenAPIClient.get, CitizenAPIClient.post, fetch.
  monad. rewrite Hbase, Hhs. simpl.
  rewrite !Hnet.
  split; rewrite (unwrap_ok r b d _ Hok Hjson Hdata); reflexivity.
Qed.

Lemma C8_gateway_unwraps_witness :
  let env := Examples.env_at 0
               (fun _ _ => Some (Examples.respond 200
                                   (VObj [("data", VArr [VStr "blog"])]))) in
  fst (CitizenAPIClient.get env Examples.client "/apps" (Examples.world_with FAbsent))
  = Ok (VArr [VStr "blog"])
  /\ fst (CitizenAPIClient.post env Examples.client "/apps" VNull
            (Examples.world_with FAbsent))
  = Ok (VArr [VStr "blog"]).
Proof.
  exact (C8_gateway_unwraps
           (Examples.env_at 0
              (fun _ _ => Some (Examples.respond 200
                                  (VObj [("data", VArr [VStr "blog"])]))))
           Examples.client "/apps" "https://s1.example.com"
           [("Authorization", "Bearer tok"); ("Content-Type", "application/json")]
           VNull (Examples.world_with FAbsent)
           (Examples.respond 200 (VObj [("data", VArr [VStr "blog"])]))
           (VObj [("data", VArr [VStr "blog"])]) (VArr [VStr "blog"])
           eq_refl eq_refl (fun _ => eq_refl) eq_refl eq_refl eq_refl).
Defined.

(** C8 as stated fails on a body whose [data] field is falsy: the body
    [{ data: 0 }] has a [data] field, and [get] and [post] return the whole
    body, not the field's value [0]. *)
Lemma C8_counterexample :
  let body := VObj [("data", VNum 0)] in
  let env := Examples.env_at 0 (fun _ _ => Some (Examples.respond 200 body)) in
  ok (Examples.respond 200 body) = true
  /\ field "data" [("data", VNum 0)] = Some (VNum 0)
  /\ fst (CitizenAPIClient.get env Examples.client "/apps" (Examples.world_with FAbsent))
     = Ok body
  /\ fst (CitizenAPIClient.post env Examples.client "/apps" VNull
            (Examples.world_with FAbsent))
     = Ok body
  /\ Ok body <> Ok (VNum 0).
Proof.
  simpl. repeat split; try reflexivity. discriminate.
Qed.

(** ** The routing cache *)

(** C1: an application name found in the app-to-server map is answered
    from the map: the cached URL is returned and the state (the three cached
    structures, the list of network calls, the console, the files) is the
    state before. *)
Theorem C1_cache_hit_pure (env : Env) (appName : value) (s : Server)
        (appInfo : Types.AppWithServer) :
  map_get appName (appServerMap s) = Some appInfo ->
  getServerUrlForApp env appName s = (Ok (Types.server_url appInfo), s).
Proof.
  intros Hhit. unfold getServerUrlForApp. monad. rewrite Hhit. reflexivity.
Qed.

Lemma C1_cache_hit_pure_witness :
  let s := Examples.server_with (Examples.bundle 1000)
             (VArr [Examples.server_entry "s1" "s1.example.com"])
             [Examples.app_on "blog" "s1" "s1.example.com"] [] in
  getServerUrlForApp (Examples.env_at 0 Examples.offline) (VStr "blog") s
  = (Ok "https://s1.example.com", s).
Proof.
  exact (C1_cache_hit_pure (Examples.env_at 0 Examples.offline) (VStr "blog")
           (Examples.server_with (Examples.bundle 1000)
              (VArr [Examples.server_entry "s1" "s1.example.com"])
              [Examples.app_on "blog" "s1" "s1.example.com"] [])
           (snd (Examples.app_on "blog" "s1" "s1.example.com"))
           eq_refl).
Defined.

(** ** Frame rules *)

Import Frame.

#[export] Instance only_world_frame : FrameRel only_world.
Proof.
  split; unfold only_world.
  - intros; repeat split.
  - intros s1 s2 s3 (A1 & A2 & A3 & A4) (B1 & B2 & B3 & B4).
    repeat split; congruence.
  - intros; repeat split.
Qed.

#[export] Instance same_runs_frame : FrameRel same_runs.
Proof.
  split; unfold same_runs; intros; simpl; congruence.
Qed.

#[export] Instance same_maps_frame : FrameRel same_maps.
Proof.
  split; unfold same_maps.
  - intros; split; reflexivity.
  - intros s1 s2 s3 [A1 A2] [B1 B2]; split; congruence.
  - intros; split; reflexivity.
Qed.

#[export] Instance keeps_runs_frame : FrameRel keeps_runs.
Proof.
  split; unfold keeps_runs.
  - intros s k u H; eauto.
  - intros s1 s2 s3 H12 H23 k u H.
    destruct (H12 k u H) as [u' H']. eauto.
  - intros s w k u H; simpl; eauto.
Qed.

#[export] Instance keeps_urls_frame : FrameRel keeps_urls.
Proof.
  split; unfold keeps_urls.
  - intros s k u H; eauto.
  - intros s1 s2 s3 H12 H23 k u H Hu. eauto.
  - intros s w k u H; simpl; eauto.
Qed.

Section FrameRules.
Context {R : Server -> Server -> Prop} {HR : FrameRel R}.

Lemma keeps_ret {A} (a : A) : keeps R (ret a).
Proof. intros s; apply frame_refl. Qed.

Lemma keeps_throw {A} (e : Error) : keeps R (throw (A := A) e).
Proof. intros s; apply frame_refl. Qed.

Lemma keeps_lift {A} (o : Outcome A) : keeps R (lift o).
Proof. intros s; apply frame_refl. Qed.

Lemma keeps_gets {A} (f : Server -> A) : keeps R (gets f).
Proof. intros s; apply frame_refl. Qed.

Lemma keeps_inW {A} (m : M World A) : keeps R (inW m).
Proof.
  intros s. unfold inW. destruct (m (world s)) as [r w]. apply frame_world.
Qed.

Lemma keeps_modify (f : Server -> Server) :
  (forall s, R s (f s)) -> keeps R (modify f).
Proof. intros H s; apply H. Qed.

Lemma keeps_bind {A B} (m : M Server A) (k : A -> M Server B) :
  keeps R m -> (forall a, keeps R (k a)) -> keeps R (bind m k).
Proof.
  intros Hm Hk s. unfold bind. specialize (Hm s).
  destruct (m s) as [[a | e] s1]; simpl in *.
  - eapply frame_trans; [exact Hm | apply Hk].
  - exact Hm.
Qed.

Lemma keeps_try_catch {A} (m : M Server A) (h : Error -> M Server A) :
  keeps R m -> (forall e, keeps R (h e)) -> keeps R (try_catch m h).
Proof.
  intros Hm Hh s. unfold try_catch. specialize (Hm s).
  destruct (m s) as [[a | e] s1]; simpl in *.
  - exact Hm.
  - eapply frame_trans; [exact Hm | apply Hh].
Qed.

Lemma keeps_try_finally {A} (m : M Server A) (f : M Server unit) :
  keeps R m -> keeps R f -> keeps R (try_finally m f).
Proof.
  intros Hm Hf s. unfold try_finally. specialize (Hm s).
  destruct (m s) as [[a | e] s1]; simpl in *; specialize (Hf s1);
    destruct (f s1) as [[u | e'] s2]; simpl in *;
    eapply frame_trans; eauto.
Qed.

Lemma keeps_mapM {A B} (f : A -> M Server B) (l : list A) :
  (forall a, keeps R (f a)) -> keeps R (mapM f l).
Proof.
  intros Hf. induction l as [| a l IH]; simpl.
  - apply keeps_ret.
  - apply keeps_bind; [apply Hf |]. intros b.
    apply keeps_bind; [exact IH |]. intros bs. apply keeps_ret.
Qed.
End FrameRules.

(** One step of a frame proof: follow the shape of the computation. *)
Ltac frame_step :=
  lazymatch goal with
  | |- keeps _ (bind _ _) => apply keeps_bind; [ | intros ? ]
  | |- keeps _ (ret _) => apply keeps_ret
  | |- keeps _ (throw _) => apply keeps_throw
  | |- keeps _ (lift _) => apply keeps_lift
  | |- keeps _ (gets _) => apply keeps_gets
  | |- keeps _ (inW _) => apply keeps_inW
  | |- keeps _ (try_catch _ _) => apply keeps_try_catch; [ | intros ? ]
  | |- keeps _ (try_finally _ _) => apply keeps_try_finally
  | |- keeps _ (mapM _ _) => apply keeps_mapM; intros ?
  | |- keeps _ (if ?b then _ else _) => destruct b
  | |- keeps _ (match ?x with _ => _ end) => destruct x
  end.

Ltac frame := repeat frame_step.

Section ServerFrames.
Variable env : Env.
Context {R : Server -> Server -> Prop} {HR : FrameRel R}.

Lemma keeps_authorization : keeps R authorization.
Proof. unfold authorization. frame. Qed.

Lemma keeps_GET (u : string) : keeps R (GET env u).
Proof. unfold GET. frame. apply keeps_authorization. Qed.

Lemma keeps_POST_json (u : string) (payload : M Server value) :
  keeps R payload -> keeps R (POST_json env u payload).
Proof. intros Hp. unfold POST_json. frame; auto. apply keeps_authorization. Qed.

Lemma keeps_fetchServers : keeps R (fetchServers env).
Proof. unfold fetchServers. frame. apply keeps_GET. Qed.

Lemma keeps_servers_empty : keeps R servers_empty.
Proof. unfold servers_empty. frame. Qed.
End ServerFrames.

(** ** Refreshing the application list *)

Lemma servers_empty_run (s : Server) (b : bool) :
  getProp (servers s) "length" <> Throw ErrType ->
  Spec.no_servers (servers s) = b ->
  servers_empty s = (Ok b, s).
Proof.
  unfold Spec.no_servers, servers_empty. monad.
  destruct (getProp (servers s) "length") as [len | e] eqn:Hlen.
  - intros _ <-. reflexivity.
  - intros Hne. destruct (servers s); simpl in Hlen; try discriminate;
      inversion Hlen; subst; contradiction.
Qed.

Lemma no_servers_readable (v : value) :
  Spec.no_servers v = true -> getProp v "length" <> Throw ErrType.
Proof.
  unfold Spec.no_servers. destruct (getProp v "length"); [discriminate | discriminate].
Qed.

(** C10: with an empty server set and a discovery call that finds no
    server, [handleListApps] returns its no-servers message before it clears
    anything: the app-to-server map and the run-to-server map are the ones
    before, only the server set (still empty) and the world were touched. *)
Theorem C10_no_servers_keeps_apps (env : Env) (s s1 : Server) (found : value) :
  Spec.no_servers (servers s) = true ->
  fetchServers env s = (Ok found, s1) ->
  Spec.no_servers found = true ->
  handleListApps env s = (Ok TNoServers, set_servers found s1)
  /\ appServerMap (set_servers found s1) = appServerMap s
  /\ runServerMap (set_servers found s1) = runServerMap s.
Proof.
  intros Hempty Hfetch Hfound.
  pose proof (keeps_fetchServers env (R := only_world) s) as Hframe.
  rewrite Hfetch in Hframe. simpl in Hframe.
  destruct Hframe as (_ & _ & Happs & Hruns).
  split; [| split; simpl; assumption].
  unfold handleListApps.
  unfold bind at 1.
  rewrite (servers_empty_run s true (no_servers_readable _ Hempty) Hempty).
  unfold bind at 1. unfold bind at 1. rewrite Hfetch.
  unfold modify at 1.
  unfold bind at 1.
  rewrite (servers_empty_run (set_servers found s1) true); simpl; auto.
  apply no_servers_readable; assumption.
Qed.

Lemma C10_no_servers_keeps_apps_witness :
  let env := Examples.env_at 0
               (fun _ _ => Some (Examples.respond 200 (VObj [("data", VArr [])]))) in
  let s := Examples.server_with (Examples.bundle 1000) (VArr [])
             [Examples.app_on "blog" "s1" "s1.example.com"] [] in
  handleListApps env s
  = (Ok TNoServers, set_servers (VArr []) (snd (fetchServers env s)))
  /\ appServerMap (set_servers (VArr []) (snd (fetchServers env s)))
     = [Examples.app_on "blog" "s1" "s1.example.com"]
  /\ runServerMap (set_servers (VArr []) (snd (fetchServers env s))) = [].
Proof.
  exact (C10_no_servers_keeps_apps
           (Examples.env_at 0
              (fun _ _ => Some (Examples.respond 200 (VObj [("data", VArr [])]))))
           (Examples.server_with (Examples.bundle 1000) (VArr [])
              [Examples.app_on "blog" "s1" "s1.example.com"] [])
           _ (VArr [])
           eq_refl eq_refl eq_refl).
Defined.

(** Over a non-empty server set the refresh starts from a cleared map:
    what the map held before has no part in what it holds after. *)
Lemma refresh_ignores_old_map (env : Env) (s : Server) (x : value) (xs : list value) :
  servers s = VArr (x :: xs) ->
  handleListApps env s = handleListApps env (set_appServerMap [] s).
Proof.
  intros Hss.
  assert (He : forall m, servers_empty (set_appServerMap m s)
                         = (Ok false, set_appServerMap m s)).
  { intros m. apply servers_empty_run; simpl; rewrite Hss; simpl;
      [discriminate | reflexivity]. }
  assert (He0 : servers_empty s = (Ok false, s)).
  { apply servers_empty_run; rewrite Hss; simpl; [discriminate | reflexivity]. }
  unfold handleListApps.
  unfold bind at 1. rewrite He0.
  unfold bind at 1. unfold bind at 1. unfold ret at 1.
  unfold bind at 1. rewrite He0.
  symmetry.
  unfold bind at 1. rewrite He.
  unfold bind at 1. unfold bind at 1. unfold ret at 1.
  unfold bind at 1. rewrite He.
  unfold bind at 1. unfold modify at 1.
  symmetry.
  unfold bind at 1. unfold modify at 1.
  reflexivity.
Qed.

(** ** Re-authentication *)

(** C5: when [authenticate] completes without error, [handleAuthenticate]
    leaves the server set, the app-to-server map and the run-to-server map
    empty, whatever they held, and the new bundle in place. *)
Theorem C5_reauth_clears (env : Env) (s : Server) (cfg : value) :
  fst (DeviceAuthFlow.authenticate env (authFlow_apiUrl env) (world s)) = Ok cfg ->
  servers (snd (handleAuthenticate env s)) = VArr []
  /\ appServerMap (snd (handleAuthenticate env s)) = []
  /\ runServerMap (snd (handleAuthenticate env s)) = []
  /\ config (snd (handleAuthenticate env s)) = cfg.
Proof.
  intros Hauth.
  unfold handleAuthenticate. monad.
  destruct (DeviceAuthFlow.authenticate env (authFlow_apiUrl env) (world s))
    as [[c | e] w]; simpl in Hauth; [| discriminate].
  inversion Hauth; subst c. simpl.
  destruct (getProp cfg "user") as [user | e1]; simpl; [| repeat split].
  destruct (getProp user "name") as [n | e2]; simpl; [| repeat split].
  destruct (getProp cfg "organization") as [org | e3]; simpl; [| repeat split].
  destruct (getProp org "name") as [on | e4]; simpl; [| repeat split].
  destruct (getProp org "role") as [r | e5]; simpl; repeat split.
Qed.

Lemma C5_reauth_clears_witness :
  let env := Examples.env_at 5000 (Examples.provider "pending" 0) in
  servers (snd (handleAuthenticate env Examples.busy_server)) = VArr []
  /\ appServerMap (snd (handleAuthenticate env Examples.busy_server)) = []
  /\ runServerMap (snd (handleAuthenticate env Examples.busy_server)) = []
  /\ config (snd (handleAuthenticate env Examples.busy_server))
     = VObj [("access_token", VStr "tok");
             ("token_type", VStr "Bearer");
             ("expires_at", VNum 3605000);
             ("user", VObj [("id", VStr "u1"); ("name", VStr "Ada")]);
             ("organization", VObj [("id", VStr "o1"); ("name", VStr "Org");
                                    ("role", VStr "member")])].
Proof.
  apply (C5_reauth_clears (Examples.env_at 5000 (Examples.provider "pending" 0))
           Examples.busy_server _).
  vm_compute. reflexivity.
Defined.

(** ** The device-authorization poll loop *)

(** The number of calls after a few steps of the world. *)
Ltac count_calls :=
  cbn [snd fst calls add_call add_io add_log set_configFile ret throw];
  rewrite ?length_app; cbn [List.length]; lia.

Section Poll.
Variable env : Env.
Variable apiUrl : string.

Arguments DeviceAuthFlow.poll : simpl never.

Lemma poll_unfold (fuel : nat) (device_code interval : value) (attempts : nat) :
  DeviceAuthFlow.poll env apiUrl (S fuel) device_code interval attempts
  = if (attempts <? DeviceAuthFlow.maxAttempts)%nat then
      sleep interval ;;
      statusResponse <- fetch env (DeviceAuthFlow.statusRequest apiUrl device_code) ;;
      if negb (ok statusResponse)
      then throw (ErrMsg "Failed to check authorization status")
      else
        statusData <- json_of statusResponse ;;
        data <- lift (getProp statusData "data") ;;
        st <- lift (getProp data "status") ;;
        if is_str st "authorized" then
          log LogAuthorized ;;
          ret attempts
        else if is_str st "expired" then
          throw (ErrMsg "Authorization expired. Please try again.")
        else if is_str st "denied" then
          throw (ErrMsg "Authorization denied by user.")
        else
          DeviceAuthFlow.poll env apiUrl fuel device_code interval (S attempts)
    else ret attempts.
Proof. reflexivity. Qed.

(** One turn of the loop issues one call, or none. *)
Lemma poll_calls_bound (fuel : nat) (device_code interval : value) :
  forall (attempts : nat) (w : World),
    (List.length (calls (snd (DeviceAuthFlow.poll env apiUrl fuel device_code interval
                                attempts w)))
     <= List.length (calls w) + (DeviceAuthFlow.maxAttempts - attempts))%nat.
Proof.
  induction fuel as [| fuel IH]; intros attempts w.
  - simpl. lia.
  - rewrite poll_unfold.
    destruct (Nat.ltb_spec attempts DeviceAuthFlow.maxAttempts) as [Hlt | Hge];
      [| cbn [snd ret]; lia].
    unfold bind at 1. unfold sleep at 1, modify at 1.
    unfold bind at 1. unfold fetch at 1.
    destruct (net env _ _) as [r |]; [| count_calls].
    destruct (ok r); cbn [negb];
      [| unfold throw; count_calls].
    unfold json_of, lift, bind.
    destruct (json r) as [body |]; [| count_calls].
    destruct (getProp body "data") as [data | e];
      [| count_calls].
    destruct (getProp data "status") as [st | e];
      [| count_calls].
    destruct (is_str st "authorized");
      [unfold log, modify, ret; count_calls |].
    destruct (is_str st "expired");
      [unfold throw; count_calls |].
    destruct (is_str st "denied");
      [unfold throw; count_calls |].
    specialize (IH (S attempts)
                  (add_call (DeviceAuthFlow.statusRequest apiUrl device_code)
                     (add_io (IoSleep interval) w))).
    cbn [calls add_call add_io] in IH. rewrite length_app in IH. cbn [List.length] in IH. lia.
Qed.

(** The loop leaves by its own condition before the fuel is spent: any
    two amounts of fuel that cover the remaining attempts give the same
    run. *)
Lemma poll_fuel (device_code interval : value) :
  forall (fuel1 fuel2 attempts : nat) (w : World),
    (DeviceAuthFlow.maxAttempts <= fuel1 + attempts)%nat ->
    (DeviceAuthFlow.maxAttempts <= fuel2 + attempts)%nat ->
    DeviceAuthFlow.poll env apiUrl fuel1 device_code interval attempts w
    = DeviceAuthFlow.poll env apiUrl fuel2 device_code interval attempts w.
Proof.
  induction fuel1 as [| fuel1 IH]; intros [| fuel2] attempts w H1 H2.
  - reflexivity.
  - rewrite poll_unfold.
    destruct (Nat.ltb_spec attempts DeviceAuthFlow.maxAttempts);
      [simpl in H1; lia | reflexivity].
  - rewrite poll_unfold.
    destruct (Nat.ltb_spec attempts DeviceAuthFlow.maxAttempts);
      [simpl in H2; lia | reflexivity].
  - rewrite !poll_unfold.
    destruct (attempts <? DeviceAuthFlow.maxAttempts)%nat; [| reflexivity].
    unfold bind, sleep, modify, fetch, json_of, lift, throw, log, ret.
    destruct (net env _ _) as [r |]; [| reflexivity].
    destruct (negb (ok r)); [reflexivity |].
    destruct (json r) as [body |]; [| reflexivity].
    destruct (getProp body "data") as [data | e]; [| reflexivity].
    destruct (getProp data "status") as [st | e]; [| reflexivity].
    destruct (is_str st "authorized"); [reflexivity |].
    destruct (is_str st "expired"); [reflexivity |].
    destruct (is_str st "denied"); [reflexivity |].
    apply IH; lia.
Qed.

(** While every poll reports a state that is not terminal, the loop runs
    until [attempts] reaches [maxAttempts], one call a turn. *)
Lemma poll_pending (device_code interval : value) (n0 : nat) :
  (forall n req, (n0 <= n)%nat ->
                 exists r, net env n req = Some r /\ Spec.non_terminal r = true) ->
  forall (fuel attempts : nat) (w : World),
    (n0 <= List.length (calls w))%nat ->
    (fuel + attempts = DeviceAuthFlow.maxAttempts)%nat ->
    exists w',
      DeviceAuthFlow.poll env apiUrl fuel device_code interval attempts w
      = (Ok DeviceAuthFlow.maxAttempts, w')
      /\ List.length (calls w') = (List.length (calls w) + fuel)%nat
      /\ configFile w' = configFile w.
Proof.
  intros Hnet. induction fuel as [| fuel IH]; intros attempts w Hn0 Hsum.
  - exists w. simpl in Hsum. subst attempts. simpl. repeat split. lia.
  - rewrite poll_unfold.
    destruct (Nat.ltb_spec attempts DeviceAuthFlow.maxAttempts) as [Hlt | Hge]; [| lia].
    unfold bind at 1. unfold sleep at 1, modify at 1.
    unfold bind at 1. unfold fetch at 1.
    destruct (Hnet (List.length (calls (add_io (IoSleep interval) w)))
                (DeviceAuthFlow.statusRequest apiUrl device_code)) as (r & Hr & Hpending).
    { simpl. exact Hn0. }
    rewrite Hr.
    unfold Spec.non_terminal, Spec.polled_status in Hpending.
    destruct (ok r); [| discriminate]. cbn [negb].
    unfold json_of, lift, bind.
    destruct (json r) as [body |]; [| discriminate].
    destruct (getProp body "data") as [data | e]; [| discriminate].
    destruct (getProp data "status") as [st | e]; [| discriminate].
    simpl in Hpending.
    destruct (is_str st "authorized"); [discriminate |].
    destruct (is_str st "expired"); [discriminate |].
    destruct (is_str st "denied"); [discriminate |].
    destruct (IH (S attempts)
                (add_call (DeviceAuthFlow.statusRequest apiUrl device_code)
                   (add_io (IoSleep interval) w))) as (w' & Hrun & Hlen & Hfile).
    { simpl. rewrite length_app. simpl. lia. }
    { lia. }
    exists w'. split; [exact Hrun |].
    split; [| rewrite Hfile; reflexivity].
    rewrite Hlen. simpl. rewrite length_app. simpl. lia.
Qed.
End Poll.

Import Count.

Section CountRules.
Variable env : Env.

Lemma adds_ret {A} (k : nat) (a : A) : adds k (ret a).
Proof. intros w. count_calls. Qed.

Lemma adds_throw {A} (k : nat) (e : Error) : adds k (throw (A := A) e).
Proof. intros w. count_calls. Qed.

Lemma adds_lift {A} (k : nat) (o : Outcome A) : adds k (lift o).
Proof. intros w. unfold lift. count_calls. Qed.

Lemma adds_log (k : nat) (l : LogLine) : adds k (log l).
Proof. intros w. unfold log, modify. count_calls. Qed.

Lemma adds_json_of (k : nat) (r : Response) : adds k (json_of r).
Proof. apply adds_lift. Qed.

Lemma adds_now (k : nat) : adds k (now env).
Proof. intros w. unfold now. count_calls. Qed.

Lemma adds_saveConfig (k : nat) (c : value) : adds k (DeviceAuthFlow.saveConfig env c).
Proof.
  intros w. unfold DeviceAuthFlow.saveConfig.
  destruct (write_ok env _); [| destruct (write_truncates env _)]; count_calls.
Qed.

Lemma adds_fetch (req : Request) : adds 1 (fetch env req).
Proof. intros w. unfold fetch. destruct (net env _ _); count_calls. Qed.

Lemma adds_bind {A B} (k1 k2 k : nat) (m : M World A) (f : A -> M World B) :
  adds k1 m -> (forall a, adds k2 (f a)) -> (k1 + k2 <= k)%nat -> adds k (bind m f).
Proof.
  intros Hm Hf Hk w. unfold bind. specialize (Hm w).
  destruct (m w) as [[a | e] w1]; cbn [snd] in *.
  - specialize (Hf a w1). lia.
  - lia.
Qed.

(** A step that issues no call. *)
Lemma adds_then {A B} (k : nat) (m : M World A) (f : A -> M World B) :
  adds 0 m -> (forall a, adds k (f a)) -> adds k (bind m f).
Proof. intros Hm Hf. eapply adds_bind; [exact Hm | exact Hf | lia]. Qed.

Lemma adds_poll (apiUrl : string) (fuel : nat) (device_code interval : value)
      (attempts : nat) :
  adds (DeviceAuthFlow.maxAttempts - attempts)
       (DeviceAuthFlow.poll env apiUrl fuel device_code interval attempts).
Proof. intros w. apply poll_calls_bound. Qed.

(** The whole flow: the init call, the polls, the token exchange. *)
Lemma adds_authenticate (apiUrl : string) :
  adds (DeviceAuthFlow.maxAttempts + 2) (DeviceAuthFlow.authenticate env apiUrl).
Proof.
  unfold DeviceAuthFlow.authenticate.
  apply (adds_bind 1 (DeviceAuthFlow.maxAttempts + 1) _);
    [apply adds_fetch | intros initResponse | lia].
  destruct (negb (ok initResponse)); [apply adds_throw |].
  apply adds_then; [apply adds_json_of | intros initData].
  do 5 (apply adds_then; [apply adds_lift | intros ?]).
  do 4 (apply adds_then; [apply adds_log | intros ?]).
  apply (adds_bind DeviceAuthFlow.maxAttempts 1 _);
    [ | intros attempts | lia].
  { intros w. pose proof (adds_poll apiUrl DeviceAuthFlow.maxAttempts a0 a3 0 w). lia. }
  destruct (DeviceAuthFlow.maxAttempts <=? attempts)%nat; [apply adds_throw |].
  apply (adds_bind 1 0 _); [apply adds_fetch | intros tokenResponse | lia].
  destruct (negb (ok tokenResponse)); [apply adds_throw |].
  apply adds_then; [apply adds_json_of | intros tokenData].
  do 3 (apply adds_then; [apply adds_lift | intros ?]).
  apply adds_then; [apply adds_now | intros t].
  do 3 (apply adds_then; [apply adds_lift | intros ?]).
  apply adds_then; [apply adds_saveConfig | intros ?].
  apply adds_then; [apply adds_lift | intros ?].
  apply adds_then; [apply adds_log | intros ?].
  do 2 (apply adds_then; [apply adds_lift | intros ?]).
  apply adds_then; [apply adds_log | intros ?].
  apply adds_ret.
Qed.
End CountRules.

(** C7: the poll loop always ends, after at most 180 polls: the whole flow
    issues at most 182 calls, whatever the provider answers.  When the flow
    starts at a provider with an absolute URL, with an init payload whose
    codes, URL and interval are printable, and every poll reports a state that is neither authorized,
    expired nor denied, the loop stops after exactly 180 polls and
    [authenticate] fails with the timeout error. *)
Theorem C7_poll_terminates (env : Env) (apiUrl : string) (w : World) :
  (List.length (calls (snd (DeviceAuthFlow.authenticate env apiUrl w)))
   <= List.length (calls w) + 182)%nat
  /\ forall (r0 : Response) (b0 d : value),
      net env (List.length (calls w)) (DeviceAuthFlow.initRequest apiUrl) = Some r0 ->
      ok r0 = true ->
      json r0 = Some b0 ->
      getProp b0 "data" = Ok d ->
      Spec.readable d = true ->
      Spec.init_printable d = true ->
      Spec.http_url apiUrl = true ->
      (forall n req, (List.length (calls w) < n)%nat ->
                     exists r, net env n req = Some r /\ Spec.non_terminal r = true) ->
      exists w',
        DeviceAuthFlow.authenticate env apiUrl w
        = (Throw (ErrMsg "Authorization timeout"), w')
        /\ List.length (calls w') = (List.length (calls w) + 1 + 180)%nat
        /\ configFile w' = configFile w.
Proof.
  split.
  - apply (adds_authenticate env apiUrl w).
  - intros r0 b0 d Hinit Hok Hjson Hdata Hd _ _ Hpolls.
    unfold DeviceAuthFlow.authenticate.
    unfold bind at 1. unfold fetch at 1. rewrite Hinit, Hok. cbn [negb].
    unfold bind at 1. unfold json_of at 1, lift at 1. rewrite Hjson.
    unfold bind at 1. unfold lift at 1. rewrite Hdata.
    assert (Hprop : forall k, exists v, getProp d k = Ok v).
    { intros k. destruct d; try discriminate; simpl; eauto. }
    destruct (Hprop "device_code") as [device_code Hdc].
    destruct (Hprop "user_code") as [user_code Huc].
    destruct (Hprop "verification_url_complete") as [vurl Hvu].
    destruct (Hprop "interval") as [interval Hiv].
    unfold bind at 1. unfold lift at 1. rewrite Hdc.
    unfold bind at 1. unfold lift at 1. rewrite Huc.
    unfold bind at 1. unfold lift at 1. rewrite Hvu.
    unfold bind at 1. unfold lift at 1. rewrite Hiv.
    do 4 (unfold bind at 1; unfold log at 1, modify at 1).
    unfold bind at 1.
    match goal with
    | |- context [DeviceAuthFlow.poll env apiUrl _ _ _ 0 ?w1] =>
        destruct (poll_pending env apiUrl device_code interval
                    (S (List.length (calls w))) Hpolls DeviceAuthFlow.maxAttempts 0 w1)
          as (w' & Hrun & Hlen & Hfile)
    end.
    { cbn [calls add_call add_log]. rewrite length_app. simpl. lia. }
    { reflexivity. }
    rewrite Hrun.
    exists w'. split; [reflexivity |].
    split.
    + rewrite Hlen. cbn [calls add_call add_log]. rewrite length_app.
      unfold DeviceAuthFlow.maxAttempts. simpl. lia.
    + rewrite Hfile. reflexivity.
Qed.

Lemma C7_poll_terminates_witness :
  exists w',
    DeviceAuthFlow.authenticate (Examples.env_at 0 Examples.never_answered)
      "https://ustun.tech" (Examples.world_with FAbsent)
    = (Throw (ErrMsg "Authorization timeout"), w')
    /\ List.length (calls w') = 181%nat
    /\ configFile w' = FAbsent.
Proof.
  apply (proj2 (C7_poll_terminates (Examples.env_at 0 Examples.never_answered)
                  "https://ustun.tech" (Examples.world_with FAbsent))
           (Examples.respond 200 Examples.init_payload) Examples.init_payload
           (VObj [("device_code", VStr "dc-1");
                  ("user_code", VStr "ABCD");
                  ("verification_url_complete",
                   VStr "https://ustun.tech/device?code=ABCD");
                  ("interval", VNum 5)])).
  - reflexivity.
  - reflexivity.
  - reflexivity.
  - reflexivity.
  - reflexivity.
  - reflexivity.
  - reflexivity.
  - intros n req Hn. destruct n as [| n]; [simpl in Hn; lia |].
    exists (Examples.respond 200 (Examples.status_payload "pending")).
    split; reflexivity.
Defined.

(** ** One refresh, server by server *)

Lemma readable_getProp (v : value) (k : string) :
  Spec.readable v = true -> getProp v k = Ok (Spec.prop v k).
Proof.
  unfold Spec.prop. destruct v; simpl; intros H; try discriminate; reflexivity.
Qed.

Lemma addressable_readable (server : value) :
  Spec.addressable server = true -> Spec.readable server = true.
Proof.
  unfold Spec.addressable. intros H.
  apply andb_prop in H. destruct H as [H _].
  apply andb_prop in H. exact (proj1 H).
Qed.

Lemma described_readable (server : value) :
  Spec.described server = true -> Spec.readable server = true.
Proof.
  unfold Spec.described. intros H. apply andb_prop in H.
  exact (addressable_readable server (proj1 H)).
Qed.

Lemma appNameOf_readable (app : value) :
  Spec.readable app = true -> appNameOf app = Ok (Spec.name_of app).
Proof.
  intros Hr. unfold appNameOf, Spec.name_of.
  destruct (typeof_string app); [reflexivity |].
  rewrite (readable_getProp app "app_name" Hr).
  destruct (truthy (Spec.prop app "app_name")); [reflexivity |].
  apply readable_getProp; assumption.
Qed.

Lemma set_appServerMap_same (s : Server) : set_appServerMap (appServerMap s) s = s.
Proof. destruct s; reflexivity. Qed.

Lemma mapApps_run (server : value) (appsList : list value) :
  Spec.readable server = true ->
  forallb Spec.readable appsList = true ->
  forall s,
    mapApps server (Spec.url_of server) appsList s
    = (Ok tt, set_appServerMap
                (Spec.install (flat_map (Spec.entry_of server) appsList) (appServerMap s))
                s).
Proof.
  intros Hserver. induction appsList as [| app rest IH]; intros Hall s.
  - simpl. unfold ret. rewrite set_appServerMap_same. reflexivity.
  - simpl in Hall. apply andb_prop in Hall. destruct Hall as [Happ Hrest].
    cbn [mapApps]. unfold bind at 1. unfold lift at 1.
    rewrite (appNameOf_readable app Happ).
    unfold Spec.entry_of at 1. cbn [flat_map].
    destruct (truthy (Spec.name_of app)) eqn:Hname.
    + unfold bind at 1. unfold bind at 1. unfold lift at 1.
      assert (Hst : (if typeof_object app then getProp app "status" else Ok VUndef)
                    = Ok (if typeof_object app then Spec.prop app "status" else VUndef)).
      { destruct (typeof_object app); [apply readable_getProp; assumption | reflexivity]. }
      rewrite Hst.
      unfold bind at 1. unfold lift at 1.
      rewrite (readable_getProp server "slug" Hserver).
      unfold bind at 1. unfold gets at 1. unfold modify at 1.
      rewrite (IH Hrest _). reflexivity.
    + unfold bind at 1. unfold ret at 1.
      rewrite (IH Hrest _). reflexivity.
Qed.

Lemma names_run (appsList : list value) :
  forallb Spec.readable appsList = true ->
  forall s : Server,
    mapM (fun a => lift (appNameOf a)) appsList s = (Ok (map Spec.name_of appsList), s).
Proof.
  induction appsList as [| app rest IH]; intros Hall s.
  - reflexivity.
  - simpl in Hall. apply andb_prop in Hall. destruct Hall as [Happ Hrest].
    cbn [mapM map]. unfold bind at 1. unfold lift at 1.
    rewrite (appNameOf_readable app Happ).
    unfold bind at 1. rewrite (IH Hrest _). reflexivity.
Qed.

Section Requests.
Variable env : Env.

(** A GET of the server object: one call, answered by the network. *)
Lemma GET_run (token : value) (u : string) (s : Server) :
  getProp (config s) "access_token" = Ok token ->
  GET env u s
  = let req := {| method := "GET"; url := u;
                  headers := [("Authorization", "Bearer " ++ toString token)];
                  body := NoBody |} in
    match net env (List.length (calls (world s))) req with
    | Some r => (Ok r, set_world (add_call req (world s)) s)
    | None => (Throw ErrNet, set_world (add_call req (world s)) s)
    end.
Proof.
  intros Htoken. unfold GET, authorization.
  unfold bind, gets, lift, ret, inW, fetch. rewrite Htoken.
  cbv zeta. destruct (net env _ _); reflexivity.
Qed.

(** One server of the refresh loop. *)
Lemma listServer_step (token server : value) (a : Spec.Answer)
      (allApps : list AppGroup) (s : Server) :
  getProp (config s) "access_token" = Ok token ->
  Spec.answers env token (List.length (calls (world s))) server a ->
  exists s',
    try_catch (listServerApps env server (Spec.url_of server) allApps)
      (fun error =>
         slug <- lift (getProp server "slug") ;;
         inW (log (LogAppsError slug error)) ;;
         ret allApps) s
    = (Ok (allApps ++ Spec.groups_of [server] [a])%list, s')
    /\ appServerMap s' = Spec.install (Spec.entries_of [server] [a]) (appServerMap s)
    /\ config s' = config s
    /\ servers s' = servers s
    /\ runServerMap s' = runServerMap s
    /\ calls (world s') = (calls (world s) ++ [Spec.appsRequest token server])%list
    /\ console (world s') = (console (world s) ++ Spec.logged [server] [a])%list.
Proof.
  intros Htoken [Hdescribed Hanswer].
  pose proof (described_readable server Hdescribed) as Hserver.
  unfold try_catch, listServerApps.
  unfold bind at 1. rewrite (GET_run token _ s Htoken). cbv zeta.
  fold (Spec.appsRequest token server).
  destruct a as [| code | apps].
  - (* network error *)
    rewrite Hanswer.
    unfold bind, lift, inW, log, modify, ret.
    rewrite (readable_getProp server "slug" Hserver). cbn.
    eexists; split; [rewrite app_nil_r; reflexivity |].
    cbn; repeat split; rewrite ?app_nil_r; try reflexivity.
  - (* not 2xx *)
    destruct Hanswer as (r & Hr & Hok & Hcode). rewrite Hr, Hok.
    unfold bind, lift, inW, log, modify, ret.
    rewrite (readable_getProp server "slug" Hserver). cbn.
    eexists; split; [rewrite app_nil_r; reflexivity |].
    cbn; rewrite ?Hcode; repeat split; rewrite ?app_nil_r; try reflexivity.
  - (* a listing *)
    destruct Hanswer as (r & data & Hr & Hok & Hjson & Hlist & Hall & _).
    rewrite Hr, Hok.
    unfold bind at 1. unfold inW at 1, json_of at 1, lift at 1. rewrite Hjson.
    unfold bind at 1. unfold lift at 1. rewrite Hlist.
    unfold bind at 1. rewrite (mapApps_run server apps Hserver Hall).
    unfold bind at 1. unfold lift at 1. rewrite (readable_getProp server "slug" Hserver).
    unfold bind at 1. rewrite (names_run apps Hall).
    unfold ret.
    eexists; split; [reflexivity |].
    cbn; rewrite ?app_nil_r; repeat split; try reflexivity.
Qed.
End Requests.

Lemma serverUrlOf_readable (server : value) :
  Spec.readable server = true -> serverUrlOf server = Ok (Spec.url_of server).
Proof.
  intros Hr. unfold serverUrlOf, Spec.url_of.
  rewrite (readable_getProp server "domain" Hr). reflexivity.
Qed.

Lemma install_app (es1 es2 : list (value * Types.AppWithServer))
      (m : Map Types.AppWithServer) :
  Spec.install (es1 ++ es2) m = Spec.install es2 (Spec.install es1 m).
Proof. unfold Spec.install. apply fold_left_app. Qed.

Lemma groups_of_cons (server : value) (a : Spec.Answer) (items : list value)
      (plan : list Spec.Answer) :
  Spec.groups_of (server :: items) (a :: plan)
  = (Spec.groups_of [server] [a] ++ Spec.groups_of items plan)%list.
Proof. destruct a; reflexivity. Qed.

Lemma entries_of_cons (server : value) (a : Spec.Answer) (items : list value)
      (plan : list Spec.Answer) :
  Spec.entries_of (server :: items) (a :: plan)
  = (Spec.entries_of [server] [a] ++ Spec.entries_of items plan)%list.
Proof. destruct a; cbn; rewrite ?app_nil_r; reflexivity. Qed.

Lemma logged_cons (server : value) (a : Spec.Answer) (items : list value)
      (plan : list Spec.Answer) :
  Spec.logged (server :: items) (a :: plan)
  = (Spec.logged [server] [a] ++ Spec.logged items plan)%list.
Proof. destruct a; reflexivity. Qed.

Section RefreshLoop.
Variable env : Env.
Variable token : value.

(** The refresh loop over servers that answer as a plan says: every
    server is called, in order; the ones that list applications add their
    group and their entries, the others a line on the console. *)
Lemma listAllApps_follows (items : list value) :
  forall (plan : list Spec.Answer) (allApps : list AppGroup) (s : Server),
    getProp (config s) "access_token" = Ok token ->
    Spec.follows env token (List.length (calls (world s))) items plan ->
    exists s',
      listAllApps env items allApps s
      = (Ok (allApps ++ Spec.groups_of items plan)%list, s')
      /\ appServerMap s' = Spec.install (Spec.entries_of items plan) (appServerMap s)
      /\ config s' = config s
      /\ servers s' = servers s
      /\ runServerMap s' = runServerMap s
      /\ calls (world s')
         = (calls (world s) ++ map (Spec.appsRequest token) items)%list
      /\ console (world s') = (console (world s) ++ Spec.logged items plan)%list.
Proof.
  induction items as [| server items IH]; intros plan allApps s Htoken Hplan.
  - destruct plan; [| contradiction].
    exists s. cbn. unfold ret. rewrite !app_nil_r. repeat split.
  - destruct plan as [| a plan]; [contradiction |].
    destruct Hplan as [Ha Hrest].
    cbn [listAllApps]. unfold bind at 1. unfold lift at 1.
    rewrite (serverUrlOf_readable server (described_readable server (proj1 Ha))).
    destruct (listServer_step env token server a allApps s Htoken Ha)
      as (s1 & Hrun & Hmap & Hcfg & Hss & Hruns & Hcalls & Hlog).
    unfold bind at 1. rewrite Hrun.
    destruct (IH plan (allApps ++ Spec.groups_of [server] [a])%list s1)
      as (s2 & Hrun2 & Hmap2 & Hcfg2 & Hss2 & Hruns2 & Hcalls2 & Hlog2).
    { rewrite Hcfg. exact Htoken. }
    { rewrite Hcalls, length_app. simpl.
      replace (List.length (calls (world s)) + 1)%nat
        with (S (List.length (calls (world s)))) by lia.
      exact Hrest. }
    exists s2. rewrite Hrun2.
    rewrite (groups_of_cons server a items plan), (entries_of_cons server a items plan),
      (logged_cons server a items plan).
    rewrite <- app_assoc. split; [reflexivity |].
    rewrite Hmap2, Hmap, install_app.
    rewrite Hcalls2, Hcalls, Hlog2, Hlog, <- !app_assoc.
    repeat split; congruence.
Qed.
End RefreshLoop.

Lemma follows_length (env : Env) (token : value) (items : list value) :
  forall (n : nat) (plan : list Spec.Answer),
    Spec.follows env token n items plan -> List.length items = List.length plan.
Proof.
  induction items as [| server items IH]; intros n [| a plan] H; simpl in *;
    try contradiction; [reflexivity |].
  destruct H as [_ H]. f_equal. exact (IH _ _ H).
Qed.

Lemma totalOf_shift (groups : list AppGroup) (n : nat) :
  fold_left (fun sum g => (sum + List.length (apps g))%nat) groups n
  = (n + totalOf groups)%nat.
Proof.
  unfold totalOf. revert n.
  induction groups as [| g groups IH]; intros n; simpl; [lia |].
  rewrite (IH (n + List.length (apps g))%nat), (IH (List.length (apps g))). lia.
Qed.

Lemma totalOf_groups (items : list value) :
  forall plan : list Spec.Answer,
    List.length items = List.length plan ->
    totalOf (Spec.groups_of items plan) = Spec.listed_total plan.
Proof.
  induction items as [| server items IH]; intros [| a plan] Hlen; simpl in *;
    try discriminate; [reflexivity |].
  injection Hlen as Hlen.
  destruct a; simpl; try (apply IH; exact Hlen).
  unfold totalOf. simpl. rewrite totalOf_shift, length_map, (IH plan Hlen). reflexivity.
Qed.

Lemma groups_count (items : list value) :
  forall plan : list Spec.Answer,
    List.length items = List.length plan ->
    (List.length (Spec.groups_of items plan) + Spec.failures plan
     = List.length items)%nat.
Proof.
  unfold Spec.failures.
  induction items as [| server items IH]; intros [| a plan] Hlen; simpl in *;
    try discriminate; [reflexivity |].
  injection Hlen as Hlen. specialize (IH plan Hlen).
  destruct a; simpl; lia.
Qed.

(** A refresh over a non-empty server set whose servers answer as a plan
    says. *)
Lemma handleListApps_follows (env : Env) (token : value) (s : Server)
      (items : list value) (plan : list Spec.Answer) :
  servers s = VArr items ->
  items <> [] ->
  getProp (config s) "access_token" = Ok token ->
  Spec.follows env token (List.length (calls (world s))) items plan ->
  exists s',
    handleListApps env s
    = (Ok (if (Spec.listed_total plan =? 0)%nat then TNoApps
           else TApps (Spec.listed_total plan)
                  (List.length items - Spec.failures plan)
                  (Spec.groups_of items plan)), s')
    /\ appServerMap s' = Spec.install (Spec.entries_of items plan) []
    /\ runServerMap s' = runServerMap s
    /\ servers s' = servers s
    /\ calls (world s') = (calls (world s) ++ map (Spec.appsRequest token) items)%list
    /\ console (world s') = (console (world s) ++ Spec.logged items plan)%list.
Proof.
  intros Hss Hne Htoken Hplan.
  assert (He : forall m, servers_empty (set_appServerMap m s)
                         = (Ok false, set_appServerMap m s)).
  { intros m. apply servers_empty_run; simpl; rewrite Hss; simpl; [discriminate |].
    unfold Spec.no_servers. simpl. destruct items; [contradiction | reflexivity]. }
  assert (He0 : servers_empty s = (Ok false, s)).
  { apply servers_empty_run; rewrite Hss; simpl; [discriminate |].
    unfold Spec.no_servers. simpl. destruct items; [contradiction | reflexivity]. }
  unfold handleListApps.
  unfold bind at 1. rewrite He0.
  unfold bind at 1. unfold bind at 1. unfold ret at 1.
  unfold bind at 1. rewrite He0.
  unfold bind at 1. unfold modify at 1.
  unfold bind at 1. unfold gets at 1. cbn [servers set_appServerMap].
  rewrite Hss. unfold bind at 1. unfold lift at 1. cbn [iterate].
  destruct (listAllApps_follows env token items plan []
              (set_appServerMap (map_clear (appServerMap s)) s))
    as (s' & Hrun & Hmap & Hcfg & Hss' & Hruns & Hcalls & Hlog).
  { exact Htoken. }
  { exact Hplan. }
  rewrite Hrun. cbn [app]. simpl in Hmap, Hruns, Hss', Hcalls, Hlog.
  pose proof (follows_length env token items _ plan Hplan) as Hlen.
  rewrite (totalOf_groups items plan Hlen).
  pose proof (groups_count items plan Hlen) as Hcount.
  replace (List.length items - Spec.failures plan)%nat
    with (List.length (Spec.groups_of items plan)) by lia.
  exists s'. split.
  { destruct (Spec.listed_total plan =? 0)%nat; reflexivity. }
  unfold map_clear in *.
  repeat split; try assumption; congruence.
Qed.

(** ** [Map] *)

Lemma sameValueZero_eq (a b : value) : sameValueZero a b = true -> a = b.
Proof.
  destruct a, b; simpl; intros H; try discriminate; try reflexivity.
  - apply Bool.eqb_prop in H. congruence.
  - apply Z.eqb_eq in H. congruence.
  - apply String.eqb_eq in H. congruence.
Qed.

Lemma map_get_set_other {V} (k k' : value) (v : V) (m : Map V) :
  sameValueZero k' k = false -> map_get k (map_set k' v m) = map_get k m.
Proof.
  intros Hne. induction m as [| [k0 v0] rest IH]; simpl.
  - rewrite Hne. reflexivity.
  - destruct (sameValueZero k0 k') eqn:H0; simpl.
    + apply sameValueZero_eq in H0. subst k0. rewrite Hne. reflexivity.
    + destruct (sameValueZero k0 k); [reflexivity | exact IH].
Qed.

Lemma map_get_set_same {V} (k k' : value) (v : V) (m : Map V) :
  sameValueZero k' k = true -> map_get k (map_set k' v m) = Some v.
Proof.
  intros He. induction m as [| [k0 v0] rest IH]; simpl.
  - rewrite He. reflexivity.
  - destruct (sameValueZero k0 k') eqn:H0; simpl.
    + apply sameValueZero_eq in H0. subst k0. rewrite He. reflexivity.
    + destruct (sameValueZero k0 k) eqn:H1; [| exact IH].
      apply sameValueZero_eq in H1. subst k0.
      pose proof (sameValueZero_eq _ _ He) as Hk. subst k'.
      rewrite He in H0. discriminate.
Qed.

(** A key of the map is still a key after a [set]. *)
Lemma map_set_keeps_keys {V} (k k' : value) (v u : V) (m : Map V) :
  map_get k m = Some u -> exists u', map_get k (map_set k' v m) = Some u'.
Proof.
  intros Hget. destruct (sameValueZero k' k) eqn:He.
  - exists v. apply map_get_set_same; assumption.
  - exists u. rewrite map_get_set_other; assumption.
Qed.

Lemma install_absent (name : value) (es : list (value * Types.AppWithServer)) :
  forall m : Map Types.AppWithServer,
    map_get name m = None ->
    Forall (fun e => sameValueZero (fst e) name = false) es ->
    map_get name (Spec.install es m) = None.
Proof.
  induction es as [| e es IH]; intros m Hm Hes; simpl; [exact Hm |].
  inversion Hes as [| e' es' He Hrest]; subst.
  apply IH; [| exact Hrest].
  rewrite map_get_set_other; assumption.
Qed.

Lemma logged_count (items : list value) :
  forall plan : list Spec.Answer,
    List.length items = List.length plan ->
    List.length (Spec.logged items plan) = Spec.failures plan.
Proof.
  unfold Spec.failures.
  induction items as [| server items IH]; intros [| a plan] Hlen; simpl in *;
    try discriminate; [reflexivity |].
  injection Hlen as Hlen. specialize (IH plan Hlen).
  destruct a; simpl; lia.
Qed.

(** ** The refresh, as the specification states it *)

(** C3: of two successive refreshes, the second over a non-empty server
    set, the app-to-server map afterwards is the map the second refresh
    builds from an empty map.  When the servers answer the second refresh as
    a plan says, the map holds exactly the entries of that plan's listings,
    written into an empty map, and a name that none of them carries is
    absent, whatever the first refresh had stored under it.  The servers of
    the plan are ones the code can address and name, and the token is
    printable: the loop then reaches every server. *)
Theorem C3_refresh_replaces (env : Env) (s0 : Server) (items : list value) :
  servers (snd (handleListApps env s0)) = VArr items ->
  items <> [] ->
  appServerMap (snd (handleListApps env (snd (handleListApps env s0))))
  = appServerMap (snd (handleListApps env
                         (set_appServerMap [] (snd (handleListApps env s0)))))
  /\ forall (token : value) (plan : list Spec.Answer),
      getProp (config (snd (handleListApps env s0))) "access_token" = Ok token ->
      Spec.printable token = true ->
      Spec.follows env token
        (List.length (calls (world (snd (handleListApps env s0))))) items plan ->
      appServerMap (snd (handleListApps env (snd (handleListApps env s0))))
      = Spec.install (Spec.entries_of items plan) []
      /\ forall name : value,
          Forall (fun e => sameValueZero (fst e) name = false)
                 (Spec.entries_of items plan) ->
          map_get name
            (appServerMap (snd (handleListApps env (snd (handleListApps env s0)))))
          = None.
Proof.
  intros Hss Hne.
  destruct items as [| x xs]; [contradiction |].
  split.
  - rewrite (refresh_ignores_old_map env _ x xs Hss). reflexivity.
  - intros token plan Htoken _ Hplan.
    destruct (handleListApps_follows env token _ (x :: xs) plan Hss Hne Htoken Hplan)
      as (s2 & Hrun & Hmap & _).
    rewrite Hrun. cbn [snd]. split; [exact Hmap |].
    intros name Hnone. rewrite Hmap.
    apply install_absent; [reflexivity | exact Hnone].
Qed.

(** C4: over N known servers of which one fails (a network error or a
    response that is not 2xx) while the others list their applications, the
    refresh returns: every server is called, the failure is one line on the
    console, the reported count is the sum over the N-1 servers that
    answered, and the map holds exactly their entries.  The servers are
    ones the code can address and name (printable domain and slug), the
    token is printable and so are the names that are listed: the console
    line and the result text can then be built. *)
Theorem C4_partial_failure (env : Env) (token : value) (s : Server)
        (items : list value) (plan : list Spec.Answer) :
  servers s = VArr items ->
  getProp (config s) "access_token" = Ok token ->
  Spec.printable token = true ->
  Spec.follows env token (List.length (calls (world s))) items plan ->
  Spec.failures plan = 1%nat ->
  exists s',
    handleListApps env s
    = (Ok (if (Spec.listed_total plan =? 0)%nat then TNoApps
           else TApps (Spec.listed_total plan) (List.length items - 1)
                  (Spec.groups_of items plan)), s')
    /\ appServerMap s' = Spec.install (Spec.entries_of items plan) []
    /\ calls (world s') = (calls (world s) ++ map (Spec.appsRequest token) items)%list
    /\ console (world s') = (console (world s) ++ Spec.logged items plan)%list
    /\ List.length (Spec.logged items plan) = 1%nat.
Proof.
  intros Hss Htoken _ Hplan Hone.
  pose proof (follows_length env token items _ plan Hplan) as Hlen.
  assert (Hne : items <> []).
  { intros ->. destruct plan; [discriminate Hone | discriminate Hlen]. }
  destruct (handleListApps_follows env token s items plan Hss Hne Htoken Hplan)
    as (s' & Hrun & Hmap & _ & _ & Hcalls & Hlog).
  exists s'. rewrite Hrun, Hone.
  repeat split; try assumption.
  rewrite (logged_count items plan Hlen). exact Hone.
Qed.

Lemma C4_partial_failure_witness :
  exists s',
    handleListApps (Examples.env_at 0 Examples.second_down) Examples.stale_server
    = (Ok (TApps 3 2
             [ {| serverSlug := VStr "s1"; serverUrl := "https://s1.example.com";
                  apps := [VStr "blog"; VStr "api"] |};
               {| serverSlug := VStr "s3"; serverUrl := "https://s3.example.com";
                  apps := [VStr "web"] |} ]), s')
    /\ appServerMap s'
       = [ Examples.app_on "blog" "s1" "s1.example.com";
           (VStr "api",
            {| Types.app_name := VStr "api"; Types.status := VStr "running";
               Types.server_url := "https://s1.example.com";
               Types.server_slug := VStr "s1" |});
           Examples.app_on "web" "s3" "s3.example.com" ]
    /\ calls (world s')
       = map (Spec.appsRequest (VStr "tok")) Examples.three_servers
    /\ console (world s') = [LogAppsStatus (VStr "s2") 500]
    /\ List.length (Spec.logged Examples.three_servers Examples.second_down_plan) = 1%nat.
Proof.
  apply (C4_partial_failure (Examples.env_at 0 Examples.second_down) (VStr "tok")
           Examples.stale_server Examples.three_servers Examples.second_down_plan).
  - reflexivity.
  - reflexivity.
  - reflexivity.
  - simpl. repeat split.
    + exists (Examples.listing
                [VStr "blog";
                 VObj [("app_name", VStr "api"); ("status", VStr "running")]]).
      eexists. repeat split; reflexivity.
    + exists (Examples.respond 500 VNull). repeat split; reflexivity.
    + exists (Examples.listing [VObj [("name", VStr "web")]]).
      eexists. repeat split; reflexivity.
  - reflexivity.
Defined.

Lemma C3_refresh_replaces_witness :
  let env := Examples.env_at 0 Examples.blog_then_shop in
  let s1 := snd (handleListApps env Examples.fresh_server) in
  let s2 := snd (handleListApps env s1) in
  map_get (VStr "blog") (appServerMap s1)
  = Some (snd (Examples.app_on "blog" "s1" "s1.example.com"))
  /\ appServerMap s2 = [Examples.app_on "shop" "s1" "s1.example.com"]
  /\ map_get (VStr "blog") (appServerMap s2) = None.
Proof.
  cbv zeta.
  destruct (C3_refresh_replaces (Examples.env_at 0 Examples.blog_then_shop)
              Examples.fresh_server [Examples.server_entry "s1" "s1.example.com"]
              eq_refl ltac:(discriminate)) as [_ Hplan].
  destruct (Hplan (VStr "tok") [Spec.Lists [VStr "shop"]] eq_refl eq_refl)
    as [Hmap Habsent].
  { simpl. repeat split.
    exists (Examples.listing [VStr "shop"]). eexists. repeat split; reflexivity. }
  split; [reflexivity |].
  split; [exact Hmap |].
  apply Habsent. repeat constructor.
Defined.

(** ** Resolving a run *)

Section Probe.
Variable env : Env.
Variable token runId : value.

Lemma probe_step (server : value) (s : Server) :
  getProp (config s) "access_token" = Ok token ->
  Spec.readable server = true ->
  try_catch
    (response <- GET env (runUrl (Spec.url_of server) runId) ;;
     if ok response then
       modify (fun s => set_runServerMap
                          (map_set runId (Spec.url_of server) (runServerMap s)) s) ;;
       ret true
     else ret false)
    (fun _ => ret false) s
  = let req := Spec.runRequest token runId server in
    let s1 := set_world (add_call req (world s)) s in
    match net env (List.length (calls (world s))) req with
    | Some r =>
        if ok r
        then (Ok true,
              set_runServerMap (map_set runId (Spec.url_of server) (runServerMap s)) s1)
        else (Ok false, s1)
    | None => (Ok false, s1)
    end.
Proof.
  intros Htoken Hserver.
  unfold try_catch. unfold bind at 1.
  rewrite (GET_run env token _ s Htoken). cbv zeta.
  fold (Spec.runRequest token runId server).
  destruct (net env _ _) as [r |]; [| reflexivity].
  destruct (ok r); reflexivity.
Qed.

(** No server finds the run: all are probed, nothing is stored. *)
Lemma probeServers_miss (items : list value) :
  forall s : Server,
    getProp (config s) "access_token" = Ok token ->
    Spec.all_miss env token runId (List.length (calls (world s))) items ->
    exists s',
      probeServers env runId items s = (Ok None, s')
      /\ runServerMap s' = runServerMap s
      /\ config s' = config s
      /\ calls (world s')
         = (calls (world s) ++ map (Spec.runRequest token runId) items)%list.
Proof.
  induction items as [| server items IH]; intros s Htoken Hmiss.
  - exists s. cbn. unfold ret. rewrite app_nil_r. repeat split.
  - destruct Hmiss as [[Hserver Hnet] Hrest].
    apply addressable_readable in Hserver.
    cbn [probeServers]. unfold bind at 1. unfold lift at 1.
    rewrite (serverUrlOf_readable server Hserver).
    unfold bind at 1. rewrite (probe_step server s Htoken Hserver). cbv zeta.
    set (s1 := set_world (add_call (Spec.runRequest token runId server) (world s)) s).
    assert (Hfalse :
              match net env (List.length (calls (world s)))
                      (Spec.runRequest token runId server) with
              | Some r =>
                  if ok r
                  then (Ok true,
                        set_runServerMap
                          (map_set runId (Spec.url_of server) (runServerMap s)) s1)
                  else (Ok false, s1)
              | None => (Ok false, s1)
              end = (Ok false, s1)).
    { destruct Hnet as [Hnone | (r & Hr & Hok)].
      - rewrite Hnone. reflexivity.
      - rewrite Hr, Hok. reflexivity. }
    rewrite Hfalse.
    destruct (IH s1) as (s' & Hrun & Hruns & Hcfg & Hcalls).
    { exact Htoken. }
    { unfold s1. cbn [world set_world calls add_call]. rewrite length_app. simpl.
      replace (List.length (calls (world s)) + 1)%nat
        with (S (List.length (calls (world s)))) by lia.
      exact Hrest. }
    exists s'. rewrite Hrun. split; [reflexivity |].
    rewrite Hruns, Hcfg, Hcalls. unfold s1. cbn. rewrite <- app_assoc.
    repeat split.
Qed.

(** The first server that answers 2xx ends the probe: its URL is stored
    under the run id and returned, the servers after it are not called. *)
Lemma probeServers_hit (pre : list value) (hit : value) (post : list value) (s : Server) :
  getProp (config s) "access_token" = Ok token ->
  Spec.all_miss env token runId (List.length (calls (world s))) pre ->
  Spec.finds env token runId (List.length (calls (world s)) + List.length pre) hit ->
  exists s',
    probeServers env runId (pre ++ hit :: post) s = (Ok (Some (Spec.url_of hit)), s')
    /\ runServerMap s' = map_set runId (Spec.url_of hit) (runServerMap s)
    /\ calls (world s')
       = (calls (world s) ++ map (Spec.runRequest token runId) (pre ++ [hit]))%list.
Proof.
  revert s. induction pre as [| server pre IH]; intros s Htoken Hmiss Hfind.
  - destruct Hfind as (Hhit & r & Hr & Hok).
    apply addressable_readable in Hhit.
    rewrite Nat.add_0_r in Hr.
    cbn [app probeServers]. unfold bind at 1. unfold lift at 1.
    rewrite (serverUrlOf_readable hit Hhit).
    unfold bind at 1. rewrite (probe_step hit s Htoken Hhit). cbv zeta.
    rewrite Hr, Hok.
    eexists. split; [reflexivity |]. cbn. repeat split.
  - destruct Hmiss as [[Hserver Hnet] Hrest].
    apply addressable_readable in Hserver.
    cbn [app probeServers]. unfold bind at 1. unfold lift at 1.
    rewrite (serverUrlOf_readable server Hserver).
    unfold bind at 1. rewrite (probe_step server s Htoken Hserver). cbv zeta.
    set (s1 := set_world (add_call (Spec.runRequest token runId server) (world s)) s).
    assert (Hlen : List.length (calls (world s1)) = S (List.length (calls (world s)))).
    { unfold s1. cbn [world set_world calls add_call]. rewrite length_app. simpl. lia. }
    assert (Hfalse :
              match net env (List.length (calls (world s)))
                      (Spec.runRequest token runId server) with
              | Some r =>
                  if ok r
                  then (Ok true,
                        set_runServerMap
                          (map_set runId (Spec.url_of server) (runServerMap s)) s1)
                  else (Ok false, s1)
              | None => (Ok false, s1)
              end = (Ok false, s1)).
    { destruct Hnet as [Hnone | (r & Hr & Hok)].
      - rewrite Hnone. reflexivity.
      - rewrite Hr, Hok. reflexivity. }
    rewrite Hfalse.
    destruct (IH s1) as (s' & Hrun & Hruns & Hcalls).
    { exact Htoken. }
    { rewrite Hlen. exact Hrest. }
    { rewrite Hlen. cbn [List.length] in Hfind.
      replace (S (List.length (calls (world s))) + List.length pre)%nat
        with (List.length (calls (world s)) + S (List.length pre))%nat by lia.
      exact Hfind. }
    exists s'. rewrite Hrun. split; [reflexivity |].
    rewrite Hruns, Hcalls. unfold s1. cbn. rewrite <- app_assoc.
    repeat split.
Qed.
End Probe.

Lemma populated_frame (env : Env) (s s' : Server) :
  Spec.populated env s s' ->
  config s' = config s /\ appServerMap s' = appServerMap s
  /\ runServerMap s' = runServerMap s.
Proof.
  intros [Hknown | found s1 Hempty Hfetch].
  - repeat split.
  - pose proof (keeps_fetchServers env (R := only_world) s) as Hframe.
    rewrite Hfetch in Hframe. destruct Hframe as (Hc & _ & Ha & Hr).
    simpl. repeat split; assumption.
Qed.

(** On a miss the server set is made ready, then the servers are probed. *)
Lemma getServerUrlForRun_miss (env : Env) (runId : value) (s s' : Server)
      (items : list value) :
  map_get runId (runServerMap s) = None ->
  Spec.populated env s s' ->
  servers s' = VArr items ->
  getServerUrlForRun env runId s
  = match probeServers env runId items s' with
    | (Ok (Some serverUrl), s2) => (Ok serverUrl, s2)
    | (Ok None, s2) => (Throw (Spec.run_not_found runId), s2)
    | (Throw e, s2) => (Throw e, s2)
    end.
Proof.
  intros Hmiss Hready Hss.
  unfold getServerUrlForRun.
  unfold bind at 1. unfold gets at 1. rewrite Hmiss.
  destruct Hready as [Hknown | found s1 Hempty Hfetch].
  - unfold bind at 1.
    rewrite (servers_empty_run s false); [| rewrite Hss; discriminate | exact Hknown].
    unfold bind at 1. unfold ret at 1.
    unfold bind at 1. unfold gets at 1. rewrite Hss.
    unfold bind at 1. unfold lift at 1. cbn [iterate].
    unfold bind at 1.
    destruct (probeServers env runId items s) as [[[u |] | e] s2]; reflexivity.
  - unfold bind at 1.
    rewrite (servers_empty_run s true (no_servers_readable _ Hempty) Hempty).
    unfold bind at 1. unfold bind at 1. rewrite Hfetch. unfold modify at 1.
    unfold bind at 1. unfold gets at 1. rewrite Hss.
    unfold bind at 1. unfold lift at 1. cbn [iterate].
    unfold bind at 1.
    destruct (probeServers env runId items (set_servers found s1))
      as [[[u |] | e] s2]; reflexivity.
Qed.

(** A run id with a cached URL is answered from the map. *)
Lemma getServerUrlForRun_hit (env : Env) (runId : value) (s : Server) (c : ascii)
      (rest : string) :
  map_get runId (runServerMap s) = Some (String c rest) ->
  getServerUrlForRun env runId s = (Ok (String c rest), s).
Proof.
  intros Hhit. unfold getServerUrlForRun.
  unfold bind at 1. unfold gets at 1. rewrite Hhit. reflexivity.
Qed.



(** ** What the operations leave of the run-to-server map *)

#[export] Instance same_runs_cache : CacheFrame same_runs.
Proof. split; [exact same_runs_frame | | |]; intros; reflexivity. Qed.

#[export] Instance keeps_runs_cache : CacheFrame keeps_runs.
Proof.
  split; [exact keeps_runs_frame | | |]; intros s x k u H; simpl; eauto.
Qed.

#[export] Instance keeps_runs_run : RunFrame keeps_runs.
Proof.
  split; [exact keeps_runs_cache |].
  intros s k' v k u H. simpl. eapply map_set_keeps_keys. exact H.
Qed.

Create HintDb frames.

#[export] Hint Resolve keeps_GET keeps_authorization keeps_fetchServers
  keeps_servers_empty : frames.

(** A frame proof by the shape of the computation; what is not a
    combinator of the monad is looked up among the proved frames. *)
Ltac frame_more :=
  repeat first
    [ frame_step
    | lazymatch goal with
      | |- keeps _ (modify _) =>
          apply keeps_modify; intros ?;
          first [ apply frame_config | apply frame_servers
                | apply frame_apps | apply frame_run_set ]
      end
    | solve [eauto with frames typeclass_instances] ].

Section CacheFrames.
Variable env : Env.
Context {R : Server -> Server -> Prop} {HR : CacheFrame R}.

Lemma keeps_readFileSync (path : string) : keeps R (readFileSync env path).
Proof. apply keeps_inW. Qed.

Lemma keeps_createTarGz (directory : value) : keeps R (createTarGz env directory).
Proof. apply keeps_inW. Qed.

Lemma keeps_unlinkSync (path : string) : keeps R (unlinkSync env path).
Proof. apply keeps_inW. Qed.

Lemma keeps_open (target : string) : keeps R (open env target).
Proof. apply keeps_inW. Qed.

Lemma keeps_ensureAuth : keeps R (ensureAuth env).
Proof. unfold ensureAuth. frame_more. Qed.

Lemma keeps_handleListServers : keeps R (handleListServers env).
Proof. unfold handleListServers. frame_more. Qed.

Lemma keeps_mapApps (server : value) (serverUrl : string) (appsList : list value) :
  keeps R (mapApps server serverUrl appsList).
Proof.
  induction appsList as [| app rest IH]; cbn [mapApps]; frame_more; try exact IH.
Qed.

Lemma keeps_listServerApps (server : value) (serverUrl : string)
      (allApps : list AppGroup) :
  keeps R (listServerApps env server serverUrl allApps).
Proof. unfold listServerApps. frame_more; try apply keeps_mapApps. Qed.

Lemma keeps_listAllApps (items : list value) :
  forall allApps, keeps R (listAllApps env items allApps).
Proof.
  induction items as [| server rest IH]; intros allApps; cbn [listAllApps];
    frame_more; first [apply keeps_listServerApps | apply IH].
Qed.

Lemma keeps_handleListApps : keeps R (handleListApps env).
Proof. unfold handleListApps. frame_more; try apply keeps_listAllApps. Qed.

Lemma keeps_getServerUrlForApp (appName : value) :
  keeps R (getServerUrlForApp env appName).
Proof. unfold getServerUrlForApp. frame_more; try apply keeps_handleListApps. Qed.

Lemma keeps_lookupApp (appName : value) : keeps R (lookupApp appName).
Proof. unfold lookupApp. frame_more. Qed.

Lemma keeps_handleGetAppInfo (appName : value) : keeps R (handleGetAppInfo env appName).
Proof.
  unfold handleGetAppInfo. frame_more;
    try first [apply keeps_getServerUrlForApp | apply keeps_lookupApp].
Qed.

Lemma keeps_handleOpenAppUrl (appName : value) : keeps R (handleOpenAppUrl env appName).
Proof.
  unfold handleOpenAppUrl. frame_more;
    try first [apply keeps_getServerUrlForApp | apply keeps_open].
Qed.

Lemma keeps_handleGetInstructions : keeps R (handleGetInstructions env).
Proof. unfold handleGetInstructions. frame_more; try apply keeps_readFileSync. Qed.

Lemma keeps_handleCheckAuthStatus : keeps R (handleCheckAuthStatus env).
Proof. unfold handleCheckAuthStatus. frame_more. Qed.
End CacheFrames.

Section RunFrames.
Variable env : Env.
Context {R : Server -> Server -> Prop} {HR : RunFrame R}.

Lemma keeps_rememberRun (run_id : value) (serverUrl : string) :
  keeps R (rememberRun run_id serverUrl).
Proof. unfold rememberRun. frame_more. Qed.

Lemma keeps_POST (u : string) (payload : M Server value) :
  keeps R payload -> keeps R (POST_json env u payload).
Proof. intros Hp. apply keeps_POST_json; [typeclasses eauto | exact Hp]. Qed.

Lemma keeps_handleDeployFromGit (args : value) : keeps R (handleDeployFromGit env args).
Proof.
  unfold handleDeployFromGit. frame_more;
    try first [ apply keeps_getServerUrlForApp | apply keeps_lookupApp
              | apply keeps_rememberRun
              | apply keeps_POST; frame_more ];
    try typeclasses eauto.
Qed.

Lemma keeps_handleDeployFromLocal (args : value) :
  keeps R (handleDeployFromLocal env args).
Proof.
  unfold handleDeployFromLocal. frame_more;
    try first [ apply keeps_getServerUrlForApp | apply keeps_lookupApp
              | apply keeps_rememberRun | apply keeps_createTarGz
              | apply keeps_readFileSync | apply keeps_unlinkSync
              | apply keeps_POST; frame_more ];
    try typeclasses eauto.
Qed.

Lemma keeps_probeServers (runId : value) (items : list value) :
  keeps R (probeServers env runId items).
Proof.
  induction items as [| server rest IH]; cbn [probeServers]; frame_more; try exact IH.
Qed.

Lemma keeps_getServerUrlForRun (runId : value) : keeps R (getServerUrlForRun env runId).
Proof.
  unfold getServerUrlForRun. frame_more; try apply keeps_probeServers;
    try typeclasses eauto.
Qed.

Lemma keeps_handleGetDeploymentStatus (runId : value) :
  keeps R (handleGetDeploymentStatus env runId).
Proof.
  unfold handleGetDeploymentStatus. frame_more; try apply keeps_getServerUrlForRun;
    try typeclasses eauto.
Qed.

Lemma keeps_rememberRuns (runs : list value) (serverUrl : string) :
  keeps R (rememberRuns runs serverUrl).
Proof.
  induction runs as [| run rest IH]; cbn [rememberRuns]; frame_more;
    try first [apply keeps_rememberRun | exact IH]; try typeclasses eauto.
Qed.

Lemma keeps_handleListDeploymentRuns (appName : value) :
  keeps R (handleListDeploymentRuns env appName).
Proof.
  unfold handleListDeploymentRuns. frame_more;
    try first [apply keeps_getServerUrlForApp | apply keeps_rememberRuns];
    try typeclasses eauto.
Qed.

(** Every operation of the dispatcher but [authenticate]. *)
Lemma keeps_dispatch (name : string) (args : value) :
  name <> "authenticate" -> keeps R (dispatch env name args).
Proof.
  intros Hname. unfold dispatch.
  destruct (name =? "get_instructions");
    [apply keeps_handleGetInstructions; typeclasses eauto |].
  destruct (name =? "authenticate") eqn:Hauth;
    [apply String.eqb_eq in Hauth; contradiction |].
  destruct (name =? "check_auth_status");
    [apply keeps_handleCheckAuthStatus; typeclasses eauto |].
  frame_more;
    try first [ apply keeps_ensureAuth | apply keeps_handleListServers
              | apply keeps_handleListApps | apply keeps_handleGetAppInfo
              | apply keeps_handleDeployFromGit | apply keeps_handleDeployFromLocal
              | apply keeps_handleGetDeploymentStatus
              | apply keeps_handleListDeploymentRuns | apply keeps_handleOpenAppUrl ];
    try typeclasses eauto.
Qed.
End RunFrames.

#[export] Instance keeps_urls_cache : CacheFrame keeps_urls.
Proof.
  split; [exact keeps_urls_frame | | |]; intros s x k u H Hu; simpl; exact H.
Qed.

Ltac use_frame L := apply L; try typeclasses eauto.

Section ReadOnly.
Variable env : Env.
Context {R : Server -> Server -> Prop} {HR : CacheFrame R}.

(** The operations that never write the run-to-server map. *)
Lemma keeps_dispatch_readonly (name : string) (args : value) :
  name <> "authenticate" ->
  name <> "deploy_from_git" ->
  name <> "deploy_from_local" ->
  name <> "get_deployment_status" ->
  name <> "list_deployment_runs" ->
  keeps R (dispatch env name args).
Proof.
  intros Hauth Hgit Hlocal Hstatus Hruns. unfold dispatch.
  destruct (name =? "get_instructions"); [use_frame keeps_handleGetInstructions |].
  destruct (name =? "authenticate") eqn:E1;
    [apply String.eqb_eq in E1; contradiction |].
  destruct (name =? "check_auth_status"); [use_frame keeps_handleCheckAuthStatus |].
  destruct (name =? "list_servers");
    [apply keeps_bind; [use_frame keeps_ensureAuth | intros ?; use_frame keeps_handleListServers] |].
  destruct (name =? "list_apps");
    [apply keeps_bind; [use_frame keeps_ensureAuth | intros ?; use_frame keeps_handleListApps] |].
  destruct (name =? "get_app_info");
    [apply keeps_bind; [use_frame keeps_ensureAuth | intros ?];
     apply keeps_bind; [apply keeps_lift | intros ?; use_frame keeps_handleGetAppInfo] |].
  destruct (name =? "deploy_from_git") eqn:E2;
    [apply String.eqb_eq in E2; contradiction |].
  destruct (name =? "deploy_from_local") eqn:E3;
    [apply String.eqb_eq in E3; contradiction |].
  destruct (name =? "get_deployment_status") eqn:E4;
    [apply String.eqb_eq in E4; contradiction |].
  destruct (name =? "list_deployment_runs") eqn:E5;
    [apply String.eqb_eq in E5; contradiction |].
  destruct (name =? "open_app_url");
    [apply keeps_bind; [use_frame keeps_ensureAuth | intros ?];
     apply keeps_bind; [apply keeps_lift | intros ?; use_frame keeps_handleOpenAppUrl] |].
  apply keeps_throw.
Qed.
End ReadOnly.

Section ProbeUrls.
Variable env : Env.
Variable runId : value.

(** A probe stores at most the probed run id, and only when the map has no
    usable URL for it: the other entries keep their URL. *)
Lemma probeServers_urls (items : list value) :
  forall s : Server,
    (forall u, map_get runId (runServerMap s) = Some u -> u = "") ->
    keeps_urls s (snd (probeServers env runId items s)).
Proof.
  induction items as [| server rest IH]; intros s Hnone.
  - apply frame_refl.
  - cbn [probeServers]. unfold bind at 1. unfold lift at 1.
    destruct (serverUrlOf server) as [serverUrl | e]; [| apply frame_refl].
    unfold bind at 1. unfold try_catch. unfold bind at 1.
    pose proof (keeps_GET env (R := only_world) (runUrl serverUrl runId) s) as Hget.
    destruct (GET env (runUrl serverUrl runId) s) as [[r | e] s1];
      cbn [snd] in Hget; destruct Hget as (_ & _ & _ & Hruns).
    + destruct (ok r).
      * unfold bind, modify, ret. cbn [snd].
        intros k u Hk Hu. cbn [runServerMap set_runServerMap]. rewrite Hruns.
        destruct (sameValueZero runId k) eqn:Hsame.
        -- apply sameValueZero_eq in Hsame. subst k.
           specialize (Hnone u Hk). contradiction.
        -- rewrite map_get_set_other; assumption.
      * unfold ret at 1.
        apply (frame_trans s s1).
        -- intros k u Hk Hu. rewrite Hruns. exact Hk.
        -- apply IH. rewrite Hruns. exact Hnone.
    + unfold ret at 1.
      apply (frame_trans s s1).
      * intros k u Hk Hu. rewrite Hruns. exact Hk.
      * apply IH. rewrite Hruns. exact Hnone.
Qed.

Lemma keeps_urls_getServerUrlForRun : keeps keeps_urls (getServerUrlForRun env runId).
Proof.
  intros s. unfold getServerUrlForRun.
  unfold bind at 1. unfold gets at 1.
  assert (Hmiss :
            (forall u, map_get runId (runServerMap s) = Some u -> u = "") ->
            keeps_urls s
              (snd ((empty <- servers_empty ;;
                     (if empty then
                        found <- fetchServers env ;;
                        modify (set_servers found)
                      else ret tt) ;;
                     ss <- gets servers ;;
                     items <- lift (iterate ss) ;;
                     hit <- probeServers env runId items ;;
                     match hit with
                     | Some serverUrl => ret serverUrl
                     | None => throw (Spec.run_not_found runId)
                     end) s))).
  { intros Hnone.
    unfold bind at 1.
    pose proof (keeps_servers_empty (R := same_runs) s) as H1.
    unfold same_runs in H1.
    destruct (servers_empty s) as [[empty | e] s1]; cbn [snd] in H1;
      [| intros k u Hk Hu; cbn [snd]; rewrite H1; exact Hk].
    unfold bind at 1.
    match goal with
    | |- context [(if empty then ?a else ?b) s1] =>
        set (pre := (if empty then a else b) s1) in *
    end.
    assert (H2 : runServerMap (snd pre) = runServerMap s1).
    { unfold pre. destruct empty; [| reflexivity].
      apply (@keeps_bind same_runs _ _ _ (fetchServers env)
               (fun found => modify (set_servers found))).
      - use_frame keeps_fetchServers.
      - intros found s'. reflexivity. }
    destruct pre as [[u0 | e] s2]; cbn [snd] in H2;
      [| intros k u Hk Hu; cbn [snd]; rewrite H2, H1; exact Hk].
    unfold bind at 1. unfold gets at 1.
    unfold bind at 1. unfold lift at 1.
    destruct (iterate (servers s2)) as [items | e];
      [| intros k u Hk Hu; cbn [snd]; rewrite H2, H1; exact Hk].
    unfold bind at 1.
    pose proof (probeServers_urls items s2) as Hprobe.
    assert (Hnone2 : forall u, map_get runId (runServerMap s2) = Some u -> u = "").
    { rewrite H2, H1. exact Hnone. }
    specialize (Hprobe Hnone2).
    destruct (probeServers env runId items s2) as [[hit | e] s3]; cbn [snd] in Hprobe.
    - assert (Hfinal : keeps_urls s s3).
      { intros k u Hk Hu. apply Hprobe; [rewrite H2, H1; exact Hk | exact Hu]. }
      destruct hit; exact Hfinal.
    - intros k u Hk Hu. cbn [snd]. apply Hprobe; [rewrite H2, H1; exact Hk | exact Hu]. }
  destruct (map_get runId (runServerMap s)) as [[| c rest] |] eqn:Hget.
  - apply Hmiss. intros u Hu. congruence.
  - apply frame_refl.
  - apply Hmiss. intros u Hu. discriminate.
Qed.

Lemma keeps_urls_handleGetDeploymentStatus :
  keeps keeps_urls (handleGetDeploymentStatus env runId).
Proof.
  unfold handleGetDeploymentStatus.
  apply keeps_bind; [apply keeps_urls_getServerUrlForRun | intros serverUrl].
  frame_more; try typeclasses eauto.
Qed.
End ProbeUrls.

(** ** What a probe may change *)

#[export] Instance only_run_frame (runId : value) : FrameRel (only_run runId).
Proof.
  split; unfold only_run.
  - intros s k Hk. reflexivity.
  - intros s1 s2 s3 H12 H23 k Hk. rewrite (H23 k Hk). exact (H12 k Hk).
  - intros s w k Hk. reflexivity.
Qed.

#[export] Instance only_run_cache (runId : value) : CacheFrame (only_run runId).
Proof.
  split; [exact (only_run_frame runId) | | |]; intros s x k Hk; reflexivity.
Qed.

Section ProbeOnly.
Variable env : Env.
Variable runId : value.

Lemma only_run_store (u : string) :
  keeps (only_run runId)
    (modify (fun s => set_runServerMap (map_set runId u (runServerMap s)) s)).
Proof.
  intros s k Hk. unfold modify. cbn [snd runServerMap set_runServerMap].
  apply map_get_set_other. exact Hk.
Qed.

Lemma only_run_probeServers (items : list value) :
  keeps (only_run runId) (probeServers env runId items).
Proof.
  induction items as [| server rest IH]; cbn [probeServers]; frame_more;
    try first [apply only_run_store | exact IH].
Qed.

Lemma only_run_getServerUrlForRun :
  keeps (only_run runId) (getServerUrlForRun env runId).
Proof.
  unfold getServerUrlForRun. frame_more; try apply only_run_probeServers.
Qed.

Lemma only_run_handleGetDeploymentStatus :
  keeps (only_run runId) (handleGetDeploymentStatus env runId).
Proof.
  unfold handleGetDeploymentStatus.
  apply keeps_bind; [apply only_run_getServerUrlForRun | intros serverUrl].
  frame_more.
Qed.
End ProbeOnly.

(** ** What the operations store in the run-to-server map *)

Lemma getProp_readable (v x : value) (k : string) :
  getProp v k = Ok x -> Spec.readable v = true.
Proof. destruct v; simpl; intros H; try discriminate; reflexivity. Qed.

Lemma getProp_again (v x : value) (k k' : string) :
  getProp v k = Ok x -> getProp v k' = Ok (Spec.prop v k').
Proof.
  intros H. apply readable_getProp. exact (getProp_readable v x k H).
Qed.

(** How a git deployment ends: it throws with the run-to-server map as it
    was, or it reports the run and has stored the server of the
    application under the run id, when the run id is truthy. *)
Lemma handleDeployFromGit_cases (env : Env) (args : value) (s : Server) :
  match fst (handleDeployFromGit env args s) with
  | Throw _ => runServerMap (snd (handleDeployFromGit env args s)) = runServerMap s
  | Ok t =>
      exists (u : string) (s1 : Server) (slug rid st : value),
        getServerUrlForApp env (Spec.prop args "app_name") s = (Ok u, s1)
        /\ t = TDeployStarted slug rid st (Spec.prop args "git_url")
                 (or_else (Spec.prop args "git_branch") (VStr "main"))
        /\ runServerMap (snd (handleDeployFromGit env args s))
           = (if truthy rid then map_set rid u (runServerMap s) else runServerMap s)
  end.
Proof.
  remember (handleDeployFromGit env args s) as run eqn:Hrun.
  unfold handleDeployFromGit in Hrun.
  unfold bind at 1 in Hrun. unfold lift at 1 in Hrun.
  destruct (getProp args "app_name") as [appName | e0] eqn:Happ;
    [| subst run; reflexivity].
  assert (HappName : Spec.prop args "app_name" = appName).
  { unfold Spec.prop. rewrite Happ. reflexivity. }
  pose proof (getProp_again args appName "app_name" "git_url" Happ) as Hgit.
  pose proof (getProp_again args appName "app_name" "git_branch" Happ) as Hbranch.
  pose proof (getProp_again args appName "app_name" "builder" Happ) as Hbuilder.
  rewrite Hgit, Hbranch, Hbuilder in Hrun.
  unfold bind at 1 in Hrun.
  pose proof (keeps_getServerUrlForApp env (R := same_runs) appName s) as H1.
  rewrite HappName.
  destruct (getServerUrlForApp env appName s) as [[u | e1] s1]; cbn [snd] in H1;
    [| subst run; exact H1].
  unfold bind at 1 in Hrun. unfold lookupApp at 1 in Hrun.
  unfold bind at 1 in Hrun. unfold gets at 1 in Hrun. unfold ret at 1 in Hrun.
  unfold bind at 1 in Hrun.
  match type of Hrun with
  | context [POST_json env ?url ?p s1] =>
      pose proof (keeps_POST_json env (R := same_runs) url p) as H2;
      destruct (POST_json env url p s1) as [[response | e2] s2] eqn:Hpost
  end.
all: assert (H12 : same_runs s1 s2)
    by (assert (Hk := H2 ltac:(frame) s1); rewrite Hpost in Hk; exact Hk).
  all: clear H2 Hpost; unfold same_runs in H1, H12.
  2: subst run; cbn [fst snd]; congruence.
  destruct (ok response); cbn [negb] in Hrun;
    [| subst run; cbn [fst snd throw]; congruence].
  unfold bind at 1 in Hrun. unfold inW, json_of, lift at 1 in Hrun.
  destruct (json response) as [data |]; [| subst run; cbn; congruence].
  unfold bind at 1 in Hrun. unfold lift at 1 in Hrun.
  destruct (unwrapped data) as [result | e3]; [| subst run; cbn; congruence].
  unfold bind at 1 in Hrun. unfold lift at 1 in Hrun.
  destruct (getProp result "run_id") as [rid | e4] eqn:Hrid;
    [| subst run; cbn; congruence].
  rewrite (getProp_again result rid "run_id" "status" Hrid) in Hrun.
  unfold rememberRun in Hrun.
  destruct (truthy rid) eqn:Hrid_truthy.
  - subst run. cbn. exists u, s1. do 3 eexists.
    split; [reflexivity |]. split; [reflexivity |].
    rewrite Hrid_truthy. congruence.
  - subst run. cbn. exists u, s1. do 3 eexists.
    split; [reflexivity |]. split; [reflexivity |].
    rewrite Hrid_truthy. congruence.
Qed.


(** A run id that maps to [u] still does after more run ids have been
    stored for [u]. *)
Lemma rememberRuns_keeps (u : string) (k : value) (runs : list value) :
  forall s : Server,
    map_get k (runServerMap s) = Some u ->
    map_get k (runServerMap (snd (rememberRuns runs u s))) = Some u.
Proof.
  induction runs as [| run rest IH]; intros s Hk; cbn [rememberRuns]; [exact Hk |].
  unfold bind at 1. unfold lift at 1.
  destruct (getProp run "run_id") as [rid | e]; [| exact Hk].
  unfold bind at 1. unfold rememberRun.
  destruct (truthy rid); [| apply IH; exact Hk].
  unfold modify at 1. apply IH. cbn [runServerMap set_runServerMap].
  destruct (sameValueZero rid k) eqn:Hsame.
  - apply map_get_set_same. exact Hsame.
  - rewrite map_get_set_other; assumption.
Qed.

Lemma rememberRuns_caches (u : string) (runs : list value) :
  forall s s' : Server,
    rememberRuns runs u s = (Ok tt, s') ->
    forall run rid : value,
      In run runs -> getProp run "run_id" = Ok rid ->
      truthy rid = true -> Spec.primitive rid = true ->
      map_get rid (runServerMap s') = Some u.
Proof.
  induction runs as [| x rest IH]; intros s s' Hrun run rid Hin Hrid Htruthy Hprim;
    [contradiction |].
  cbn [rememberRuns] in Hrun.
  unfold bind at 1 in Hrun. unfold lift at 1 in Hrun.
  destruct (getProp x "run_id") as [xid | e] eqn:Hxid; [| discriminate Hrun].
  unfold bind at 1 in Hrun.
  destruct (rememberRun xid u s) as [[[] | e] s1] eqn:Hone; [| discriminate Hrun].
  destruct Hin as [-> | Hin].
  - rewrite Hrid in Hxid. injection Hxid as <-.
    unfold rememberRun in Hone. rewrite Htruthy in Hone.
    unfold modify in Hone. injection Hone as <-.
    replace s' with (snd (rememberRuns rest u
                            (set_runServerMap (map_set rid u (runServerMap s)) s)))
      by (rewrite Hrun; reflexivity).
    apply rememberRuns_keeps. cbn [runServerMap set_runServerMap].
    apply map_get_set_same. exact Hprim.
  - exact (IH s1 s' Hrun run rid Hin Hrid Htruthy Hprim).
Qed.

(** One step of a run that is known to return, with the state kept. *)
Ltac run_step run Hrun H :=
  unfold bind at 1 in Hrun;
  lazymatch type of Hrun with
  | _ = match ?m ?s with _ => _ end =>
      let E := fresh "E" in
      destruct (m s) as [[? | ?] ?] eqn:E; [| subst run; discriminate H]
  end.


(** Steps of a run that is known to return, through the tests that throw. *)
Ltac run_steps run Hrun H :=
  repeat first
    [ run_step run Hrun H
    | lazymatch type of Hrun with
      | _ = (if ?b then throw _ else _) _ =>
          destruct b; [subst run; unfold throw in H; cbn [fst] in H; discriminate H |]
      end ].

(** A listing of runs that returns has stored, under the run id of each
    run it lists, the URL that was resolved for the application. *)
Lemma list_runs_stores (env : Env) (appName : value) (s : Server)
        (name : value) (shown : list value) :
  fst (handleListDeploymentRuns env appName s) = Ok (TRuns name shown) ->
  exists u : string,
    fst (getServerUrlForApp env appName s) = Ok u
    /\ forall run rid : value,
        In run shown -> getProp run "run_id" = Ok rid ->
        truthy rid = true -> Spec.primitive rid = true ->
        map_get rid (runServerMap (snd (handleListDeploymentRuns env appName s)))
        = Some u.
Proof.
  intros H.
  remember (handleListDeploymentRuns env appName s) as run eqn:Hrun.
  unfold handleListDeploymentRuns in Hrun.
  run_step run Hrun H. run_step run Hrun H.
  match type of Hrun with
  | context [negb (ok ?r)] =>
      destruct (negb (ok r)); [subst run; discriminate H |]
  end.
  do 3 run_step run Hrun H. cbv zeta in Hrun.
  run_step run Hrun H.
  match type of E3 with
  | lift (iterate ?v) _ = _ => set (runs := v) in *
  end.
  unfold lift in E3. unfold bind, lift in Hrun.
  destruct runs as [| | b | n | | str | l | fs]; cbn [iterate] in E3;
    try discriminate E3;
    cbn [getProp array_items String.eqb Ascii.eqb Bool.eqb] in Hrun;
    match type of Hrun with
    | context [is_num ?len 0] => destruct (is_num len 0)
    end;
    subst run; cbn [fst snd ret] in H |- *; try discriminate H.
  injection H as <- <-. injection E3 as <- <-. destruct a4.
  exists a. split; [reflexivity |].
  intros run rid Hin Hrid Htruthy Hprim.
  exact (rememberRuns_caches a l s3 s5 E4 run rid Hin Hrid Htruthy Hprim).
Qed.


(** A local deployment that is reported as started has stored the URL
    that was resolved for the application under the run id it reports. *)
Lemma handleDeployFromLocal_stores (env : Env) (args : value) (s : Server)
      (slug file size rid st : value) :
  fst (handleDeployFromLocal env args s)
  = Ok (TLocalDeployStarted slug file size rid st) ->
  truthy rid = true ->
  Spec.primitive rid = true ->
  exists u : string,
    fst (getServerUrlForApp env (Spec.prop args "app_name") s) = Ok u
    /\ map_get rid (runServerMap (snd (handleDeployFromLocal env args s))) = Some u.
Proof.
  intros H Hrid Hprim.
  remember (handleDeployFromLocal env args s) as run eqn:Hrun.
  unfold handleDeployFromLocal in Hrun.
  do 5 run_step run Hrun H.
  unfold lift in E. injection E as Happ <-.
  assert (HappName : Spec.prop args "app_name" = a).
  { unfold Spec.prop. rewrite Happ. reflexivity. }
  rewrite HappName, E0. exists a0. split; [reflexivity |].
  unfold try_finally in Hrun.
  match type of Hrun with
  | run = match ?body s4 with _ => _ end => remember (body s4) as brun eqn:Hbrun
  end.
  assert (Hb : fst brun = Ok (TLocalDeployStarted slug file size rid st)
               /\ runServerMap (snd run) = runServerMap (snd brun)).
  { pose proof (keeps_unlinkSync env (R := same_runs) a3 (snd brun)) as Hunlink.
    unfold same_runs in Hunlink.
    destruct brun as [[t | e] s5]; cbn [fst snd] in *;
      destruct (unlinkSync env a3 s5) as [[[] | e'] s6]; subst run;
      cbn [fst snd] in *; try discriminate H.
    split; [exact H | exact Hunlink]. }
  destruct Hb as [Hb Hmap]. rewrite Hmap. clear Hrun H Hmap run.
  run_steps brun Hbrun Hb.
  subst brun. unfold ret in Hb |- *. cbn [fst snd] in Hb |- *.
  injection Hb as _ _ _ -> _.
  unfold lift in E14, E15, E16.
  injection E16 as _ <-. injection E15 as _ <-. injection E14 as _ <-.
  unfold rememberRun in E13. rewrite Hrid in E13. unfold modify in E13.
  injection E13 as _ <-. cbn [runServerMap set_runServerMap].
  apply map_get_set_same. exact Hprim.
Qed.

Lemma keeps_handleToolCall (env : Env) (R : Server -> Server -> Prop)
      (HR : FrameRel R) (name : string) (args : value) :
  keeps R (dispatch env name args) -> keeps R (handleToolCall env name args).
Proof.
  intros Hd. unfold handleToolCall.
  apply keeps_try_catch.
  - apply keeps_bind; [exact Hd | intros t; apply keeps_ret].
  - intros e. apply keeps_ret.
Qed.

(** A failed [authenticate] leaves the caches alone. *)
Lemma failed_authenticate_same (env : Env) (s : Server) (e : Error) :
  fst (DeviceAuthFlow.authenticate env (authFlow_apiUrl env) (world s)) = Throw e ->
  runServerMap (snd (handleToolCall env "authenticate" VNull s)) = runServerMap s
  /\ forall args, handleToolCall env "authenticate" args s
                  = handleToolCall env "authenticate" VNull s.
Proof.
  intros Hfail. unfold handleToolCall, dispatch. cbn [String.eqb Ascii.eqb Bool.eqb].
  unfold handleAuthenticate, try_catch. unfold bind at 1 2. unfold bind at 1 2.
  unfold inW.
  destruct (DeviceAuthFlow.authenticate env (authFlow_apiUrl env) (world s))
    as [[cfg | e'] w]; [discriminate |].
  split; [reflexivity | intros args; reflexivity].
Qed.

(** A tool behind [ensureAuth] that answers with a result: the handler
    returned it, from the state [ensureAuth] left, and the state after the
    call is the one the handler left. *)
Lemma gated_call (env : Env) (K : M Server ToolText) (s : Server) (t : ToolText) :
  fst (try_catch (r <- (ensureAuth env ;; K) ;; ret (Content r))
         (fun error => ret (ErrorContent error)) s) = Ok (Content t) ->
  fst (K (snd (ensureAuth env s))) = Ok t
  /\ snd (try_catch (r <- (ensureAuth env ;; K) ;; ret (Content r))
            (fun error => ret (ErrorContent error)) s)
     = snd (K (snd (ensureAuth env s))).
Proof.
  unfold try_catch, bind, ret.
  destruct (ensureAuth env s) as [[[] | e] s0]; cbn [fst snd]; [| discriminate].
  destruct (K s0) as [[t' | e] s1]; cbn [fst snd]; [| discriminate].
  intros H. injection H as ->. split; reflexivity.
Qed.




(* ===================================================================== *)
(** * The gateway, the device flow and the handlers, further *)
(* ===================================================================== *)

(** ** The API gateway: targets and failures *)

Lemma unwrap_world (r : Response) (w : World) :
  snd (CitizenAPIClient.unwrap r w) = w.
Proof.
  unfold CitizenAPIClient.unwrap.
  destruct (negb (ok r)); [reflexivity |].
  unfold bind, json_of, lift, ret.
  destruct (json r) as [b |]; [| reflexivity].
  destruct (getProp b "data"); reflexivity.
Qed.

(** X1: With no server URL set and no base URL, [get], [post] and [uploadFile]
    fail with the configuration error before any call is made. *)
Theorem gateway_needs_url (env : Env) (c : CitizenAPIClient.Client)
        (path file filename : string) (payload : value) (w : World) :
  CitizenAPIClient.serverUrl c = None \/ CitizenAPIClient.serverUrl c = Some "" ->
  CitizenAPIClient.baseUrl c = "" ->
  let e := ErrMsg "No Citizen server URL configured. Please run list_apps first to discover server." in
  CitizenAPIClient.get env c path w = (Throw e, w)
  /\ CitizenAPIClient.post env c path payload w = (Throw e, w)
  /\ CitizenAPIClient.uploadFile env c path file filename w = (Throw e, w).
Proof.
  intros Hserver Hbase.
  assert (Hurl : CitizenAPIClient.getCitizenBaseUrl c
                 = Throw (ErrMsg "No Citizen server URL configured. Please run list_apps first to discover server.")).
  { unfold CitizenAPIClient.getCitizenBaseUrl.
    destruct Hserver as [-> | ->]; rewrite Hbase; reflexivity. }
  unfold CitizenAPIClient.get, CitizenAPIClient.post, CitizenAPIClient.uploadFile.
  unfold bind, lift. rewrite Hurl. repeat split.
Qed.

Lemma gateway_needs_url_witness :
  let c := CitizenAPIClient.make (Examples.env_at 0 Examples.offline)
             (Examples.bundle 1000) None in
  let w := Examples.world_with FAbsent in
  let e := ErrMsg "No Citizen server URL configured. Please run list_apps first to discover server." in
  CitizenAPIClient.get (Examples.env_at 0 Examples.offline) c "/apps" w = (Throw e, w)
  /\ CitizenAPIClient.post (Examples.env_at 0 Examples.offline) c "/apps" VNull w
     = (Throw e, w)
  /\ CitizenAPIClient.uploadFile (Examples.env_at 0 Examples.offline) c "/apps"
       "bytes" "a.tar.gz" w
     = (Throw e, w).
Proof.
  exact (gateway_needs_url (Examples.env_at 0 Examples.offline)
           (CitizenAPIClient.make (Examples.env_at 0 Examples.offline)
              (Examples.bundle 1000) None)
           "/apps" "bytes" "a.tar.gz" VNull (Examples.world_with FAbsent)
           (or_introl eq_refl) eq_refl).
Defined.

(** X2: A response that is not 2xx makes every gateway operation fail with an
    error that carries the numeric status and the raw body text, after
    exactly one call.  The token is one the header can print and the URLs
    requested are absolute: [get], [post] and [uploadFile] address the
    configured server, [delete] the base URL. *)
Theorem gateway_non_2xx (env : Env) (c : CitizenAPIClient.Client)
        (path base file filename : string) (hs : list (string * string))
        (payload : value) (w : World) (r : Response) :
  CitizenAPIClient.getCitizenBaseUrl c = Ok base ->
  CitizenAPIClient.getHeaders c = Ok hs ->
  Spec.printable (Spec.prop (CitizenAPIClient.config c) "access_token") = true ->
  Spec.http_url (base ++ path) = true ->
  Spec.http_url (CitizenAPIClient.baseUrl c ++ path) = true ->
  (forall req, net env (List.length (calls w)) req = Some r) ->
  ok r = false ->
  let failed := "API request failed: " ++ string_of_Z (World.status r) ++ " " ++ text r in
  let upload := "File upload failed: " ++ string_of_Z (World.status r) ++ " " ++ text r in
  fst (CitizenAPIClient.get env c path w) = Throw (ErrMsg failed)
  /\ fst (CitizenAPIClient.post env c path payload w) = Throw (ErrMsg failed)
  /\ fst (CitizenAPIClient.delete env c path w) = Throw (ErrMsg failed)
  /\ fst (CitizenAPIClient.uploadFile env c path file filename w) = Throw (ErrMsg upload)
  /\ List.length (calls (snd (CitizenAPIClient.get env c path w)))
     = S (List.length (calls w))
  /\ List.length (calls (snd (CitizenAPIClient.post env c path payload w)))
     = S (List.length (calls w))
  /\ List.length (calls (snd (CitizenAPIClient.delete env c path w)))
     = S (List.length (calls w))
  /\ List.length (calls (snd (CitizenAPIClient.uploadFile env c path file filename w)))
     = S (List.length (calls w)).
Proof.
  intros Hbase Hhs _ _ _ Hnet Hok. cbv zeta.
  assert (Htoken : exists token, getProp (CitizenAPIClient.config c) "access_token" = Ok token).
  { unfold CitizenAPIClient.getHeaders in Hhs.
    destruct (getProp (CitizenAPIClient.config c) "access_token") as [t | e];
      [eauto | discriminate]. }
  destruct Htoken as [token Htoken].
  unfold CitizenAPIClient.get, CitizenAPIClient.post, CitizenAPIClient.delete,
    CitizenAPIClient.uploadFile, CitizenAPIClient.unwrap, fetch.
  unfold bind, lift, throw. rewrite Hbase, Hhs, Htoken, !Hnet, Hok. cbn [negb fst snd].
  repeat split; cbn [calls add_call]; rewrite length_app; simpl; lia.
Qed.

Lemma gateway_non_2xx_witness :
  let env := Examples.env_at 0
               (fun _ _ => Some {| World.status := 403; statusText := "Forbidden";
                                   text := "role too low"; json := None |}) in
  let w := Examples.world_with FAbsent in
  fst (CitizenAPIClient.get env Examples.based_client "/apps" w)
  = Throw (ErrMsg "API request failed: 403 role too low")
  /\ fst (CitizenAPIClient.post env Examples.based_client "/apps" VNull w)
     = Throw (ErrMsg "API request failed: 403 role too low")
  /\ fst (CitizenAPIClient.delete env Examples.based_client "/apps" w)
     = Throw (ErrMsg "API request failed: 403 role too low")
  /\ fst (CitizenAPIClient.uploadFile env Examples.based_client "/apps" "bytes"
            "a.tar.gz" w)
     = Throw (ErrMsg "File upload failed: 403 role too low")
  /\ List.length (calls (snd (CitizenAPIClient.get env Examples.based_client "/apps" w)))
     = 1%nat
  /\ List.length (calls (snd (CitizenAPIClient.post env Examples.based_client "/apps"
                                VNull w))) = 1%nat
  /\ List.length (calls (snd (CitizenAPIClient.delete env Examples.based_client "/apps"
                                w))) = 1%nat
  /\ List.length (calls (snd (CitizenAPIClient.uploadFile env Examples.based_client
                                "/apps" "bytes" "a.tar.gz" w))) = 1%nat.
Proof.
  exact (gateway_non_2xx
           (Examples.env_at 0
              (fun _ _ => Some {| World.status := 403; statusText := "Forbidden";
                                  text := "role too low"; json := None |}))
           Examples.based_client "/apps" "https://s1.example.com" "bytes" "a.tar.gz"
           [("Authorization", "Bearer tok"); ("Content-Type", "application/json")]
           VNull (Examples.world_with FAbsent)
           {| World.status := 403; statusText := "Forbidden";
              text := "role too low"; json := None |}
           eq_refl eq_refl eq_refl eq_refl eq_refl (fun _ => eq_refl) eq_refl).
Defined.

(** X3: Where the requests go: once a server URL is set, [get], [post] and
    [uploadFile] address it, whatever the base URL; [delete] still addresses
    the base URL.  The token is one the header can print and the URLs
    requested are absolute; the call is made whether or not the network
    answers. *)
Theorem gateway_targets (env : Env) (c : CitizenAPIClient.Client)
        (u path file filename : string) (token payload : value) (w : World) :
  u <> "" ->
  Spec.http_url (u ++ path) = true ->
  Spec.http_url (CitizenAPIClient.baseUrl c ++ path) = true ->
  getProp (CitizenAPIClient.config c) "access_token" = Ok token ->
  Spec.printable token = true ->
  let c' := CitizenAPIClient.setServerUrl u c in
  let bearer := ("Authorization", "Bearer " ++ toString token) in
  let hs := [bearer; ("Content-Type", "application/json")] in
  let get_req := {| method := "GET"; url := u ++ path; headers := hs;
                    body := NoBody |} in
  let post_req := {| method := "POST"; url := u ++ path; headers := hs;
                     body := JsonBody payload |} in
  let upload_req := {| method := "POST"; url := u ++ path; headers := [bearer];
                       body := FormBody file filename |} in
  let delete_req := {| method := "DELETE"; url := CitizenAPIClient.baseUrl c ++ path;
                       headers := hs; body := NoBody |} in
  calls (snd (CitizenAPIClient.get env c' path w)) = (calls w ++ [get_req])%list
  /\ calls (snd (CitizenAPIClient.post env c' path payload w))
     = (calls w ++ [post_req])%list
  /\ calls (snd (CitizenAPIClient.uploadFile env c' path file filename w))
     = (calls w ++ [upload_req])%list
  /\ calls (snd (CitizenAPIClient.delete env c' path w))
     = (calls w ++ [delete_req])%list.
Proof.
  intros Hu _ _ Htoken _. cbv zeta.
  assert (Hbase : CitizenAPIClient.getCitizenBaseUrl (CitizenAPIClient.setServerUrl u c)
                  = Ok u).
  { unfold CitizenAPIClient.getCitizenBaseUrl. cbn [CitizenAPIClient.serverUrl
      CitizenAPIClient.setServerUrl].
    destruct (String.eqb_spec u ""); [contradiction | reflexivity]. }
  unfold CitizenAPIClient.get, CitizenAPIClient.post, CitizenAPIClient.delete,
    CitizenAPIClient.uploadFile, CitizenAPIClient.getHeaders.
  cbn [CitizenAPIClient.config CitizenAPIClient.setServerUrl CitizenAPIClient.baseUrl].
  unfold bind at 1 2 3 4. unfold lift at 1 2 3 4.
  rewrite Hbase, Htoken.
  repeat split.
  - unfold bind, lift, fetch. destruct (net env _ _) as [r |]; [| reflexivity].
    rewrite unwrap_world. reflexivity.
  - unfold bind, lift, fetch. destruct (net env _ _) as [r |]; [| reflexivity].
    rewrite unwrap_world. reflexivity.
  - unfold bind, json_of, lift, fetch, throw, ret.
    destruct (net env _ _) as [r |]; [| reflexivity].
    destruct (negb (ok r)); [reflexivity |].
    destruct (json r) as [b |]; [| reflexivity].
    destruct (getProp b "data"); reflexivity.
  - unfold bind, lift, fetch. destruct (net env _ _) as [r |]; [| reflexivity].
    rewrite unwrap_world. reflexivity.
Qed.

Lemma gateway_targets_witness :
  let env := Examples.env_at 0 Examples.offline in
  let c := CitizenAPIClient.setServerUrl "https://s1.example.com"
             (CitizenAPIClient.make env (Examples.bundle 1000)
                (Some "https://old.example.com")) in
  let hs := [("Authorization", "Bearer tok"); ("Content-Type", "application/json")] in
  calls (snd (CitizenAPIClient.get env c "/apps" (Examples.world_with FAbsent)))
  = [{| method := "GET"; url := "https://s1.example.com/apps"; headers := hs;
        body := NoBody |}]
  /\ calls (snd (CitizenAPIClient.delete env c "/apps" (Examples.world_with FAbsent)))
     = [{| method := "DELETE"; url := "https://old.example.com/apps"; headers := hs;
           body := NoBody |}].
Proof.
  cbv zeta.
  destruct (gateway_targets (Examples.env_at 0 Examples.offline)
              (CitizenAPIClient.make (Examples.env_at 0 Examples.offline)
                 (Examples.bundle 1000) (Some "https://old.example.com"))
              "https://s1.example.com" "/apps" "bytes" "a.tar.gz" (VStr "tok") VNull
              (Examples.world_with FAbsent) ltac:(discriminate) eq_refl eq_refl
              eq_refl eq_refl)
    as (Hget & _ & _ & Hdelete).
  split; [exact Hget | exact Hdelete].
Defined.

(** ** The credential store *)

(** [loadConfig] returns, and what it returns is [null] or the stored
    value; it makes no call. *)
Lemma loadConfig_returns (env : Env) (w : World) :
  exists v,
    fst (DeviceAuthFlow.loadConfig env w) = Ok v
    /\ (v = VNull \/ configFile w = FText (Some v))
    /\ calls (snd (DeviceAuthFlow.loadConfig env w)) = calls w.
Proof.
  unfold DeviceAuthFlow.loadConfig, now, try_catch, bind, gets, lift, log, modify, ret.
  destruct (configFile w) as [| | [cfg |]] eqn:Hfile;
    try solve [exists VNull; cbn; auto].
  destruct (getProp cfg "expires_at") as [x | e]; [| exists VNull; cbn; auto].
  destruct (DeviceAuthFlow.later_than env _ x); [exists VNull | exists cfg]; cbn; auto.
Qed.

(** X4: [loadConfig] never throws, makes no call and writes nothing.  It
    returns [null] when the file is absent, unreadable or not JSON, and
    otherwise either [null] or the stored value itself. *)
Theorem loadConfig_safe (env : Env) (w : World) :
  exists v,
    fst (DeviceAuthFlow.loadConfig env w) = Ok v
    /\ (v = VNull \/ configFile w = FText (Some v))
    /\ calls (snd (DeviceAuthFlow.loadConfig env w)) = calls w
    /\ configFile (snd (DeviceAuthFlow.loadConfig env w)) = configFile w.
Proof.
  unfold DeviceAuthFlow.loadConfig, now, try_catch, bind, gets, lift, log, modify, ret.
  destruct (configFile w) as [| | [cfg |]] eqn:Hfile.
  - exists VNull. cbn. auto.
  - exists VNull. cbn. auto.
  - destruct (getProp cfg "expires_at") as [x | e].
    + destruct (DeviceAuthFlow.later_than env _ x).
      * exists VNull. cbn. auto.
      * exists cfg. cbn. auto.
    + exists VNull. cbn. auto.
  - exists VNull. cbn. auto.
Qed.

(** An induction principle that reaches inside arrays and objects. *)
Section ValueInduction.
Variable P : value -> Prop.
Hypothesis Hundef : P VUndef.
Hypothesis Hnull : P VNull.
Hypothesis Hbool : forall b, P (VBool b).
Hypothesis Hnum : forall n, P (VNum n).
Hypothesis Hnan : P VNaN.
Hypothesis Hstr : forall s, P (VStr s).
Hypothesis Harr : forall l, Forall P l -> P (VArr l).
Hypothesis Hobj : forall fs, Forall (fun kv => P (snd kv)) fs -> P (VObj fs).

Lemma value_deep_ind : forall v : value, P v.
Proof.
  refine (fix deep (v : value) : P v :=
            match v with
            | VUndef => Hundef
            | VNull => Hnull
            | VBool b => Hbool b
            | VNum n => Hnum n
            | VNaN => Hnan
            | VStr s => Hstr s
            | VArr l =>
                Harr l ((fix go (l : list value) : Forall P l :=
                           match l with
                           | [] => Forall_nil P
                           | x :: rest => Forall_cons x (deep x) (go rest)
                           end) l)
            | VObj fs =>
                Hobj fs ((fix go (fs : list (string * value))
                            : Forall (fun kv => P (snd kv)) fs :=
                            match fs with
                            | [] => Forall_nil _
                            | kv :: rest => Forall_cons kv (deep (snd kv)) (go rest)
                            end) fs)
            end).
Qed.
End ValueInduction.

(** What [JSON.stringify] writes in full is read back as it was. *)
Lemma jsonRoundTrip_clean (v : value) :
  Spec.json_clean v = true -> jsonRoundTrip v = v.
Proof.
  induction v as [| | b | n | | s | l IH | fs IH] using value_deep_ind;
    intros Hclean; try reflexivity; try discriminate.
  - simpl in *. f_equal.
    induction l as [| x rest IHl]; [reflexivity |].
    simpl in Hclean. apply andb_prop in Hclean. destruct Hclean as [Hx Hrest].
    inversion IH as [| ? ? Px Prest]; subst.
    simpl. rewrite (IHl Prest Hrest).
    rewrite <- (Px Hx) at 2.
    destruct x; try reflexivity; discriminate.
  - simpl in *. f_equal.
    induction fs as [| [k x] rest IHfs]; [reflexivity |].
    apply andb_prop in Hclean. destruct Hclean as [Hx Hrest].
    inversion IH as [| ? ? Px Prest]; subst. simpl in Px.
    rewrite (IHfs Prest Hrest).
    destruct x; try discriminate; try reflexivity; rewrite (Px Hx); reflexivity.
Qed.

(** X5: Save, then load: a bundle that [JSON.stringify] writes in full and
    that has not expired when it is read comes back as it was saved. *)
Theorem save_then_load (env : Env) (c : value) (e : Z) (w : World) :
  Spec.json_clean c = true ->
  getProp c "expires_at" = Ok (VNum e) ->
  write_ok env (List.length (io w)) = true ->
  (clock env (S (List.length (io w))) <= e)%Z ->
  fst ((DeviceAuthFlow.saveConfig env c ;; DeviceAuthFlow.loadConfig env) w) = Ok c.
Proof.
  intros Hclean Hexp Hwrite Hclock.
  unfold bind at 1. unfold DeviceAuthFlow.saveConfig. rewrite Hwrite.
  rewrite (jsonRoundTrip_clean c Hclean).
  rewrite (loadConfig_bundle env
             (set_configFile (FText (Some c)) (add_io (IoWriteConfig c) w))
             c e eq_refl Hexp).
  cbn [io add_io set_configFile]. rewrite length_app. cbn [List.length].
  replace (List.length (io w) + 1)%nat with (S (List.length (io w))) by lia.
  destruct (Z.ltb_spec e (clock env (S (List.length (io w))))); [lia | reflexivity].
Qed.

Lemma save_then_load_witness :
  fst ((DeviceAuthFlow.saveConfig (Examples.env_at 999 Examples.offline)
          (Examples.bundle 1000) ;;
        DeviceAuthFlow.loadConfig (Examples.env_at 999 Examples.offline))
         (Examples.world_with FAbsent))
  = Ok (Examples.bundle 1000).
Proof.
  apply (save_then_load (Examples.env_at 999 Examples.offline)
           (Examples.bundle 1000) 1000%Z (Examples.world_with FAbsent)).
  - reflexivity.
  - reflexivity.
  - reflexivity.
  - simpl. lia.
Defined.

(** ** The device flow, poll by poll *)

Section PollSteps.
Variable env : Env.
Variable apiUrl : string.
Variable device_code interval : value.

(** [k] polls that report a state that is not terminal are [k] turns of
    the loop: [k] sleeps, [k] status requests, nothing on the console, the
    credential file as it was. *)
Lemma poll_prefix (k : nat) :
  forall (fuel attempts : nat) (w : World),
    (forall n req,
        (List.length (calls w) <= n < List.length (calls w) + k)%nat ->
        exists r, net env n req = Some r /\ Spec.non_terminal r = true) ->
    (k <= fuel)%nat ->
    (attempts + k <= DeviceAuthFlow.maxAttempts)%nat ->
    exists w',
      DeviceAuthFlow.poll env apiUrl fuel device_code interval attempts w
      = DeviceAuthFlow.poll env apiUrl (fuel - k) device_code interval (attempts + k) w'
      /\ calls w'
         = (calls w ++ repeat (DeviceAuthFlow.statusRequest apiUrl device_code) k)%list
      /\ io w' = (io w ++ repeat (IoSleep interval) k)%list
      /\ console w' = console w
      /\ configFile w' = configFile w.
Proof.
  induction k as [| k IH]; intros fuel attempts w Hnet Hfuel Hmax.
  - exists w. rewrite Nat.sub_0_r, Nat.add_0_r. cbn [repeat]. rewrite !app_nil_r.
    repeat split.
  - destruct fuel as [| fuel]; [lia |].
    rewrite poll_unfold.
    destruct (Nat.ltb_spec attempts DeviceAuthFlow.maxAttempts) as [Hlt | Hge]; [| lia].
    unfold bind at 1. unfold sleep at 1, modify at 1.
    unfold bind at 1. unfold fetch at 1.
    destruct (Hnet (List.length (calls (add_io (IoSleep interval) w)))
                (DeviceAuthFlow.statusRequest apiUrl device_code)) as (r & Hr & Hpending).
    { cbn [calls add_io]. lia. }
    rewrite Hr.
    unfold Spec.non_terminal, Spec.polled_status in Hpending.
    destruct (ok r); [| discriminate]. cbn [negb].
    unfold json_of, lift, bind.
    destruct (json r) as [body |]; [| discriminate].
    destruct (getProp body "data") as [data | e]; [| discriminate].
    destruct (getProp data "status") as [st | e]; [| discriminate].
    cbn [andb] in Hpending.
    destruct (is_str st "authorized"); [discriminate |].
    destruct (is_str st "expired"); [discriminate |].
    destruct (is_str st "denied"); [discriminate |].
    destruct (IH fuel (S attempts)
                (add_call (DeviceAuthFlow.statusRequest apiUrl device_code)
                   (add_io (IoSleep interval) w))) as (w' & Hrun & Hcalls & Hio & Hlog & Hfile).
    { intros n req Hn. apply Hnet.
      cbn [calls add_call add_io] in Hn. rewrite length_app in Hn. cbn [List.length] in Hn.
      lia. }
    { lia. }
    { lia. }
    exists w'. split.
    { rewrite Hrun. cbn [Nat.sub].
      replace (S attempts + k)%nat with (attempts + S k)%nat by lia. reflexivity. }
    rewrite Hcalls, Hio, Hlog, Hfile. cbn [calls io console configFile add_call add_io repeat].
    rewrite <- !app_assoc. repeat split.
Qed.

(** The turn of the loop in which the provider reports authorized. *)
Lemma poll_authorized (fuel attempts : nat) (w : World) (r : Response) (st : value) :
  (attempts < DeviceAuthFlow.maxAttempts)%nat ->
  net env (List.length (calls w)) (DeviceAuthFlow.statusRequest apiUrl device_code)
  = Some r ->
  ok r = true ->
  Spec.polled_status r = Some st ->
  is_str st "authorized" = true ->
  DeviceAuthFlow.poll env apiUrl (S fuel) device_code interval attempts w
  = (Ok attempts,
     add_log LogAuthorized
       (add_call (DeviceAuthFlow.statusRequest apiUrl device_code)
          (add_io (IoSleep interval) w))).
Proof.
  intros Hlt Hnet Hok Hst Hauth.
  rewrite poll_unfold.
  destruct (Nat.ltb_spec attempts DeviceAuthFlow.maxAttempts); [| lia].
  unfold bind at 1. unfold sleep at 1, modify at 1.
  unfold bind at 1. unfold fetch at 1. cbn [calls add_io]. rewrite Hnet, Hok. cbn [negb].
  unfold Spec.polled_status in Hst.
  unfold json_of, lift, bind, log, modify, ret.
  destruct (json r) as [body |]; [| discriminate].
  destruct (getProp body "data") as [data | e]; [| discriminate].
  destruct (getProp data "status") as [st' | e]; [| discriminate].
  injection Hst as ->. rewrite Hauth. reflexivity.
Qed.

(** The turn of the loop in which the provider reports expired or
    denied. *)
Lemma poll_refused (fuel attempts : nat) (w : World) (r : Response) (st : value) :
  (attempts < DeviceAuthFlow.maxAttempts)%nat ->
  net env (List.length (calls w)) (DeviceAuthFlow.statusRequest apiUrl device_code)
  = Some r ->
  ok r = true ->
  Spec.polled_status r = Some st ->
  is_str st "authorized" = false ->
  DeviceAuthFlow.poll env apiUrl (S fuel) device_code interval attempts w
  = (if is_str st "expired"
     then Throw (ErrMsg "Authorization expired. Please try again.")
     else if is_str st "denied"
          then Throw (ErrMsg "Authorization denied by user.")
          else fst (DeviceAuthFlow.poll env apiUrl fuel device_code interval (S attempts)
                      (add_call (DeviceAuthFlow.statusRequest apiUrl device_code)
                         (add_io (IoSleep interval) w))),
     if is_str st "expired" || is_str st "denied"
     then add_call (DeviceAuthFlow.statusRequest apiUrl device_code)
            (add_io (IoSleep interval) w)
     else snd (DeviceAuthFlow.poll env apiUrl fuel device_code interval (S attempts)
                 (add_call (DeviceAuthFlow.statusRequest apiUrl device_code)
                    (add_io (IoSleep interval) w)))).
Proof.
  intros Hlt Hnet Hok Hst Hauth.
  rewrite poll_unfold.
  destruct (Nat.ltb_spec attempts DeviceAuthFlow.maxAttempts); [| lia].
  unfold bind at 1. unfold sleep at 1, modify at 1.
  unfold bind at 1. unfold fetch at 1. cbn [calls add_io]. rewrite Hnet, Hok. cbn [negb].
  unfold Spec.polled_status in Hst.
  unfold json_of, lift, bind, throw.
  destruct (json r) as [body |]; [| discriminate].
  destruct (getProp body "data") as [data | e]; [| discriminate].
  destruct (getProp data "status") as [st' | e]; [| discriminate].
  injection Hst as ->. rewrite Hauth.
  destruct (is_str st "expired"); [reflexivity |].
  destruct (is_str st "denied"); [reflexivity |].
  cbn [orb].
  destruct (DeviceAuthFlow.poll env apiUrl fuel device_code interval (S attempts) _);
    reflexivity.
Qed.
End PollSteps.

(** The start of a flow whose init call is answered: up to the poll loop. *)
Ltac flow_start Hinit Hok Hjson Hdata Hd :=
  unfold DeviceAuthFlow.authenticate;
  unfold bind at 1; unfold fetch at 1; rewrite Hinit, Hok; cbn [negb];
  unfold bind at 1; unfold json_of at 1, lift at 1; rewrite Hjson;
  unfold bind at 1; unfold lift at 1; rewrite Hdata;
  unfold bind at 1; unfold lift at 1; rewrite (readable_getProp _ "device_code" Hd);
  unfold bind at 1; unfold lift at 1; rewrite (readable_getProp _ "user_code" Hd);
  unfold bind at 1; unfold lift at 1;
  rewrite (readable_getProp _ "verification_url_complete" Hd);
  unfold bind at 1; unfold lift at 1; rewrite (readable_getProp _ "interval" Hd);
  do 4 (unfold bind at 1; unfold log at 1, modify at 1);
  unfold bind at 1.



Lemma is_str_eq (v : value) (s : string) : is_str v s = true -> v = VStr s.
Proof.
  destruct v; simpl; try discriminate. intros H. apply String.eqb_eq in H. congruence.
Qed.

(** X7: A flow in which the provider reports expired or denied at poll [k + 1]
    fails with the matching error.  The token exchange is never called and
    the credential file is as it was.  The codes, the URL and the interval
    of the init payload are printable, and the provider's URL is absolute. *)
Theorem authenticate_refused (env : Env) (apiUrl : string) (w : World) (k : nat)
        (r0 ra : Response) (b0 d st : value) (message : string) :
  net env (List.length (calls w)) (DeviceAuthFlow.initRequest apiUrl) = Some r0 ->
  ok r0 = true -> json r0 = Some b0 -> getProp b0 "data" = Ok d ->
  Spec.readable d = true ->
  Spec.init_printable d = true ->
  Spec.http_url apiUrl = true ->
  (k < 180)%nat ->
  (forall n req,
      (List.length (calls w) < n <= List.length (calls w) + k)%nat ->
      exists r, net env n req = Some r /\ Spec.non_terminal r = true) ->
  (forall req, net env (List.length (calls w) + k + 1) req = Some ra) ->
  ok ra = true -> Spec.polled_status ra = Some st ->
  (st = VStr "expired" /\ message = "Authorization expired. Please try again.")
  \/ (st = VStr "denied" /\ message = "Authorization denied by user.") ->
  exists w',
    DeviceAuthFlow.authenticate env apiUrl w = (Throw (ErrMsg message), w')
    /\ configFile w' = configFile w
    /\ calls w'
       = (calls w ++ DeviceAuthFlow.initRequest apiUrl
            :: repeat (DeviceAuthFlow.statusRequest apiUrl (Spec.prop d "device_code"))
                 (S k))%list.
Proof.
  intros Hinit Hok Hjson Hdata Hd _ _ Hk Hpending Hra Hoka Hst Hterminal.
  flow_start Hinit Hok Hjson Hdata Hd.
  match goal with
  | |- context [DeviceAuthFlow.poll env apiUrl _ ?dc ?iv 0 ?w1] =>
      destruct (poll_prefix env apiUrl dc iv k DeviceAuthFlow.maxAttempts 0 w1)
        as (w2 & Hrun & Hcalls & Hio & Hlog & Hfile)
  end.
  { intros n req Hn. apply Hpending.
    cbn [calls add_call add_log] in Hn. rewrite length_app in Hn. cbn [List.length] in Hn.
    lia. }
  { unfold DeviceAuthFlow.maxAttempts. lia. }
  { unfold DeviceAuthFlow.maxAttempts. lia. }
  rewrite Hrun. cbn [Nat.add].
  replace (DeviceAuthFlow.maxAttempts - k)%nat
    with (S (DeviceAuthFlow.maxAttempts - S k))
    by (unfold DeviceAuthFlow.maxAttempts; lia).
  cbn [calls io configFile add_call add_log] in Hcalls, Hio, Hfile.
  assert (Hlen2 : List.length (calls w2) = (List.length (calls w) + k + 1)%nat).
  { rewrite Hcalls, !length_app, repeat_length. cbn [List.length]. lia. }
  rewrite (poll_refused env apiUrl _ _ _ k w2 ra st);
    [ | unfold DeviceAuthFlow.maxAttempts; lia | rewrite Hlen2; apply Hra
      | exact Hoka | exact Hst
      | destruct Hterminal as [[-> _] | [-> _]]; reflexivity ].
  assert (Hshape : (calls w2 ++ [DeviceAuthFlow.statusRequest apiUrl
                                   (Spec.prop d "device_code")])%list
                   = (calls w ++ DeviceAuthFlow.initRequest apiUrl
                        :: repeat (DeviceAuthFlow.statusRequest apiUrl
                                     (Spec.prop d "device_code")) (S k))%list).
  { rewrite Hcalls, <- !app_assoc. cbn [app]. f_equal. f_equal.
    rewrite <- repeat_cons. reflexivity. }
  destruct Hterminal as [[-> ->] | [-> ->]]; cbn [is_str String.eqb Ascii.eqb Bool.eqb orb];
    eexists; (split; [reflexivity |]);
    cbn [configFile calls add_call add_io]; (split; [exact Hfile | exact Hshape]).
Qed.

Lemma authenticate_refused_witness :
  exists w',
    DeviceAuthFlow.authenticate
      (Examples.env_at 0
         (fun n _ =>
            match n with
            | 0%nat => Some (Examples.respond 200 Examples.init_payload)
            | 1%nat => Some (Examples.respond 200 (Examples.status_payload "pending"))
            | _ => Some (Examples.respond 200 (Examples.status_payload "denied"))
            end))
      "https://ustun.tech" (Examples.world_with (FText (Some (Examples.bundle 1000))))
    = (Throw (ErrMsg "Authorization denied by user."), w')
    /\ configFile w' = FText (Some (Examples.bundle 1000))
    /\ calls w'
       = [DeviceAuthFlow.initRequest "https://ustun.tech";
          DeviceAuthFlow.statusRequest "https://ustun.tech" (VStr "dc-1");
          DeviceAuthFlow.statusRequest "https://ustun.tech" (VStr "dc-1")].
Proof.
  apply (authenticate_refused _ "https://ustun.tech"
           (Examples.world_with (FText (Some (Examples.bundle 1000)))) 1
           (Examples.respond 200 Examples.init_payload)
           (Examples.respond 200 (Examples.status_payload "denied"))
           Examples.init_payload
           (VObj [("device_code", VStr "dc-1");
                  ("user_code", VStr "ABCD");
                  ("verification_url_complete",
                   VStr "https://ustun.tech/device?code=ABCD");
                  ("interval", VNum 5)])
           (VStr "denied") "Authorization denied by user."); try reflexivity.
  - simpl. lia.
  - intros n req Hn. simpl in Hn.
    exists (Examples.respond 200 (Examples.status_payload "pending")).
    destruct n as [| [| n]]; try lia; split; reflexivity.
  - right. split; reflexivity.
Defined.

(** ** What a failed flow leaves of the credential file *)

Section Quiet.
Variable env : Env.

Lemma quiet_ret {A} (a : A) : quiet (ret a).
Proof. intros w. reflexivity. Qed.

Lemma quiet_throw {A} (e : Error) : quiet (throw (A := A) e).
Proof. intros w. reflexivity. Qed.

Lemma quiet_lift {A} (o : Outcome A) : quiet (lift o).
Proof. intros w. reflexivity. Qed.

Lemma quiet_log (l : LogLine) : quiet (log l).
Proof. intros w. reflexivity. Qed.

Lemma quiet_sleep (v : value) : quiet (sleep v).
Proof. intros w. reflexivity. Qed.

Lemma quiet_now : quiet (now env).
Proof. intros w. reflexivity. Qed.

Lemma quiet_json_of (r : Response) : quiet (json_of r).
Proof. intros w. reflexivity. Qed.

Lemma quiet_fetch (req : Request) : quiet (fetch env req).
Proof. intros w. unfold fetch. destruct (net env _ _); reflexivity. Qed.

Lemma quiet_bind {A B} (m : M World A) (k : A -> M World B) :
  quiet m -> (forall a, quiet (k a)) -> quiet (bind m k).
Proof.
  intros Hm Hk w. unfold bind. specialize (Hm w).
  destruct (m w) as [[a | e] w1]; cbn [snd] in *.
  - rewrite (Hk a w1). exact Hm.
  - exact Hm.
Qed.

Lemma quiet_poll (apiUrl : string) (device_code interval : value) (fuel : nat) :
  forall attempts, quiet (DeviceAuthFlow.poll env apiUrl fuel device_code interval attempts).
Proof.
  induction fuel as [| fuel IH]; intros attempts.
  - apply quiet_ret.
  - rewrite poll_unfold.
    destruct (attempts <? DeviceAuthFlow.maxAttempts)%nat; [| apply quiet_ret].
    apply quiet_bind; [apply quiet_sleep | intros _].
    apply quiet_bind; [apply quiet_fetch | intros r].
    destruct (negb (ok r)); [apply quiet_throw |].
    apply quiet_bind; [apply quiet_json_of | intros body].
    apply quiet_bind; [apply quiet_lift | intros data].
    apply quiet_bind; [apply quiet_lift | intros st].
    destruct (is_str st "authorized");
      [apply quiet_bind; [apply quiet_log | intros _; apply quiet_ret] |].
    destruct (is_str st "expired"); [apply quiet_throw |].
    destruct (is_str st "denied"); [apply quiet_throw |].
    apply IH.
Qed.

Lemma spares_bind {A B} (m : M World A) (k : A -> M World B) :
  quiet m -> (forall a, spares (k a)) -> spares (bind m k).
Proof.
  intros Hm Hk w e. unfold bind. specialize (Hm w).
  destruct (m w) as [[a | e'] w1]; cbn [snd fst] in *.
  - intros Hthrow Hne Hio. rewrite (Hk a w1 e Hthrow Hne Hio). exact Hm.
  - intros _ _ _. exact Hm.
Qed.

Lemma spares_throw {A} (e : Error) : spares (throw (A := A) e).
Proof. intros w e' _ _ _. reflexivity. Qed.

Lemma getProp_throws (v : value) (k : string) (e : Error) :
  getProp v k = Throw e -> e = ErrType.
Proof. destruct v; simpl; intros H; try discriminate; congruence. Qed.

Lemma only_type_bind {A B} (m : M World A) (k : A -> M World B) :
  only_type m -> (forall a, only_type (k a)) -> only_type (bind m k).
Proof.
  intros Hm Hk w e. unfold bind. specialize (Hm w).
  destruct (m w) as [[a | e'] w1]; cbn [fst] in *.
  - apply Hk.
  - intros H. apply Hm. congruence.
Qed.

Lemma only_type_getProp (v : value) (k : string) :
  only_type (lift (S := World) (getProp v k)).
Proof. intros w e H. cbn in H. exact (getProp_throws v k e H). Qed.

Lemma only_type_log (l : LogLine) : only_type (log l).
Proof. intros w e H. discriminate H. Qed.

Lemma only_type_ret {A} (a : A) : only_type (ret (S := World) a).
Proof. intros w e H. discriminate H. Qed.

(** A save that fails fails with the file-system error; once the bundle is
    saved, what can still fail is reading the names that are logged. *)
Lemma spares_save {A} (c : value) (tail : M World A) :
  only_type tail -> spares (DeviceAuthFlow.saveConfig env c ;; tail).
Proof.
  intros Htail w e. unfold bind, DeviceAuthFlow.saveConfig.
  destruct (write_ok env _); cbn [fst snd].
  - intros Hthrow Hne _.
    match type of Hthrow with
    | fst (tail ?w1) = _ => specialize (Htail w1 e Hthrow)
    end.
    contradiction.
  - destruct (write_truncates env _); cbn [fst snd]; intros Hthrow _ Hio;
      injection Hthrow as <-; contradiction.
Qed.
End Quiet.

(** X8: Whatever makes [authenticate] fail, short of a TypeError of the
    runtime and of a failed write of the credential file itself, the file is
    the one before: a flow that is refused, times out, cannot reach the
    provider or is answered with something that is not JSON does not touch a
    stored bundle.  (A write that fails may leave the file truncated.) *)
Theorem authenticate_spares_file (env : Env) (apiUrl : string) (w : World) (e : Error) :
  fst (DeviceAuthFlow.authenticate env apiUrl w) = Throw e ->
  e <> ErrType ->
  e <> ErrIO ->
  configFile (snd (DeviceAuthFlow.authenticate env apiUrl w)) = configFile w.
Proof.
  revert w e. change (spares (DeviceAuthFlow.authenticate env apiUrl)).
  unfold DeviceAuthFlow.authenticate.
  apply spares_bind; [apply quiet_fetch | intros initResponse].
  destruct (negb (ok initResponse)); [apply spares_throw |].
  apply spares_bind; [apply quiet_json_of | intros initData].
  do 5 (apply spares_bind; [apply quiet_lift | intros ?]).
  do 4 (apply spares_bind; [apply quiet_log | intros ?]).
  apply spares_bind; [apply quiet_poll | intros attempts].
  destruct (DeviceAuthFlow.maxAttempts <=? attempts)%nat; [apply spares_throw |].
  apply spares_bind; [apply quiet_fetch | intros tokenResponse].
  destruct (negb (ok tokenResponse)); [apply spares_throw |].
  apply spares_bind; [apply quiet_json_of | intros tokenData].
  do 3 (apply spares_bind; [apply quiet_lift | intros ?]).
  apply spares_bind; [apply quiet_now | intros t].
  do 3 (apply spares_bind; [apply quiet_lift | intros ?]).
  apply spares_save.
  apply only_type_bind; [apply only_type_getProp | intros ?].
  apply only_type_bind; [apply only_type_log | intros ?].
  apply only_type_bind; [apply only_type_getProp | intros ?].
  apply only_type_bind; [apply only_type_getProp | intros ?].
  apply only_type_bind; [apply only_type_log | intros ?].
  apply only_type_ret.
Qed.

Lemma authenticate_spares_file_witness :
  let env := Examples.env_at 0
               (fun _ _ => Some {| World.status := 503; statusText := "Service Unavailable";
                                   text := ""; json := None |}) in
  let w := Examples.world_with (FText (Some (Examples.bundle 1000))) in
  fst (DeviceAuthFlow.authenticate env "https://ustun.tech" w)
  = Throw (ErrMsg "Device init failed: Service Unavailable")
  /\ configFile (snd (DeviceAuthFlow.authenticate env "https://ustun.tech" w))
     = FText (Some (Examples.bundle 1000)).
Proof.
  cbv zeta. split; [reflexivity |].
  apply (authenticate_spares_file _ "https://ustun.tech"
           (Examples.world_with (FText (Some (Examples.bundle 1000))))
           (ErrMsg "Device init failed: Service Unavailable")).
  - reflexivity.
  - discriminate.
  - discriminate.
Defined.

(** ** The dispatcher *)

(** X9: A name that is not in the catalog is answered with the unknown-tool
    error; nothing is read, called or changed. *)
Theorem unknown_tool (env : Env) (name : string) (args : value) (s : Server) :
  ~ In name Spec.tool_names ->
  handleToolCall env name args s
  = (Ok (ErrorContent (ErrMsg ("Unknown tool: " ++ name))), s).
Proof.
  intros Hname. unfold Spec.tool_names in Hname. cbn [In] in Hname.
  unfold handleToolCall, dispatch.
  repeat match goal with
         | |- context [String.eqb name ?t] =>
             destruct (String.eqb_spec name t) as [-> | _];
             [exfalso; apply Hname; tauto |]
         end.
  reflexivity.
Qed.

Lemma unknown_tool_witness :
  handleToolCall (Examples.env_at 0 Examples.offline) "delete_app" VNull
    Examples.busy_server
  = (Ok (ErrorContent (ErrMsg "Unknown tool: delete_app")), Examples.busy_server).
Proof.
  apply (unknown_tool (Examples.env_at 0 Examples.offline) "delete_app" VNull
           Examples.busy_server).
  unfold Spec.tool_names. cbn [In].
  intros H. repeat (destruct H as [H | H]; [discriminate H |]). exact H.
Defined.

(** Without a bundle in memory and none to load, [ensureAuth] throws. *)
Lemma ensureAuth_refuses (env : Env) (s : Server) (v : value) :
  truthy (config s) = false ->
  fst (DeviceAuthFlow.loadConfig env (world s)) = Ok v ->
  truthy v = false ->
  ensureAuth env s
  = (Throw Spec.not_authenticated,
     set_config v (set_world (snd (DeviceAuthFlow.loadConfig env (world s))) s)).
Proof.
  intros Hcfg Hload Hv. unfold ensureAuth.
  unfold bind at 1. unfold gets at 1. rewrite Hcfg. cbn [negb].
  unfold bind at 1. unfold inW.
  destruct (DeviceAuthFlow.loadConfig env (world s)) as [[v' | e] w'];
    cbn [fst] in Hload; [| discriminate].
  injection Hload as ->.
  unfold bind at 1. unfold modify at 1. rewrite Hv. reflexivity.
Qed.

(** X10: The tools behind [ensureAuth], called with no bundle in memory and none
    to load (no file, or one that is unreadable, malformed or expired),
    answer with the not-authenticated error: no call is made and the caches
    are as they were. *)
Theorem gated_without_session (env : Env) (name : string) (args : value) (s : Server)
        (v : value) :
  In name Spec.gated_tools ->
  truthy (config s) = false ->
  fst (DeviceAuthFlow.loadConfig env (world s)) = Ok v ->
  truthy v = false ->
  fst (handleToolCall env name args s) = Ok (ErrorContent Spec.not_authenticated)
  /\ calls (world (snd (handleToolCall env name args s))) = calls (world s)
  /\ Spec.same_caches s (snd (handleToolCall env name args s)).
Proof.
  intros Hname Hcfg Hload Hv.
  pose proof (ensureAuth_refuses env s v Hcfg Hload Hv) as Hrefuse.
  destruct (loadConfig_returns env (world s)) as (v' & _ & _ & Hcalls).
  assert (Hrun : handleToolCall env name args s
                 = (Ok (ErrorContent Spec.not_authenticated),
                    set_config v
                      (set_world (snd (DeviceAuthFlow.loadConfig env (world s))) s))).
  { unfold Spec.gated_tools in Hname. cbn [In] in Hname.
    unfold handleToolCall, try_catch, dispatch.
    repeat (destruct Hname as [<- | Hname];
            [cbn [String.eqb Ascii.eqb Bool.eqb]; unfold bind at 1; unfold bind at 1;
             rewrite Hrefuse; reflexivity |]).
    contradiction. }
  rewrite Hrun. cbn [fst snd]. split; [reflexivity |].
  split; [exact Hcalls | repeat split].
Qed.

Lemma gated_without_session_witness :
  let env := Examples.env_at 2000 Examples.offline in
  let s' := snd (handleToolCall env "deploy_from_git" Examples.deploy_blog
                   Examples.signed_out_server) in
  fst (handleToolCall env "deploy_from_git" Examples.deploy_blog
         Examples.signed_out_server)
  = Ok (ErrorContent Spec.not_authenticated)
  /\ calls (world s') = []
  /\ Spec.same_caches Examples.signed_out_server s'.
Proof.
  exact (gated_without_session (Examples.env_at 2000 Examples.offline)
           "deploy_from_git" Examples.deploy_blog Examples.signed_out_server VNull
           (or_intror (or_intror (or_intror (or_introl eq_refl))))
           eq_refl eq_refl eq_refl).
Defined.

(** ** Frames that look at the world *)

#[export] Instance same_calls_step : StepRel same_calls.
Proof. split; unfold same_calls; intros; congruence. Qed.

#[export] Instance same_state_step : StepRel same_state.
Proof.
  split; unfold same_state.
  - intros; repeat split.
  - intros s1 s2 s3 (A1 & A2 & A3 & A4 & A5 & A6) (B1 & B2 & B3 & B4 & B5 & B6).
    repeat split; congruence.
Qed.

Section StepRules.
Context {R : Server -> Server -> Prop} {HR : StepRel R}.

Lemma step_ret {A} (a : A) : keeps R (ret a).
Proof. intros s; apply step_refl. Qed.

Lemma step_throw {A} (e : Error) : keeps R (throw (A := A) e).
Proof. intros s; apply step_refl. Qed.

Lemma step_lift {A} (o : Outcome A) : keeps R (lift o).
Proof. intros s; apply step_refl. Qed.

Lemma step_gets {A} (f : Server -> A) : keeps R (gets f).
Proof. intros s; apply step_refl. Qed.

Lemma step_bind {A B} (m : M Server A) (k : A -> M Server B) :
  keeps R m -> (forall a, keeps R (k a)) -> keeps R (bind m k).
Proof.
  intros Hm Hk s. unfold bind. specialize (Hm s).
  destruct (m s) as [[a | e] s1]; cbn [snd] in *.
  - eapply step_trans; [exact Hm | apply Hk].
  - exact Hm.
Qed.

Lemma step_try_catch {A} (m : M Server A) (h : Error -> M Server A) :
  keeps R m -> (forall e, keeps R (h e)) -> keeps R (try_catch m h).
Proof.
  intros Hm Hh s. unfold try_catch. specialize (Hm s).
  destruct (m s) as [[a | e] s1]; cbn [snd] in *.
  - exact Hm.
  - eapply step_trans; [exact Hm | apply Hh].
Qed.

Lemma step_mapM {A B} (f : A -> M Server B) (l : list A) :
  (forall a, keeps R (f a)) -> keeps R (mapM f l).
Proof.
  intros Hf. induction l as [| a l IH]; cbn [mapM].
  - apply step_ret.
  - apply step_bind; [apply Hf |]. intros b.
    apply step_bind; [exact IH |]. intros bs. apply step_ret.
Qed.
End StepRules.

(** One step of a proof with a relation that looks at the world. *)
Ltac steps :=
  repeat lazymatch goal with
         | |- keeps _ (bind _ _) => apply step_bind; [ | intros ? ]
         | |- keeps _ (ret _) => apply step_ret
         | |- keeps _ (throw _) => apply step_throw
         | |- keeps _ (lift _) => apply step_lift
         | |- keeps _ (gets _) => apply step_gets
         | |- keeps _ (try_catch _ _) => apply step_try_catch; [ | intros ? ]
         | |- keeps _ (mapM _ _) => apply step_mapM; intros ?
         | |- keeps _ (if ?b then _ else _) => destruct b
         | |- keeps _ (match ?x with _ => _ end) => destruct x
         end.

Lemma same_state_servers_empty : keeps same_state servers_empty.
Proof. unfold servers_empty. steps. Qed.

Lemma same_state_log (l : LogLine) : keeps same_state (inW (log l)).
Proof. intros s. cbn. repeat split. Qed.

Lemma same_state_now (env : Env) : keeps same_state (inW (now env)).
Proof. intros s. cbn. repeat split. Qed.

Lemma same_state_json_of (r : Response) : keeps same_state (inW (json_of r)).
Proof.
  intros s. unfold inW, json_of, lift. destruct (json r); cbn; repeat split.
Qed.

Lemma same_state_lookupApp (appName : value) : keeps same_state (lookupApp appName).
Proof. unfold lookupApp. steps. Qed.

(** ** The session *)

(** X11: [check_auth_status] loads the credential file again and puts what it
    loaded in place of the bundle in memory, [null] included: a session
    whose file is gone or has expired is dropped.  No call is made and the
    caches are not cleared. *)
Theorem check_auth_status_reloads (env : Env) (args : value) (s : Server) :
  exists v,
    fst (DeviceAuthFlow.loadConfig env (world s)) = Ok v
    /\ config (snd (handleToolCall env "check_auth_status" args s)) = v
    /\ Spec.same_caches s (snd (handleToolCall env "check_auth_status" args s))
    /\ calls (world (snd (handleToolCall env "check_auth_status" args s)))
       = calls (world s)
    /\ (truthy v = false ->
        fst (handleToolCall env "check_auth_status" args s)
        = Ok (Content TNotAuthenticated)).
Proof.
  destruct (loadConfig_returns env (world s)) as (v & Hload & _ & Hcalls).
  exists v. split; [exact Hload |].
  remember (handleToolCall env "check_auth_status" args s) as run eqn:Hrun.
  unfold handleToolCall, try_catch, dispatch in Hrun.
  cbn [String.eqb Ascii.eqb Bool.eqb] in Hrun.
  unfold handleCheckAuthStatus in Hrun.
  unfold bind at 1 in Hrun. unfold bind at 1 in Hrun. unfold inW at 1 in Hrun.
  destruct (DeviceAuthFlow.loadConfig env (world s)) as [[v' | e] w'];
    cbn [fst snd] in Hload, Hcalls; [| discriminate].
  injection Hload as ->.
  unfold bind at 1 in Hrun. unfold modify at 1 in Hrun.
  destruct (truthy v) eqn:Hv; cbn [negb] in Hrun.
  - set (s1 := set_config v (set_world w' s)) in Hrun.
    match type of Hrun with
    | context [bind ?m ?k s1] =>
        assert (Hrest : same_state s1 (snd (bind m k s1)));
        [ | destruct (bind m k s1) as [[t | e] s2] ]
    end.
    { apply step_bind; [apply step_lift | intros ?].
      apply step_bind; [apply same_state_now | intros ?].
      steps. }
    all: cbn [snd] in Hrest; destruct Hrest as (H1 & H2 & H3 & H4 & H5 & _).
    all: subst run; cbn [fst snd ret]; unfold Spec.same_caches.
    all: rewrite H1, H2, H3, H4, H5; subst s1; cbn.
    all: repeat split; try assumption; intros; discriminate.
  - subst run. cbn. unfold Spec.same_caches. repeat split. exact Hcalls.
Qed.

(** X12: A re-authentication that fails is reported as the error it failed
    with, and the bundle in memory, the server set and both maps are the
    ones before. *)
Theorem failed_reauth_keeps_session (env : Env) (args : value) (s : Server) (e : Error) :
  fst (DeviceAuthFlow.authenticate env (authFlow_apiUrl env) (world s)) = Throw e ->
  fst (handleToolCall env "authenticate" args s) = Ok (ErrorContent e)
  /\ config (snd (handleToolCall env "authenticate" args s)) = config s
  /\ Spec.same_caches s (snd (handleToolCall env "authenticate" args s)).
Proof.
  intros Hfail.
  remember (handleToolCall env "authenticate" args s) as run eqn:Hrun.
  unfold handleToolCall, try_catch, dispatch in Hrun.
  cbn [String.eqb Ascii.eqb Bool.eqb] in Hrun.
  unfold handleAuthenticate in Hrun.
  unfold bind at 1 in Hrun. unfold bind at 1 in Hrun. unfold inW in Hrun.
  destruct (DeviceAuthFlow.authenticate env (authFlow_apiUrl env) (world s))
    as [[cfg | e'] w]; cbn [fst] in Hfail; [discriminate |].
  injection Hfail as ->. subst run. cbn. unfold Spec.same_caches. repeat split.
Qed.

Lemma failed_reauth_keeps_session_witness :
  let env := Examples.env_at 0
               (fun _ _ => Some {| World.status := 503; statusText := "Service Unavailable";
                                   text := ""; json := None |}) in
  let s' := snd (handleToolCall env "authenticate" VNull Examples.busy_server) in
  fst (handleToolCall env "authenticate" VNull Examples.busy_server)
  = Ok (ErrorContent (ErrMsg "Device init failed: Service Unavailable"))
  /\ config s' = config Examples.busy_server
  /\ Spec.same_caches Examples.busy_server s'.
Proof.
  exact (failed_reauth_keeps_session
           (Examples.env_at 0
              (fun _ _ => Some {| World.status := 503; statusText := "Service Unavailable";
                                  text := ""; json := None |}))
           VNull Examples.busy_server
           (ErrMsg "Device init failed: Service Unavailable") eq_refl).
Defined.

(** ** Server discovery *)

(** [fetchServers] is one call to the discovery endpoint of the identity
    provider, for the organization of the bundle; nothing but the world
    changes, and the result is read off the answer. *)
Lemma fetchServers_run (env : Env) (token org orgId : value) (s : Server) :
  getProp (config s) "organization" = Ok org ->
  getProp org "id" = Ok orgId ->
  getProp (config s) "access_token" = Ok token ->
  fetchServers env s
  = (match net env (List.length (calls (world s)))
             (Spec.discoveryRequest env token orgId) with
     | None => Throw ErrNet
     | Some r =>
         if ok r then
           match json r with
           | None => Throw ErrSyntax
           | Some data =>
               match getProp data "data" with
               | Ok inner => Ok (or_else inner (VArr []))
               | Throw e => Throw e
               end
           end
         else Throw (ErrMsg ("Failed to fetch servers: " ++ string_of_Z (World.status r)))
     end,
     set_world (add_call (Spec.discoveryRequest env token orgId) (world s)) s).
Proof.
  intros Horg Hid Htoken. unfold fetchServers.
  unfold bind at 1. unfold gets at 1.
  unfold bind at 1. unfold lift at 1. rewrite Horg.
  unfold bind at 1. unfold lift at 1. rewrite Hid.
  unfold bind at 1. rewrite (GET_run env token _ s Htoken). cbv zeta.
  fold (Spec.discoveryRequest env token orgId).
  destruct (net env _ _) as [r |]; [| reflexivity].
  destruct (ok r); cbn [negb]; [| reflexivity].
  unfold bind, inW, json_of, lift, ret. cbn [world set_world].
  destruct (json r) as [data |]; [| reflexivity].
  destruct (getProp data "data") as [inner | e]; reflexivity.
Qed.

(** One case of an answer: the hypotheses name the same response. *)
Ltac answer_case :=
  intros;
  repeat match goal with
         | H : Some _ = Some _ |- _ => injection H as H; subst
         | H : None = Some _ |- _ => discriminate H
         | H : Some _ = None |- _ => discriminate H
         end;
  try congruence;
  try (split; congruence).

(** X13: [list_servers] always asks the discovery endpoint, once, for the
    organization of the bundle (its id and the token being printable, the
    provider's URL absolute).  A
    2xx answer replaces the server set by the [data] of its body, or by the
    empty list when [data] is falsy; a network error, a status that is not
    2xx or a body that is not JSON is rethrown and leaves the server set as
    it was.  The bundle and both maps are never touched: application
    entries of servers that are gone stay in the map. *)
Theorem list_servers_replaces (env : Env) (token org orgId : value) (s : Server) :
  getProp (config s) "organization" = Ok org ->
  getProp org "id" = Ok orgId ->
  getProp (config s) "access_token" = Ok token ->
  Spec.printable orgId = true ->
  Spec.printable token = true ->
  Spec.http_url (citizenAuthUrl env) = true ->
  let req := Spec.discoveryRequest env token orgId in
  let answer := net env (List.length (calls (world s))) req in
  config (snd (handleListServers env s)) = config s
  /\ appServerMap (snd (handleListServers env s)) = appServerMap s
  /\ runServerMap (snd (handleListServers env s)) = runServerMap s
  /\ calls (world (snd (handleListServers env s))) = (calls (world s) ++ [req])%list
  /\ (answer = None ->
      servers (snd (handleListServers env s)) = servers s
      /\ fst (handleListServers env s) = Throw ErrNet)
  /\ (forall r : Response,
         answer = Some r -> ok r = false ->
         servers (snd (handleListServers env s)) = servers s
         /\ fst (handleListServers env s)
            = Throw (ErrMsg ("Failed to fetch servers: " ++ string_of_Z (World.status r))))
  /\ (forall r : Response,
         answer = Some r -> ok r = true -> json r = None ->
         servers (snd (handleListServers env s)) = servers s
         /\ fst (handleListServers env s) = Throw ErrSyntax)
  /\ (forall (r : Response) (data inner : value),
         answer = Some r -> ok r = true -> json r = Some data ->
         getProp data "data" = Ok inner ->
         servers (snd (handleListServers env s)) = or_else inner (VArr [])).
Proof.
  intros Horg Hid Htoken _ _ _. cbv zeta.
  pose proof (fetchServers_run env token org orgId s Horg Hid Htoken) as Hrun.
  remember (handleListServers env s) as run eqn:Hlist.
  unfold handleListServers in Hlist. unfold bind at 1 in Hlist. rewrite Hrun in Hlist.
  clear Hrun.
  assert (Hcases :
            forall found : value,
              (match net env (List.length (calls (world s)))
                       (Spec.discoveryRequest env token orgId) with
               | None => Throw ErrNet
               | Some r =>
                   if ok r then
                     match json r with
                     | None => Throw ErrSyntax
                     | Some data =>
                         match getProp data "data" with
                         | Ok inner => Ok (or_else inner (VArr []))
                         | Throw e => Throw e
                         end
                     end
                   else Throw (ErrMsg ("Failed to fetch servers: "
                                         ++ string_of_Z (World.status r)))
               end) = Ok found ->
              config (snd run) = config s
              /\ appServerMap (snd run) = appServerMap s
              /\ runServerMap (snd run) = runServerMap s
              /\ calls (world (snd run))
                 = (calls (world s) ++ [Spec.discoveryRequest env token orgId])%list
              /\ servers (snd run) = found).
  { intros found Hfound. rewrite Hfound in Hlist.
    unfold bind at 1 in Hlist. unfold modify at 1 in Hlist.
    set (s1 := set_servers found
                 (set_world (add_call (Spec.discoveryRequest env token orgId) (world s)) s))
      in Hlist.
    match type of Hlist with
    | run = ?m s1 =>
        assert (Hkeeps : keeps same_state m);
        [ | pose proof (Hkeeps s1) as Hrest; rewrite <- Hlist in Hrest ]
    end.
    { apply step_bind; [apply same_state_servers_empty | intros ?]. steps. }
    destruct Hrest as (H1 & H2 & H3 & H4 & H5 & _).
    rewrite H1, H2, H3, H4, H5. subst s1. cbn. repeat split. }
  destruct (net env (List.length (calls (world s))) (Spec.discoveryRequest env token orgId))
    as [r |]; [destruct (ok r) eqn:Hok;
               [destruct (json r) as [data |] eqn:Hjson;
                [destruct (getProp data "data") as [inner | e] eqn:Hdata |] |] |].
  1: destruct (Hcases _ eq_refl) as (H1 & H2 & H3 & H4 & H5).
  2-5: subst run; cbn [fst snd config servers appServerMap runServerMap world
                       set_world calls add_call].
  all: split; [| split; [| split; [| split; [| split; [| split; [| split]]]]]].
  all: answer_case.
Qed.

Lemma list_servers_replaces_witness :
  let env := Examples.env_at 0
               (fun _ _ => Some (Examples.respond 200 (VObj [("data", VArr [])]))) in
  let s' := snd (handleListServers env Examples.busy_server) in
  servers s' = VArr []
  /\ appServerMap s' = appServerMap Examples.busy_server
  /\ runServerMap s' = runServerMap Examples.busy_server
  /\ calls (world s')
     = [Spec.discoveryRequest env (VStr "tok") (VStr "o1")].
Proof.
  cbv zeta.
  destruct (list_servers_replaces
              (Examples.env_at 0
                 (fun _ _ => Some (Examples.respond 200 (VObj [("data", VArr [])]))))
              (VStr "tok")
              (VObj [("id", VStr "o1"); ("name", VStr "Org"); ("role", VStr "member")])
              (VStr "o1") Examples.busy_server eq_refl eq_refl eq_refl eq_refl eq_refl
              eq_refl)
    as (_ & Happs & Hruns & Hcalls & _ & _ & _ & Hfound).
  split; [apply (Hfound (Examples.respond 200 (VObj [("data", VArr [])]))
                   (VObj [("data", VArr [])]) (VArr []) eq_refl eq_refl eq_refl eq_refl) |].
  split; [exact Happs |]. split; [exact Hruns | exact Hcalls].
Defined.

(** ** Deployments *)

(** X14: A [deploy_from_git] call that is answered with an error other than
    a TypeError of the runtime has recorded no run: the run-to-server map is
    the one before the call.  (The run id is stored before the result text
    is built, so a TypeError raised while the text is built comes after the
    store.) *)
Theorem failed_git_deploy_records_nothing (env : Env) (args : value) (s : Server)
        (e : Error) :
  fst (handleToolCall env "deploy_from_git" args s) = Ok (ErrorContent e) ->
  e <> ErrType ->
  runServerMap (snd (handleToolCall env "deploy_from_git" args s)) = runServerMap s.
Proof.
  intros Hfail _.
  remember (handleToolCall env "deploy_from_git" args s) as run eqn:Hrun.
  unfold handleToolCall, try_catch, dispatch in Hrun.
  cbn [String.eqb Ascii.eqb Bool.eqb] in Hrun.
  unfold bind at 1 in Hrun. unfold bind at 1 in Hrun.
  pose proof (keeps_ensureAuth env (R := same_runs) s) as Hauth.
  destruct (ensureAuth env s) as [[[] | e0] s0]; cbn [snd] in Hauth;
    [| subst run; exact Hauth].
  pose proof (handleDeployFromGit_cases env args s0) as Hcases.
  destruct (handleDeployFromGit env args s0) as [[t | e1] s1]; cbn [fst snd] in Hcases.
  - subst run. discriminate Hfail.
  - subst run. cbn [snd ret]. unfold same_runs in Hauth. congruence.
Qed.

Lemma failed_git_deploy_records_nothing_witness :
  let env := Examples.env_at 0 (fun _ _ => Some (Examples.respond 500 VNull)) in
  fst (handleToolCall env "deploy_from_git" Examples.deploy_blog Examples.busy_server)
  = Ok (ErrorContent (ErrMsg "Deployment failed: 500 "))
  /\ runServerMap (snd (handleToolCall env "deploy_from_git" Examples.deploy_blog
                          Examples.busy_server))
     = [(VStr "r1", "https://s1.example.com")].
Proof.
  cbv zeta. split; [reflexivity |].
  exact (failed_git_deploy_records_nothing
           (Examples.env_at 0 (fun _ _ => Some (Examples.respond 500 VNull)))
           Examples.deploy_blog Examples.busy_server
           (ErrMsg "Deployment failed: 500 ") eq_refl ltac:(discriminate)).
Defined.

(** X15: A git deployment that is reported as started under a run id has
    stored the server of the application under that run id and nothing
    else; asking for the server of the run afterwards is answered from
    memory, with no call. *)
Theorem git_deploy_records_run (env : Env) (args : value) (s : Server)
        (slug rid st git_url git_branch : value) :
  fst (handleDeployFromGit env args s)
  = Ok (TDeployStarted slug rid st git_url git_branch) ->
  truthy rid = true ->
  Spec.primitive rid = true ->
  exists u : string,
    fst (getServerUrlForApp env (Spec.prop args "app_name") s) = Ok u
    /\ map_get rid (runServerMap (snd (handleDeployFromGit env args s))) = Some u
    /\ (forall k, sameValueZero rid k = false ->
                  map_get k (runServerMap (snd (handleDeployFromGit env args s)))
                  = map_get k (runServerMap s))
    /\ (u <> "" ->
        getServerUrlForRun env rid (snd (handleDeployFromGit env args s))
        = (Ok u, snd (handleDeployFromGit env args s))).
Proof.
  intros Hok Hrid Hprim.
  pose proof (handleDeployFromGit_cases env args s) as Hcases.
  rewrite Hok in Hcases.
  destruct Hcases as (u & s1 & slug' & rid' & st' & Hurl & Ht & Hmap).
  injection Ht as <- <- <- -> ->.
  rewrite Hrid in Hmap.
  assert (Hget : map_get rid (runServerMap (snd (handleDeployFromGit env args s)))
                 = Some u).
  { rewrite Hmap. apply map_get_set_same. exact Hprim. }
  exists u. rewrite Hurl. split; [reflexivity |]. split; [exact Hget |]. split.
  - intros k Hk. rewrite Hmap. apply map_get_set_other. exact Hk.
  - intros Hu. destruct u as [| c rest]; [contradiction |].
    apply getServerUrlForRun_hit. exact Hget.
Qed.

Lemma git_deploy_records_run_witness :
  let env := Examples.env_at 0 Examples.deploy_as_r1 in
  let s' := snd (handleDeployFromGit env Examples.deploy_blog Examples.moved_server) in
  exists u : string,
    fst (getServerUrlForApp env (Spec.prop Examples.deploy_blog "app_name")
           Examples.moved_server) = Ok u
    /\ map_get (VStr "r1") (runServerMap s') = Some u
    /\ (forall k, sameValueZero (VStr "r1") k = false ->
                  map_get k (runServerMap s')
                  = map_get k (runServerMap Examples.moved_server))
    /\ (u <> "" -> getServerUrlForRun env (VStr "r1") s' = (Ok u, s')).
Proof.
  exact (git_deploy_records_run (Examples.env_at 0 Examples.deploy_as_r1)
           Examples.deploy_blog Examples.moved_server
           (VStr "s2") (VStr "r1") (VStr "queued")
           (VStr "https://github.com/user/repo.git") (VStr "main")
           eq_refl eq_refl eq_refl).
Defined.

(** ** What touches the file system *)

#[export] Instance same_io_step : StepRel same_io.
Proof. split; unfold same_io; intros; congruence. Qed.

Lemma same_io_inW {A} (m : M World A) :
  (forall w, io (snd (m w)) = io w) -> keeps same_io (inW m).
Proof.
  intros Hm s. unfold same_io, inW. specialize (Hm (world s)).
  destruct (m (world s)) as [r w]. exact Hm.
Qed.

Lemma same_io_modify (f : Server -> Server) :
  (forall s, io (world (f s)) = io (world s)) -> keeps same_io (modify f).
Proof. intros Hf s. apply Hf. Qed.

Lemma fetch_io (env : Env) (req : Request) (w : World) :
  io (snd (fetch env req w)) = io w.
Proof. unfold fetch. destruct (net env _ req); reflexivity. Qed.

Lemma json_of_io (r : Response) (w : World) : io (snd (json_of r w)) = io w.
Proof. reflexivity. Qed.

Lemma log_io (l : LogLine) (w : World) : io (snd (log l w)) = io w.
Proof. reflexivity. Qed.

(** A proof that a computation leaves the file system, the clock and the
    browser alone, by its shape. *)
Ltac io_steps :=
  repeat first
    [ progress steps
    | lazymatch goal with
      | |- keeps same_io (inW (fetch _ _)) => apply same_io_inW, fetch_io
      | |- keeps same_io (inW (json_of _)) => apply same_io_inW, json_of_io
      | |- keeps same_io (inW (log _)) => apply same_io_inW, log_io
      | |- keeps same_io (modify _) => apply same_io_modify; intros ?; reflexivity
      end ].

Section IoFrames.
Variable env : Env.

Lemma same_io_authorization : keeps same_io authorization.
Proof. unfold authorization. io_steps. Qed.

Lemma same_io_GET (u : string) : keeps same_io (GET env u).
Proof. unfold GET. apply step_bind; [apply same_io_authorization | intros hs]. io_steps. Qed.

Lemma same_io_POST_json (u : string) (payload : M Server value) :
  keeps same_io payload -> keeps same_io (POST_json env u payload).
Proof.
  intros Hp. unfold POST_json.
  apply step_bind; [apply same_io_authorization | intros hs].
  apply step_bind; [exact Hp | intros p]. io_steps.
Qed.

Lemma same_io_fetchServers : keeps same_io (fetchServers env).
Proof.
  unfold fetchServers. do 3 (apply step_bind; [io_steps | intros ?]).
  apply step_bind; [apply same_io_GET | intros response]. io_steps.
Qed.

Lemma same_io_servers_empty : keeps same_io servers_empty.
Proof. unfold servers_empty. io_steps. Qed.

Lemma same_io_mapApps (server : value) (serverUrl : string) (appsList : list value) :
  keeps same_io (mapApps server serverUrl appsList).
Proof.
  induction appsList as [| app rest IH]; cbn [mapApps]; [io_steps |].
  apply step_bind; [io_steps | intros appName].
  apply step_bind; [io_steps | intros ?]. exact IH.
Qed.

Lemma same_io_listServerApps (server : value) (serverUrl : string)
      (allApps : list AppGroup) :
  keeps same_io (listServerApps env server serverUrl allApps).
Proof.
  unfold listServerApps.
  apply step_bind; [apply same_io_GET | intros response].
  destruct (ok response); [| io_steps].
  apply step_bind; [io_steps | intros data].
  apply step_bind; [io_steps | intros appsList].
  apply step_bind; [apply same_io_mapApps | intros ?]. io_steps.
Qed.

Lemma same_io_listAllApps (items : list value) :
  forall allApps, keeps same_io (listAllApps env items allApps).
Proof.
  induction items as [| server rest IH]; intros allApps; cbn [listAllApps]; [io_steps |].
  apply step_bind; [io_steps | intros serverUrl].
  apply step_bind; [| intros allApps'; apply IH].
  apply step_try_catch; [apply same_io_listServerApps | intros error; io_steps].
Qed.

Lemma same_io_handleListApps : keeps same_io (handleListApps env).
Proof.
  unfold handleListApps.
  apply step_bind; [apply same_io_servers_empty | intros empty].
  apply step_bind.
  { destruct empty; [| io_steps].
    apply step_bind; [apply same_io_fetchServers | intros found]. io_steps. }
  intros _.
  apply step_bind; [apply same_io_servers_empty | intros empty'].
  destruct empty'; [io_steps |].
  apply step_bind; [io_steps | intros ?].
  apply step_bind; [io_steps | intros ss].
  apply step_bind; [io_steps | intros items].
  apply step_bind; [apply same_io_listAllApps | intros allApps]. io_steps.
Qed.

Lemma same_io_getServerUrlForApp (appName : value) :
  keeps same_io (getServerUrlForApp env appName).
Proof.
  unfold getServerUrlForApp.
  apply step_bind; [io_steps | intros m].
  destruct (map_get appName m); [io_steps |].
  apply step_bind; [apply same_io_handleListApps | intros ?]. io_steps.
Qed.

Lemma same_io_rememberRun (run_id : value) (serverUrl : string) :
  keeps same_io (rememberRun run_id serverUrl).
Proof. unfold rememberRun. io_steps. Qed.

End IoFrames.

(** [try { m } finally { unlinkSync(p) }]: the file is removed after [m],
    whatever [m] did; the result is that of [m] unless the removal fails. *)
Lemma finally_unlink {A} (env : Env) (m : M Server A) (p : string) (s : Server) :
  io (world (snd (try_finally m (unlinkSync env p) s)))
  = (io (world (snd (m s))) ++ [IoUnlink p])%list
  /\ fst (try_finally m (unlinkSync env p) s)
     = (if unlink_ok env (List.length (io (world (snd (m s)))))
        then fst (m s) else Throw ErrIO).
Proof.
  unfold try_finally, unlinkSync, inW.
  destruct (m s) as [[a | e] s1]; cbn [fst snd];
    destruct (unlink_ok env (List.length (io (world s1)))); cbn; split; reflexivity.
Qed.

(** X16: Once the archive of a local deployment has been created, it is read
    and then removed, exactly once and as the last thing the handler does,
    whether the upload and the deployment succeed, are refused or throw.
    When the removal fails, the handler fails with that error, whatever the
    deployment did. *)
Theorem local_deploy_cleans_up (env : Env) (args appName dir : value) (u p : string)
        (s : Server) :
  getProp args "app_name" = Ok appName ->
  fst (getServerUrlForApp env appName s) = Ok u ->
  getProp args "directory_path" = Ok dir ->
  tar env (List.length (io (world s))) dir = Some p ->
  exists mid : list IoEvent,
    io (world (snd (handleDeployFromLocal env args s)))
    = (io (world s) ++ IoTar dir :: IoRead p :: mid ++ [IoUnlink p])%list
    /\ (mid = [] \/ mid = [IoNow])
    /\ (unlink_ok env (List.length (io (world s)) + 2 + List.length mid) = false ->
        fst (handleDeployFromLocal env args s) = Throw ErrIO).
Proof.
  intros Happ Hurl Hdir Htar.
  remember (handleDeployFromLocal env args s) as run eqn:Hrun.
  unfold handleDeployFromLocal in Hrun.
  unfold bind at 1 in Hrun. unfold lift at 1 in Hrun. rewrite Happ in Hrun.
  unfold bind at 1 in Hrun.
  pose proof (same_io_getServerUrlForApp env appName s) as Hio1.
  destruct (getServerUrlForApp env appName s) as [[u' | e1] s1];
    cbn [fst snd] in Hurl, Hio1; [| discriminate].
  injection Hurl as ->. unfold same_io in Hio1.
  unfold bind at 1 in Hrun. unfold lookupApp at 1 in Hrun.
  unfold bind at 1 in Hrun. unfold gets at 1 in Hrun. unfold ret at 1 in Hrun.
  unfold bind at 1 in Hrun. unfold lift at 1 in Hrun. rewrite Hdir in Hrun.
  unfold bind at 1 in Hrun. unfold createTarGz at 1 in Hrun. unfold inW at 1 in Hrun.
  rewrite Hio1, Htar in Hrun.
  match type of Hrun with
  | run = try_finally ?body _ ?s2 =>
      destruct (finally_unlink env body p s2) as [Hio Hres];
      rewrite <- Hrun in Hio, Hres;
      assert (Hbody : exists mid,
                 io (world (snd (body s2)))
                 = (io (world s) ++ IoTar dir :: IoRead p :: mid)%list
                 /\ (mid = [] \/ mid = [IoNow]))
  end.
  { unfold bind at 1. unfold readFileSync at 1. unfold inW at 1.
    cbn [world set_world io add_io].
    destruct (read env _ p) as [fileBuffer |].
    - exists [IoNow]. split; [| right; reflexivity].
      unfold bind at 1. unfold inW at 1, now at 1. cbn [world set_world].
      match goal with
      | |- io (world (snd (?rest ?s3))) = _ =>
          assert (Hrest : keeps same_io rest);
          [ | rewrite (Hrest s3); cbn [world set_world io add_io];
              rewrite Hio1, <- !app_assoc; reflexivity ]
      end.
      apply step_bind; [apply same_io_authorization | intros hs].
      apply step_bind; [io_steps | intros uploadResponse].
      destruct (negb (ok uploadResponse)); [io_steps |].
      apply step_bind; [io_steps | intros uploadData].
      apply step_bind; [io_steps | intros uploadResult].
      apply step_bind; [apply same_io_POST_json; io_steps | intros deployResponse].
      destruct (negb (ok deployResponse)); [io_steps |].
      apply step_bind; [io_steps | intros deployData].
      apply step_bind; [io_steps | intros deployResult].
      apply step_bind; [io_steps | intros run_id].
      apply step_bind; [apply same_io_rememberRun | intros ?]. io_steps.
    - exists []. split; [| left; reflexivity].
      cbn [snd world set_world io add_io]. rewrite Hio1, <- !app_assoc. reflexivity. }
  destruct Hbody as (mid & Hmid & Hshape).
  exists mid. split; [| split; [exact Hshape |]].
  - rewrite Hio, Hmid, <- !app_assoc. reflexivity.
  - intros Hunlink. rewrite Hres, Hmid.
    rewrite length_app. cbn [List.length].
    replace (List.length (io (world s)) + S (S (List.length mid)))%nat
      with (List.length (io (world s)) + 2 + List.length mid)%nat by lia.
    rewrite Hunlink. reflexivity.
Qed.

Lemma local_deploy_cleans_up_witness :
  let env := Examples.env_at 0 (fun _ _ => Some (Examples.respond 500 VNull)) in
  exists mid : list IoEvent,
    io (world (snd (handleDeployFromLocal env Examples.deploy_local_blog
                      Examples.busy_server)))
    = (io (world Examples.busy_server)
         ++ IoTar (VStr "/src/blog") :: IoRead "/tmp/deploy-0.tar.gz"
              :: mid ++ [IoUnlink "/tmp/deploy-0.tar.gz"])%list
    /\ (mid = [] \/ mid = [IoNow])
    /\ (unlink_ok env (List.length (io (world Examples.busy_server)) + 2
                         + List.length mid) = false ->
        fst (handleDeployFromLocal env Examples.deploy_local_blog Examples.busy_server)
        = Throw ErrIO).
Proof.
  exact (local_deploy_cleans_up
           (Examples.env_at 0 (fun _ _ => Some (Examples.respond 500 VNull)))
           Examples.deploy_local_blog (VStr "blog") (VStr "/src/blog")
           "https://s1.example.com" "/tmp/deploy-0.tar.gz" Examples.busy_server
           eq_refl eq_refl eq_refl eq_refl).
Defined.

(** ** Opening an application *)

(** X17: [open_app_url] opens the first domain of the application, over https,
    and nothing else, when that domain is printable.  An application
    without domains ([domains] missing, null or an empty list) is answered
    with the no-domain result and the browser is not started.  The name of
    the application and the token are printable, and the URL of its server
    is absolute. *)
Theorem open_app_url_first_domain (env : Env) (appName token data info ds : value)
        (u : string) (s s1 : Server) (r : Response) :
  getServerUrlForApp env appName s = (Ok u, s1) ->
  getProp (config s1) "access_token" = Ok token ->
  Spec.printable appName = true ->
  Spec.printable token = true ->
  Spec.http_url u = true ->
  net env (List.length (calls (world s1)))
      {| method := "GET"; url := u ++ "/api/v1/citizen/apps/" ++ toString appName;
         headers := [("Authorization", "Bearer " ++ toString token)];
         body := NoBody |} = Some r ->
  ok r = true ->
  json r = Some data ->
  unwrapped data = Ok info ->
  getProp info "domains" = Ok ds ->
  (truthy ds = false \/ ds = VArr [] ->
   fst (handleOpenAppUrl env appName s) = Ok (TNoDomain appName)
   /\ io (world (snd (handleOpenAppUrl env appName s))) = io (world s))
  /\ (forall (d : value) (rest : list value),
         ds = VArr (d :: rest) ->
         Spec.printable d = true ->
         io (world (snd (handleOpenAppUrl env appName s)))
         = (io (world s) ++ [IoOpen ("https://" ++ toString d)])%list
         /\ fst (handleOpenAppUrl env appName s)
            = (if open_ok env (List.length (io (world s)))
               then Ok (TOpened ("https://" ++ toString d)) else Throw ErrIO)).
Proof.
  intros Hurl Htoken _ _ _ Hnet Hok Hjson Hinfo Hds.
  pose proof (same_io_getServerUrlForApp env appName s) as Hio.
  rewrite Hurl in Hio. cbn [snd] in Hio. unfold same_io in Hio.
  remember (handleOpenAppUrl env appName s) as run eqn:Hrun.
  unfold handleOpenAppUrl in Hrun.
  unfold bind at 1 in Hrun. rewrite Hurl in Hrun.
  unfold bind at 1 in Hrun. rewrite (GET_run env token _ s1 Htoken) in Hrun.
  cbv zeta in Hrun. rewrite Hnet, Hok in Hrun. cbn [negb] in Hrun.
  unfold bind at 1 in Hrun. unfold inW at 1, json_of at 1, lift at 1 in Hrun.
  rewrite Hjson in Hrun.
  unfold bind at 1 in Hrun. unfold lift at 1 in Hrun. rewrite Hinfo in Hrun.
  unfold bind at 1 in Hrun. unfold lift at 1 in Hrun. rewrite Hds in Hrun.
  split.
  - intros Hnone.
    assert (Hempty : or_else ds (VArr []) = VArr []).
    { destruct Hnone as [Hfalsy | ->]; [| reflexivity].
      unfold or_else. rewrite Hfalsy. reflexivity. }
    rewrite Hempty in Hrun. subst run. cbn. split; [reflexivity | exact Hio].
  - intros d rest -> _. subst run.
    cbn [or_else truthy getProp String.eqb Ascii.eqb Bool.eqb is_num first_item].
    unfold bind, lift, open, inW, ret.
    change (is_num (VNum (Z.of_nat (List.length (d :: rest)))) 0) with false.
    cbv beta iota.
    cbn [world set_world io add_call]. rewrite Hio.
    destruct (open_ok env (List.length (io (world s)))); cbn; rewrite ?Hio;
      split; reflexivity.
Qed.

Lemma open_app_url_first_domain_witness :
  let env := Examples.env_at 0
               (fun _ _ => Some (Examples.respond 200
                                   (VObj [("data",
                                           VObj [("domains",
                                                  VArr [VStr "blog.example.com";
                                                        VStr "www.example.com"])])]))) in
  io (world (snd (handleOpenAppUrl env (VStr "blog") Examples.busy_server)))
  = [IoOpen "https://blog.example.com"]
  /\ fst (handleOpenAppUrl env (VStr "blog") Examples.busy_server)
     = Ok (TOpened "https://blog.example.com").
Proof.
  cbv zeta.
  destruct (open_app_url_first_domain
              (Examples.env_at 0
                 (fun _ _ => Some (Examples.respond 200
                                     (VObj [("data",
                                             VObj [("domains",
                                                    VArr [VStr "blog.example.com";
                                                          VStr "www.example.com"])])]))))
              (VStr "blog") (VStr "tok")
              (VObj [("data", VObj [("domains", VArr [VStr "blog.example.com";
                                                      VStr "www.example.com"])])])
              (VObj [("domains", VArr [VStr "blog.example.com"; VStr "www.example.com"])])
              (VArr [VStr "blog.example.com"; VStr "www.example.com"])
              "https://s1.example.com" Examples.busy_server Examples.busy_server
              (Examples.respond 200
                 (VObj [("data", VObj [("domains", VArr [VStr "blog.example.com";
                                                         VStr "www.example.com"])])]))
              eq_refl eq_refl eq_refl eq_refl eq_refl eq_refl eq_refl eq_refl eq_refl
              eq_refl)
    as [_ Hopen].
  exact (Hopen (VStr "blog.example.com") [VStr "www.example.com"] eq_refl eq_refl).
Defined.

(** ** Reporting a run *)

Lemma first_truthy_truthy (candidates : list value) (fallback : value) :
  truthy fallback = true -> truthy (first_truthy candidates fallback) = true.
Proof.
  intros Hfb. induction candidates as [| c rest IH]; cbn [first_truthy fold_right];
    [exact Hfb |].
  unfold or_else. destruct (truthy c) eqn:Hc; [exact Hc | exact IH].
Qed.

Lemma stepLine_truthy (step n st : value) :
  stepLine step = Ok (n, st) -> truthy n = true /\ truthy st = true.
Proof.
  unfold stepLine. intros H.
  destruct (getProp step "step_name"), (getProp step "name"),
    (getProp step "StepName"), (getProp step "status"), (getProp step "Status");
    try discriminate H.
  injection H as <- <-.
  split; [apply (first_truthy_truthy [_; _; _]) | apply (first_truthy_truthy [_; _])];
    reflexivity.
Qed.

Lemma mapM_stepLine (steps : list value) (s : Server) :
  forall (ls : list (value * value)) (s' : Server),
    mapM (fun step => lift (stepLine step)) steps s = (Ok ls, s') ->
    List.length ls = List.length steps
    /\ Forall (fun l => truthy (fst l) = true /\ truthy (snd l) = true) ls.
Proof.
  induction steps as [| step rest IH]; intros ls s' H; cbn [mapM] in H.
  - injection H as <- <-. split; [reflexivity | constructor].
  - unfold bind at 1 in H. unfold lift at 1 in H.
    destruct (stepLine step) as [[n st] | e] eqn:Hstep; [| discriminate H].
    unfold bind at 1 in H.
    destruct (mapM (fun step0 => lift (stepLine step0)) rest s) as [[ls' | e] s1] eqn:Hrest;
      [| discriminate H].
    injection H as <- <-.
    destruct (IH ls' s1 eq_refl) as [Hlen Hall].
    split; [cbn [List.length]; congruence |].
    constructor; [exact (stepLine_truthy step n st Hstep) | exact Hall].
Qed.

(** One step of a run that is known to return. *)
Ltac ok_step H :=
  unfold bind at 1 in H;
  lazymatch type of H with
  | fst (match ?m ?s with _ => _ end) = Ok _ =>
      let E := fresh "E" in
      destruct (m s) as [[? | ?] ?] eqn:E; cbn [fst] in H; [| discriminate H]
  end.

(** X18: What [get_deployment_status] reports never has a blank: the source
    falls back to a fixed text, a step without a name or a status is shown
    with a placeholder, and the list of steps is either absent or not
    empty. *)
Theorem status_report_has_no_blank (env : Env) (runId : value) (s : Server)
        (id app st source : value) (steps : option (list (value * value))) :
  fst (handleGetDeploymentStatus env runId s) = Ok (TRun id app st source steps) ->
  truthy source = true
  /\ match steps with
     | Some ls =>
         ls <> []
         /\ Forall (fun l => truthy (fst l) = true /\ truthy (snd l) = true) ls
     | None => True
     end.
Proof.
  intros H. unfold handleGetDeploymentStatus in H.
  ok_step H. ok_step H.
  match type of H with
  | context [negb (ok ?r)] =>
      destruct (negb (ok r)); [unfold throw in H; cbn [fst] in H; discriminate H |]
  end.
  do 4 ok_step H.
  unfold bind at 1 in H.
  match type of H with
  | fst (match ?m ?s0 with _ => _ end) = Ok _ =>
      destruct (m s0) as [[lines | ?] sl] eqn:Hlines; cbn [fst] in H; [| discriminate H]
  end.
  do 7 ok_step H.
  unfold ret in H. cbn [fst] in H. injection H as <- <- <- <- <-.
  split; [apply (first_truthy_truthy [_; _; _]); reflexivity |].
  destruct lines as [ls |]; [| exact I].
  destruct a4 as [| | | | | | [| step more] |];
    try (unfold ret in Hlines; discriminate Hlines).
  unfold bind in Hlines.
  destruct (mapM (fun step0 => lift (stepLine step0)) (step :: more) s5)
    as [[ls' | e] s'] eqn:Hmap; [| discriminate Hlines].
  unfold ret in Hlines. injection Hlines as <- <-.
  destruct (mapM_stepLine (step :: more) s5 ls' s' Hmap) as [Hlen Hall].
  split; [| exact Hall].
  intros ->. discriminate Hlen.
Qed.

Lemma status_report_has_no_blank_witness :
  fst (handleGetDeploymentStatus (Examples.env_at 0 Examples.run_report) (VStr "r1")
         Examples.busy_server)
  = Ok (TRun (VStr "r1") (VStr "blog") (VStr "running") (VStr "local upload")
          (Some [(VStr "build", VStr "done"); (VStr "release", VStr "pending")]))
  /\ truthy (VStr "local upload") = true
  /\ [(VStr "build", VStr "done"); (VStr "release", VStr "pending")] <> []
  /\ Forall (fun l => truthy (fst l) = true /\ truthy (snd l) = true)
       [(VStr "build", VStr "done"); (VStr "release", VStr "pending")].
Proof.
  split; [reflexivity |].
  exact (status_report_has_no_blank (Examples.env_at 0 Examples.run_report) (VStr "r1")
           Examples.busy_server (VStr "r1") (VStr "blog") (VStr "running")
           (VStr "local upload")
           (Some [(VStr "build", VStr "done"); (VStr "release", VStr "pending")])
           eq_refl).
Defined.

(** ** Listing the runs of an application *)

(** X19: Every run that [list_deployment_runs] lists is from then on resolved
    from memory: its run id, when it is a non-empty string or a number, maps
    to the server of the application. *)
Theorem listed_runs_are_cached (env : Env) (appName : value) (s : Server)
        (name : value) (shown : list value) :
  fst (handleListDeploymentRuns env appName s) = Ok (TRuns name shown) ->
  exists u : string,
    fst (getServerUrlForApp env appName s) = Ok u
    /\ forall run rid : value,
        In run shown -> getProp run "run_id" = Ok rid ->
        truthy rid = true -> Spec.primitive rid = true ->
        map_get rid (runServerMap (snd (handleListDeploymentRuns env appName s)))
        = Some u.
Proof.
  intros H. exact (list_runs_stores env appName s name shown H).
Qed.
Lemma listed_runs_are_cached_witness :
  let env := Examples.env_at 0 Examples.two_runs in
  exists u : string,
    fst (getServerUrlForApp env (VStr "blog") Examples.busy_server) = Ok u
    /\ forall run rid : value,
        In run Examples.listed_runs -> getProp run "run_id" = Ok rid ->
        truthy rid = true -> Spec.primitive rid = true ->
        map_get rid
          (runServerMap (snd (handleListDeploymentRuns env (VStr "blog")
                                Examples.busy_server)))
        = Some u.
Proof.
  exact (listed_runs_are_cached (Examples.env_at 0 Examples.two_runs) (VStr "blog")
           Examples.busy_server (VStr "blog") Examples.listed_runs eq_refl).
Defined.

(** ** Looking an application up *)

(** What the last entry under a name wrote is what the map holds. *)
Lemma install_last (name : value) (info : Types.AppWithServer)
      (es : list (value * Types.AppWithServer)) :
  forall m : Map Types.AppWithServer,
    map_get name m = Some info ->
    Forall (fun e => sameValueZero (fst e) name = false) es ->
    map_get name (Spec.install es m) = Some info.
Proof.
  induction es as [| e es IH]; intros m Hm Hes; simpl; [exact Hm |].
  inversion Hes as [| e' es' He Hrest]; subst.
  apply IH; [| exact Hrest].
  rewrite map_get_set_other; assumption.
Qed.

(** X20: An application that is not in the map is looked up by one refresh:
    every known server is asked once, in order.  When several servers list
    the name, the last one in the order of the server set is the one
    returned; when none does, the lookup fails with the not-found error.
    The servers are ones the code can address and name, and the token and
    the name that is looked up are printable. *)
Theorem app_lookup_refreshes (env : Env) (token : value) (s : Server)
        (items : list value) (plan : list Spec.Answer) (name : value) :
  servers s = VArr items ->
  items <> [] ->
  getProp (config s) "access_token" = Ok token ->
  Spec.printable token = true ->
  Spec.printable name = true ->
  Spec.follows env token (List.length (calls (world s))) items plan ->
  map_get name (appServerMap s) = None ->
  calls (world (snd (getServerUrlForApp env name s)))
  = (calls (world s) ++ map (Spec.appsRequest token) items)%list
  /\ (forall (es1 es2 : list (value * Types.AppWithServer)) (k : value)
             (info : Types.AppWithServer),
         Spec.entries_of items plan = (es1 ++ (k, info) :: es2)%list ->
         sameValueZero k name = true ->
         Forall (fun e => sameValueZero (fst e) name = false) es2 ->
         fst (getServerUrlForApp env name s) = Ok (Types.server_url info))
  /\ (Forall (fun e => sameValueZero (fst e) name = false) (Spec.entries_of items plan) ->
      fst (getServerUrlForApp env name s)
      = Throw (ErrMsg ("App '" ++ toString name
                         ++ "' not found. Use list_apps to see available apps."))).
Proof.
  intros Hss Hne Htoken _ _ Hplan Hmiss.
  destruct (handleListApps_follows env token s items plan Hss Hne Htoken Hplan)
    as (s' & Hrun & Hmap & _ & _ & Hcalls & _).
  remember (getServerUrlForApp env name s) as run eqn:Hlookup.
  unfold getServerUrlForApp in Hlookup.
  unfold bind at 1 in Hlookup. unfold gets at 1 in Hlookup. rewrite Hmiss in Hlookup.
  unfold bind at 1 in Hlookup. rewrite Hrun in Hlookup.
  unfold bind at 1 in Hlookup. unfold gets at 1 in Hlookup. rewrite Hmap in Hlookup.
  split; [| split].
  - subst run. destruct (map_get name (Spec.install _ _)); exact Hcalls.
  - intros es1 es2 k info Hsplit Hk Hes2.
    rewrite Hsplit, install_app in Hlookup. cbn [Spec.install fold_left fst snd] in Hlookup.
    fold (Spec.install es2 (map_set k info (Spec.install es1 []))) in Hlookup.
    rewrite (install_last name info es2) in Hlookup;
      [subst run; reflexivity | apply map_get_set_same; exact Hk | exact Hes2].
  - intros Hnone.
    rewrite (install_absent name _ [] eq_refl Hnone) in Hlookup.
    subst run. reflexivity.
Qed.

Lemma app_lookup_refreshes_witness :
  let env := Examples.env_at 0 Examples.all_list_blog in
  calls (world (snd (getServerUrlForApp env (VStr "blog") Examples.idle_server)))
  = map (Spec.appsRequest (VStr "tok")) Examples.three_servers
  /\ fst (getServerUrlForApp env (VStr "blog") Examples.idle_server)
     = Ok "https://s3.example.com".
Proof.
  cbv zeta.
  destruct (app_lookup_refreshes (Examples.env_at 0 Examples.all_list_blog) (VStr "tok")
              Examples.idle_server Examples.three_servers
              [Spec.Lists [VStr "blog"]; Spec.Lists [VStr "blog"]; Spec.Lists [VStr "blog"]]
              (VStr "blog") eq_refl ltac:(discriminate) eq_refl eq_refl eq_refl)
    as (Hcalls & Hlast & _).
  - simpl. repeat split;
      exists (Examples.listing [VStr "blog"]); eexists; repeat split; reflexivity.
  - reflexivity.
  - split; [exact Hcalls |].
    exact (Hlast [Examples.app_on "blog" "s1" "s1.example.com";
                  Examples.app_on "blog" "s2" "s2.example.com"] []
             (VStr "blog") (snd (Examples.app_on "blog" "s3" "s3.example.com"))
             eq_refl eq_refl (Forall_nil _)).
Defined.

(** A lookup that returns has the application in the map, and returns the
    URL recorded there. *)
Lemma getServerUrlForApp_found (env : Env) (appName : value) (s s1 : Server)
      (u : string) :
  getServerUrlForApp env appName s = (Ok u, s1) ->
  exists appInfo : Types.AppWithServer,
    map_get appName (appServerMap s1) = Some appInfo /\ u = Types.server_url appInfo.
Proof.
  unfold getServerUrlForApp. unfold bind at 1. unfold gets at 1.
  destruct (map_get appName (appServerMap s)) as [appInfo |] eqn:Hhit.
  - unfold ret. intros H. injection H as <- <-. exists appInfo. split; [exact Hhit | reflexivity].
  - unfold bind at 1.
    destruct (handleListApps env s) as [[t | e] s2]; [| discriminate].
    unfold bind at 1. unfold gets at 1.
    destruct (map_get appName (appServerMap s2)) as [appInfo |] eqn:Hhit2;
      [| discriminate].
    unfold ret. intros H. injection H as <- <-.
    exists appInfo. split; [exact Hhit2 | reflexivity].
Qed.

(** ** A session, from disk or from the provider *)


(** A flow that returns has written what it returns to the credential
    file, and what it returns is an object. *)
Lemma authenticate_writes (env : Env) (apiUrl : string) (w : World) (c : value) :
  fst (DeviceAuthFlow.authenticate env apiUrl w) = Ok c ->
  truthy c = true
  /\ configFile (snd (DeviceAuthFlow.authenticate env apiUrl w))
     = FText (Some (jsonRoundTrip c)).
Proof.
  intros H.
  remember (DeviceAuthFlow.authenticate env apiUrl w) as run eqn:Hrun.
  unfold DeviceAuthFlow.authenticate in Hrun.
  run_steps run Hrun H. cbv zeta in Hrun.
  unfold lift in E21, E23, E24. unfold log, modify in E22, E25.
  injection E21 as _ <-. injection E22 as _ <-. injection E23 as _ <-.
  injection E24 as _ <-. injection E25 as _ <-.
  unfold DeviceAuthFlow.saveConfig in E20.
  destruct (write_ok env (List.length (io w20)));
    [| destruct (write_truncates env (List.length (io w20))); discriminate E20].
  injection E20 as _ <-.
  subst run. unfold ret in H |- *. cbn [fst snd] in H |- *. injection H as <-.
  split; reflexivity.
Qed.

(** X22: What [ensureAuthenticated] returns is a session that is on disk: it
    was read from the credential file, and then no call was made; or the
    file held none that could be used, and the device flow has just written
    it there. *)
Theorem ensureAuthenticated_yields_session (env : Env) (apiUrl : string) (w : World)
        (c : value) :
  fst (DeviceAuthFlow.ensureAuthenticated env apiUrl w) = Ok c ->
  truthy c = true
  /\ ((configFile w = FText (Some c)
       /\ calls (snd (DeviceAuthFlow.ensureAuthenticated env apiUrl w)) = calls w)
      \/ ((exists v, fst (DeviceAuthFlow.loadConfig env w) = Ok v /\ truthy v = false)
          /\ configFile (snd (DeviceAuthFlow.ensureAuthenticated env apiUrl w))
             = FText (Some (jsonRoundTrip c)))).
Proof.
  intros H.
  destruct (loadConfig_returns env w) as (v & Hload & Hfrom & Hcalls).
  remember (DeviceAuthFlow.ensureAuthenticated env apiUrl w) as run eqn:Hrun.
  unfold DeviceAuthFlow.ensureAuthenticated in Hrun. unfold bind at 1 in Hrun.
  destruct (DeviceAuthFlow.loadConfig env w) as [[v' | e] w1];
    cbn [fst snd] in Hload, Hcalls; [| discriminate Hload].
  injection Hload as ->.
  destruct (truthy v) eqn:Hv; cbn [negb] in Hrun.
  - subst run. unfold ret in H |- *. cbn [fst snd] in H |- *. injection H as <-.
    split; [exact Hv |]. left.
    destruct Hfrom as [-> | Hfile]; [discriminate Hv |].
    split; [exact Hfile | exact Hcalls].
  - subst run. destruct (authenticate_writes env apiUrl w1 c H) as [Hc Hwritten].
    split; [exact Hc |]. right. split; [| exact Hwritten].
    exists v. split; [reflexivity | exact Hv].
Qed.

Lemma ensureAuthenticated_yields_session_witness :
  let env := Examples.env_at 999 Examples.offline in
  let w := Examples.world_with (FText (Some (Examples.bundle 1000))) in
  truthy (Examples.bundle 1000) = true
  /\ ((configFile w = FText (Some (Examples.bundle 1000))
       /\ calls (snd (DeviceAuthFlow.ensureAuthenticated env "https://ustun.tech" w))
          = calls w)
      \/ ((exists v, fst (DeviceAuthFlow.loadConfig env w) = Ok v /\ truthy v = false)
          /\ configFile (snd (DeviceAuthFlow.ensureAuthenticated env
                                "https://ustun.tech" w))
             = FText (Some (jsonRoundTrip (Examples.bundle 1000))))).
Proof.
  exact (ensureAuthenticated_yields_session (Examples.env_at 999 Examples.offline)
           "https://ustun.tech"
           (Examples.world_with (FText (Some (Examples.bundle 1000))))
           (Examples.bundle 1000) eq_refl).
Defined.

(** ** What touches the session *)

#[export] Instance same_session_step : StepRel same_session.
Proof.
  split; unfold same_session.
  - intros; split; reflexivity.
  - intros s1 s2 s3 [A1 A2] [B1 B2]; split; congruence.
Qed.

Lemma step_try_finally {R : Server -> Server -> Prop} {HR : StepRel R} {A}
      (m : M Server A) (f : M Server unit) :
  keeps R m -> keeps R f -> keeps R (try_finally m f).
Proof.
  intros Hm Hf s. unfold try_finally. specialize (Hm s).
  destruct (m s) as [[a | e] s1]; cbn [snd] in *; specialize (Hf s1);
    destruct (f s1) as [[u | e'] s2]; cbn [snd] in *;
    eapply step_trans; eauto.
Qed.

Lemma same_session_inW {A} (m : M World A) : quiet m -> keeps same_session (inW m).
Proof.
  intros Hm s. unfold same_session, inW. specialize (Hm (world s)).
  destruct (m (world s)) as [r w]. split; [reflexivity | exact Hm].
Qed.

Lemma same_session_modify (f : Server -> Server) :
  (forall s, config (f s) = config s /\ world (f s) = world s) ->
  keeps same_session (modify f).
Proof.
  intros Hf s. destruct (Hf s) as [Hc Hw]. unfold same_session, modify. cbn [snd].
  rewrite Hc, Hw. split; reflexivity.
Qed.

Create HintDb session.

(** A proof that a computation leaves the session alone, by its shape;
    what is not a combinator is looked up among the proved ones. *)
Ltac session_steps :=
  repeat first
    [ progress steps
    | lazymatch goal with
      | |- keeps same_session (try_finally _ _) => apply step_try_finally
      | |- keeps same_session (inW (fetch _ _)) => apply same_session_inW, quiet_fetch
      | |- keeps same_session (inW (json_of _)) => apply same_session_inW, quiet_json_of
      | |- keeps same_session (inW (log _)) => apply same_session_inW, quiet_log
      | |- keeps same_session (inW (now _)) => apply same_session_inW, quiet_now
      | |- keeps same_session (modify _) =>
          apply same_session_modify; intros ?; split; reflexivity
      end
    | solve [auto with session] ].

Section SessionFrames.
Variable env : Env.

Lemma same_session_authorization : keeps same_session authorization.
Proof. unfold authorization. session_steps. Qed.
Hint Resolve same_session_authorization : session.

Lemma same_session_GET (u : string) : keeps same_session (GET env u).
Proof. unfold GET. session_steps. Qed.
Hint Resolve same_session_GET : session.

Lemma same_session_POST_json (u : string) (payload : M Server value) :
  keeps same_session payload -> keeps same_session (POST_json env u payload).
Proof. intros Hp. unfold POST_json. session_steps. Qed.

Lemma same_session_fetchServers : keeps same_session (fetchServers env).
Proof. unfold fetchServers. session_steps. Qed.
Hint Resolve same_session_fetchServers : session.

Lemma same_session_servers_empty : keeps same_session servers_empty.
Proof. unfold servers_empty. session_steps. Qed.
Hint Resolve same_session_servers_empty : session.

Lemma same_session_handleListServers : keeps same_session (handleListServers env).
Proof. unfold handleListServers. session_steps. Qed.

Lemma same_session_mapApps (server : value) (serverUrl : string) (appsList : list value) :
  keeps same_session (mapApps server serverUrl appsList).
Proof.
  induction appsList as [| app rest IH]; cbn [mapApps]; session_steps; exact IH.
Qed.
Hint Resolve same_session_mapApps : session.

Lemma same_session_listServerApps (server : value) (serverUrl : string)
      (allApps : list AppGroup) :
  keeps same_session (listServerApps env server serverUrl allApps).
Proof. unfold listServerApps. session_steps. Qed.
Hint Resolve same_session_listServerApps : session.

Lemma same_session_listAllApps (items : list value) :
  forall allApps, keeps same_session (listAllApps env items allApps).
Proof.
  induction items as [| server rest IH]; intros allApps; cbn [listAllApps];
    session_steps; apply IH.
Qed.
Hint Resolve same_session_listAllApps : session.

Lemma same_session_handleListApps : keeps same_session (handleListApps env).
Proof. unfold handleListApps. session_steps. Qed.
Hint Resolve same_session_handleListApps : session.

Lemma same_session_getServerUrlForApp (appName : value) :
  keeps same_session (getServerUrlForApp env appName).
Proof. unfold getServerUrlForApp. session_steps. Qed.
Hint Resolve same_session_getServerUrlForApp : session.

Lemma same_session_lookupApp (appName : value) : keeps same_session (lookupApp appName).
Proof. unfold lookupApp. session_steps. Qed.
Hint Resolve same_session_lookupApp : session.

Lemma same_session_handleGetAppInfo (appName : value) :
  keeps same_session (handleGetAppInfo env appName).
Proof. unfold handleGetAppInfo. session_steps. Qed.

Lemma same_session_rememberRun (run_id : value) (serverUrl : string) :
  keeps same_session (rememberRun run_id serverUrl).
Proof. unfold rememberRun. session_steps. Qed.
Hint Resolve same_session_rememberRun : session.

Lemma same_session_handleDeployFromGit (args : value) :
  keeps same_session (handleDeployFromGit env args).
Proof.
  unfold handleDeployFromGit. session_steps.
  apply same_session_POST_json. session_steps.
Qed.

Lemma same_session_createTarGz (directory : value) :
  keeps same_session (createTarGz env directory).
Proof.
  unfold createTarGz. apply same_session_inW. intros w. cbv beta.
  destruct (tar env _ _); reflexivity.
Qed.
Hint Resolve same_session_createTarGz : session.

Lemma same_session_readFileSync (path : string) :
  keeps same_session (readFileSync env path).
Proof.
  unfold readFileSync. apply same_session_inW. intros w. cbv beta.
  destruct (read env _ _); reflexivity.
Qed.
Hint Resolve same_session_readFileSync : session.

Lemma same_session_unlinkSync (path : string) :
  keeps same_session (unlinkSync env path).
Proof.
  unfold unlinkSync. apply same_session_inW. intros w. cbv beta.
  destruct (unlink_ok env _); reflexivity.
Qed.
Hint Resolve same_session_unlinkSync : session.

Lemma same_session_open (target : string) : keeps same_session (open env target).
Proof.
  unfold open. apply same_session_inW. intros w. cbv beta.
  destruct (open_ok env _); reflexivity.
Qed.
Hint Resolve same_session_open : session.

Lemma same_session_handleDeployFromLocal (args : value) :
  keeps same_session (handleDeployFromLocal env args).
Proof.
  unfold handleDeployFromLocal. session_steps.
  apply same_session_POST_json. session_steps.
Qed.

Lemma same_session_probeServers (runId : value) (items : list value) :
  keeps same_session (probeServers env runId items).
Proof.
  induction items as [| server rest IH]; cbn [probeServers]; session_steps; exact IH.
Qed.
Hint Resolve same_session_probeServers : session.

Lemma same_session_getServerUrlForRun (runId : value) :
  keeps same_session (getServerUrlForRun env runId).
Proof. unfold getServerUrlForRun. session_steps. Qed.
Hint Resolve same_session_getServerUrlForRun : session.

Lemma same_session_handleGetDeploymentStatus (runId : value) :
  keeps same_session (handleGetDeploymentStatus env runId).
Proof. unfold handleGetDeploymentStatus. session_steps. Qed.

Lemma same_session_rememberRuns (runs : list value) (serverUrl : string) :
  keeps same_session (rememberRuns runs serverUrl).
Proof.
  induction runs as [| run rest IH]; cbn [rememberRuns]; session_steps; exact IH.
Qed.
Hint Resolve same_session_rememberRuns : session.

Lemma same_session_handleListDeploymentRuns (appName : value) :
  keeps same_session (handleListDeploymentRuns env appName).
Proof. unfold handleListDeploymentRuns. session_steps. Qed.

Lemma same_session_handleOpenAppUrl (appName : value) :
  keeps same_session (handleOpenAppUrl env appName).
Proof. unfold handleOpenAppUrl. session_steps. Qed.

End SessionFrames.

(** X23: With a bundle in memory, no tool behind [ensureAuth] touches the
    session: whatever the servers answer, an error status included, the
    bundle in memory and the credential file are the ones before, and the
    expiry of the bundle is not looked at. *)
Theorem session_survives_gated_tools (env : Env) (name : string) (args : value)
        (s : Server) :
  In name Spec.gated_tools ->
  truthy (config s) = true ->
  config (snd (handleToolCall env name args s)) = config s
  /\ configFile (world (snd (handleToolCall env name args s))) = configFile (world s).
Proof.
  intros Hname Hcfg.
  assert (Hauth : ensureAuth env s = (Ok tt, s)).
  { unfold ensureAuth, bind, gets. rewrite Hcfg. reflexivity. }
  assert (Hrun : exists K : M Server ToolText,
             keeps same_session K /\ dispatch env name args = (ensureAuth env ;; K)).
  { unfold Spec.gated_tools in Hname. cbn [In] in Hname. unfold dispatch.
    repeat (destruct Hname as [<- | Hname];
            [ cbn [String.eqb Ascii.eqb Bool.eqb];
              eexists; (split; [| reflexivity]); session_steps;
              first [ apply same_session_handleListServers
                    | apply same_session_handleListApps
                    | apply same_session_handleGetAppInfo
                    | apply same_session_handleDeployFromGit
                    | apply same_session_handleDeployFromLocal
                    | apply same_session_handleGetDeploymentStatus
                    | apply same_session_handleListDeploymentRuns
                    | apply same_session_handleOpenAppUrl ] |]).
    contradiction. }
  destruct Hrun as (K & HK & Hdispatch).
  change (same_session s (snd (handleToolCall env name args s))).
  unfold handleToolCall, try_catch. rewrite Hdispatch.
  unfold bind at 1. unfold bind at 1. rewrite Hauth.
  specialize (HK s). destruct (K s) as [[t | e] s']; exact HK.
Qed.

Lemma session_survives_gated_tools_witness :
  let env := Examples.env_at 5000 (fun _ _ => Some (Examples.respond 401 VNull)) in
  config (snd (handleToolCall env "list_apps" VNull Examples.busy_server))
  = Examples.bundle 1000
  /\ configFile (world (snd (handleToolCall env "list_apps" VNull Examples.busy_server)))
     = FAbsent.
Proof.
  exact (session_survives_gated_tools
           (Examples.env_at 5000 (fun _ _ => Some (Examples.respond 401 VNull)))
           "list_apps" VNull Examples.busy_server
           (or_intror (or_introl eq_refl)) eq_refl).
Defined.

(** ** Reading an application *)

(** X21: What [get_app_info] reports is headed by the name asked for and by the
    slug of the server the map holds for it: when the handler returns, the
    application is in the map, the one request it made after the lookup
    went to the URL recorded there, under the path of the application and
    with the token of the bundle, and the placeholder stands only for a
    recorded slug that is falsy.  The name and the token are printable. *)
Theorem app_info_names_server (env : Env) (appName token : value) (s : Server)
        (n slug info : value) :
  getProp (config s) "access_token" = Ok token ->
  Spec.printable token = true ->
  Spec.printable appName = true ->
  fst (handleGetAppInfo env appName s) = Ok (TAppInfo n slug info) ->
  exists appInfo : Types.AppWithServer,
    map_get appName (appServerMap (snd (handleGetAppInfo env appName s))) = Some appInfo
    /\ fst (getServerUrlForApp env appName s) = Ok (Types.server_url appInfo)
    /\ n = appName
    /\ slug = or_else (Types.server_slug appInfo) (VStr "unknown")
    /\ calls (world (snd (handleGetAppInfo env appName s)))
       = (calls (world (snd (getServerUrlForApp env appName s)))
            ++ [Spec.appRequest token appName (Types.server_url appInfo)])%list.
Proof.
  intros Htoken _ _ H.
  remember (handleGetAppInfo env appName s) as run eqn:Hrun.
  unfold handleGetAppInfo in Hrun.
  run_step run Hrun H.
  destruct (getServerUrlForApp_found env appName s _ _ E) as (appInfo & Hhit & ->).
  pose proof (same_session_getServerUrlForApp env appName s) as Hcfg.
  rewrite E in Hcfg. cbn [snd] in Hcfg. destruct Hcfg as [Hcfg _].
  assert (Htoken0 : getProp (config s0) "access_token" = Ok token)
    by (rewrite Hcfg; exact Htoken).
  unfold bind at 1 in Hrun. rewrite (GET_run env token _ s0 Htoken0) in Hrun.
  cbv zeta in Hrun.
  destruct (net env _ _) as [r |]; [| subst run; discriminate H].
  destruct (negb (ok r)); [subst run; discriminate H |].
  unfold bind at 1 in Hrun. unfold inW at 1, json_of at 1, lift at 1 in Hrun.
  destruct (json r) as [data |]; [| subst run; discriminate H].
  unfold bind at 1 in Hrun. unfold lift at 1 in Hrun.
  destruct (unwrapped data) as [info' | e]; [| subst run; discriminate H].
  unfold lookupApp in Hrun. unfold bind, gets, ret in Hrun. cbv beta iota in Hrun.
  cbn [appServerMap set_world world] in Hrun. rewrite Hhit in Hrun.
  subst run. cbn [fst snd] in H |- *. injection H as <- <- <-.
  exists appInfo. cbn [appServerMap set_world world calls add_call].
  split; [exact Hhit |]. repeat split; reflexivity.
Qed.

Lemma app_info_names_server_witness :
  let env := Examples.env_at 0 Examples.deploy_as_r1 in
  exists appInfo : Types.AppWithServer,
    map_get (VStr "blog")
      (appServerMap (snd (handleGetAppInfo env (VStr "blog") Examples.busy_server)))
    = Some appInfo
    /\ fst (getServerUrlForApp env (VStr "blog") Examples.busy_server)
       = Ok (Types.server_url appInfo)
    /\ VStr "blog" = VStr "blog"
    /\ VStr "s1" = or_else (Types.server_slug appInfo) (VStr "unknown")
    /\ calls (world (snd (handleGetAppInfo env (VStr "blog") Examples.busy_server)))
       = (calls (world (snd (getServerUrlForApp env (VStr "blog") Examples.busy_server)))
            ++ [Spec.appRequest (VStr "tok") (VStr "blog")
                  (Types.server_url appInfo)])%list.
Proof.
  exact (app_info_names_server (Examples.env_at 0 Examples.deploy_as_r1) (VStr "blog")
           (VStr "tok") Examples.busy_server (VStr "blog") (VStr "s1")
           (VObj [("run_id", VStr "r1"); ("status", VStr "queued")])
           eq_refl eq_refl eq_refl eq_refl).
Defined.
